(** * MC-VQE (xacc, quantum/plugins/algorithms/mc-vqe/mc-vqe.cpp)

    A shallow embedding of the multi-configurational VQE plugin: the
    chemistry-data loader and AIEM Hamiltonian builder ([preProcessing]),
    the angle encoder ([statePreparationAngles]), the two circuit builders,
    the averaged-energy objective handed to the optimizer and the
    interference stage of [execute].

    Conventions.
    - A C++ [double] is a carrier [D] with the operations of the class
      [Scalar]; its instance [binary64] is the IEEE-754 doubles of the
      kernel's primitive floats, with the rounding of each operation.  The
      libm functions [std::pow] and [std::acos] are arguments of the
      functions calling them.
    - A C++ [int] is a [Z]; loop counters and site indices stay within
      [-1 .. nChromophores + 4 * blocks], far from the 32-bit limits, so no
      wrap-around is written for them.  A [std::size_t] is a [Z] reduced
      modulo [2^64].
    - An Eigen vector or a [std::vector] is a [list]; a dense Eigen matrix is
      the list of its columns (Eigen's default storage order).  An access
      outside the bounds is [Undefined]: Eigen's [eigen_assert] in a checked
      build, undefined behaviour otherwise.
    - Fallible code lives in the monad [outcome].
    - The circuit builders are embedded twice: as functions of the object
      and of the angles, and request by request over the IR provider, whose
      state they thread. *)

From Stdlib Require Import ZArith Lia Floats Ascii String.
From stdpp Require Import base list strings pretty.

(* stdpp's solvers clear hypotheses that may be gone already *)
#[local] Set Warnings "-clear-no-such-hyp".

Local Open Scope Z_scope.

(** ** Doubles *)

Class Scalar (D : Type) := {
  of_int : Z → D;            (* conversion int -> double, and the literals 0.0, 2.0, 3.0, -1.0 *)
  half : D;                  (* the literal 0.5 *)
  dadd : D → D → D;
  dsub : D → D → D;
  dmul : D → D → D;
  ddiv : D → D → D;
  dopp : D → D;
  dsqrt : D → D;             (* std::sqrt *)
  dltb : D → D → bool        (* operator< *)
}.

Declare Scope dbl_scope.
Delimit Scope dbl_scope with dbl.
Infix "+" := dadd : dbl_scope.
Infix "-" := dsub : dbl_scope.
Infix "*" := dmul : dbl_scope.
Infix "/" := ddiv : dbl_scope.
Notation "- x" := (dopp x) : dbl_scope.
Infix "<?" := dltb : dbl_scope.

Definition float_of_int (z : Z) : float :=
  match z with
  | Z0 => 0%float
  | Zpos _ => PrimFloat.of_uint63 (Uint63.of_Z z)
  | Zneg p => PrimFloat.opp (PrimFloat.of_uint63 (Uint63.of_Z (Zpos p)))
  end.

#[export] Instance binary64 : Scalar float := {|
  of_int := float_of_int;
  half := 0.5%float;
  dadd := PrimFloat.add;
  dsub := PrimFloat.sub;
  dmul := PrimFloat.mul;
  ddiv := PrimFloat.div;
  dopp := PrimFloat.opp;
  dsqrt := PrimFloat.sqrt;
  dltb := PrimFloat.ltb
|}.

(** ** Outcomes of fallible code *)

Inductive exn := invalid_argument | out_of_range.

Inductive outcome (A : Type) : Type :=
| Done (a : A)              (* normal completion *)
| Fatal (msg : string)      (* xacc::error *)
| Thrown (e : exn)          (* an uncaught C++ exception *)
| Undefined.                (* out-of-bounds access *)
Arguments Done {A} a.
Arguments Fatal {A} msg.
Arguments Thrown {A} e.
Arguments Undefined {A}.

#[export] Instance outcome_ret : MRet outcome := @Done.
#[export] Instance outcome_bind : MBind outcome := λ A B f m,
  match m with
  | Done a => f a
  | Fatal msg => Fatal msg
  | Thrown e => Thrown e
  | Undefined => Undefined
  end.

Fixpoint foldM {A S : Type} (body : A → S → outcome S) (l : list A) (s : S)
  : outcome S :=
  match l with
  | [] => Done s
  | a :: l' => s' ← body a s; foldM body l' s'
  end.

Fixpoint mapM' {A B : Type} (f : A → outcome B) (l : list A) : outcome (list B) :=
  match l with
  | [] => Done []
  | a :: l' => b ← f a; bs ← mapM' f l'; Done (b :: bs)
  end.

(** [for (int i = lo; i < hi; i++)] visits [range lo hi]. *)
Definition range (lo hi : Z) : list Z := seqZ lo (hi - lo).

(** [for (int i = hi; i >= lo; i--)] visits [down_range hi lo]. *)
Definition down_range (hi lo : Z) : list Z := reverse (seqZ lo (hi - lo + 1)).

(** [for (int i = lo; i < hi; i += 2)] visits [range_step2 lo hi]. *)
Definition range_step2 (lo hi : Z) : list Z :=
  (λ k, lo + 2 * k) <$> seqZ 0 ((hi - lo + 1) `div` 2).

Definition to_size_t (z : Z) : Z := z `mod` 2 ^ 64.

(** ** Vectors and matrices *)

Definition vget {A : Type} (v : list A) (i : Z) : outcome A :=
  if i <? 0 then Undefined
  else match v !! Z.to_nat i with
       | Some a => Done a
       | None => Undefined
       end.

Definition vset {A : Type} (v : list A) (i : Z) (a : A) : outcome (list A) :=
  if (0 <=? i) && (i <? Z.of_nat (length v))
  then Done (<[Z.to_nat i := a]> v)
  else Undefined.

(** A matrix is the list of its columns. *)
Abbreviation matrix D := (list (list D)).

Section Eigen.
Context {D : Type} `{Scalar D}.
Local Open Scope dbl_scope.

Definition d0 : D := of_int 0.

Definition vzero (n : Z) : list D := replicate (Z.to_nat n) d0.
Definition mzero (r c : Z) : matrix D := replicate (Z.to_nat c) (vzero r).

Definition mcol (m : matrix D) (j : Z) : outcome (list D) := vget m j.
Definition mrow (m : matrix D) (i : Z) : outcome (list D) :=
  mapM' (λ c, vget c i) m.
Definition mget (m : matrix D) (i j : Z) : outcome D :=
  c ← vget m j; vget c i.
Definition mset (m : matrix D) (i j : Z) (x : D) : outcome (matrix D) :=
  c ← vget m j; c' ← vset c i x; vset m j c'.

(** Coefficient-wise expressions. *)
Definition vadd (u v : list D) : list D := zip_with dadd u v.
Definition vsub (u v : list D) : list D := zip_with dsub u v.
Definition vdivs (u : list D) (x : D) : list D := (λ a, a / x) <$> u.
Definition madd (a b : matrix D) : matrix D := zip_with vadd a b.
Definition msub (a b : matrix D) : matrix D := zip_with vsub a b.
Definition mdivs (a : matrix D) (x : D) : matrix D := (λ c, vdivs c x) <$> a.
Definition vmuls (u : list D) (x : D) : list D := (λ a, a * x) <$> u.
Definition mmuls (a : matrix D) (x : D) : matrix D := (λ c, vmuls c x) <$> a.

(** Eigen's reductions start from the first coefficient; the sum of an
    empty expression is zero. *)
Definition vsum (v : list D) : D :=
  match v with
  | [] => d0
  | a :: v' => foldl dadd a v'
  end.
Definition msum (m : matrix D) : D := vsum (concat m).
Definition dot (u v : list D) : D := vsum (zip_with dmul u v).
Definition norm (v : list D) : D := dsqrt (vsum ((λ a, a * a) <$> v)).

(** [v.segment(start, n)]. *)
Definition segment (v : list D) (start n : Z) : outcome (list D) :=
  if (0 <=? start) && (0 <=? n) && (start + n <=? Z.of_nat (length v))
  then Done (take (Z.to_nat n) (drop (Z.to_nat start) v))
  else Undefined.

(** [m.diagonal() = v] on a square matrix whose size is the length of [v]. *)
Definition set_diagonal (m : matrix D) (v : list D) : outcome (matrix D) :=
  if Z.of_nat (length v) =? Z.of_nat (length m)
  then foldM (λ i m', x ← vget v i; mset m' i i x)
             (range 0 (Z.of_nat (length v))) m
  else Undefined.
End Eigen.

(** ** Circuits (xacc IR) *)

(** Modelled from the spec: the IR classes ([Instruction],
    [CompositeInstruction], the IR provider) and [PauliOperator] belong to
    xacc's core, which is not part of these sources.  A circuit is the
    instruction sequence that was added to it, in order, together with the list
    of its variables (the trainable parameters it exposes); a Hamiltonian is
    the sequence of weighted Pauli terms that were added to it. *)
Inductive InstructionParameter (D : Type) :=
| PDouble (v : D)
| PVar (x : string).
Arguments PDouble {D} v.
Arguments PVar {D} x.

Record Instruction (D : Type) := createInstruction {
  gate : string;
  bits : list Z;
  parameters : list (InstructionParameter D)
}.
Arguments createInstruction {D} gate bits parameters.
Arguments gate {D} i.
Arguments bits {D} i.
Arguments parameters {D} i.

Record CompositeInstruction (D : Type) := mkComposite {
  cname : string;
  getInstructions : list (Instruction D);
  getVariables : list string
}.
Arguments mkComposite {D} cname getInstructions getVariables.
Arguments cname {D} c.
Arguments getInstructions {D} c.
Arguments getVariables {D} c.

Record PauliTerm (D : Type) := PauliOperator {
  operators : list (Z * string);
  coefficient : D
}.
Arguments PauliOperator {D} operators coefficient.
Arguments operators {D} p.
Arguments coefficient {D} p.

Section Circuit.
Context {D : Type}.

Definition createComposite (name : string) : CompositeInstruction D :=
  mkComposite name [] [].
Definition addInstruction (c : CompositeInstruction D) (i : Instruction D)
  : CompositeInstruction D :=
  mkComposite (cname c) (getInstructions c ++ [i]) (getVariables c).
Definition addVariable (c : CompositeInstruction D) (x : string)
  : CompositeInstruction D :=
  mkComposite (cname c) (getInstructions c) (getVariables c ++ [x]).
Definition addVariables (c : CompositeInstruction D) (xs : list string)
  : CompositeInstruction D :=
  mkComposite (cname c) (getInstructions c) (getVariables c ++ xs).
Definition nVariables (c : CompositeInstruction D) : Z :=
  Z.of_nat (length (getVariables c)).
Definition nInstructions (c : CompositeInstruction D) : Z :=
  Z.of_nat (length (getInstructions c)).
End Circuit.

(** [std::to_string] of an [int]. *)
Definition to_string (z : Z) : string := pretty z.

(** Modelled from the spec: [NPARAMSENTANGLER] is declared in mc-vqe.hpp,
    which is not part of these sources; each entangling block contributes
    exactly 4 trainable parameters. *)
Definition NPARAMSENTANGLER : Z := 4.

(** ** The algorithm object *)

(** The execution backend behind [vqeWrapper]: the expectation value of an
    observable on a circuit at given parameters. *)
Record Accelerator (D : Type) := {
  vqe_execute : list (PauliTerm D) → CompositeInstruction D → list D → D
}.
Arguments vqe_execute {D} a.

(** A gradient strategy: from the circuit, the parameters and the incoming
    gradient vector to the gradient it computes (getGradientExecutions, the
    backend run and compute, composed). *)
Record AlgorithmGradientStrategy (D : Type) := {
  gradient : CompositeInstruction D → list D → list D → list D
}.
Arguments gradient {D} a.

(** An optimizer run: it either stops with its best value and parameters, or
    evaluates the objective at [x] with the gradient buffer [dx] and goes on
    from the value and the gradient the objective returns. *)
Inductive OptRun (D : Type) :=
| OptResult (value : D) (x : list D)
| OptEvaluate (x dx : list D) (next : D → list D → OptRun D).
Arguments OptResult {D} value x.
Arguments OptEvaluate {D} x dx next.

Record Optimizer (D : Type) := {
  optimize : Z → OptRun D      (* from the dimension of the objective *)
}.
Arguments optimize {D} o.

Record MC_VQE (D : Type) := {
  optimizer : option (Optimizer D);
  accelerator : option (Accelerator D);
  nChromophores : Z;
  dataPath : string;
  isCyclic : bool;
  logLevel : Z;
  tnqvmLog : bool;
  doInterference : bool;
  nStates : Z;
  CISGateAngles : matrix D;
  CISEigenstates : matrix D;
  observable : list (PauliTerm D);
  gradientStrategy : option (AlgorithmGradientStrategy D)
}.
Arguments optimizer {D} m.
Arguments accelerator {D} m.
Arguments nChromophores {D} m.
Arguments dataPath {D} m.
Arguments isCyclic {D} m.
Arguments logLevel {D} m.
Arguments tnqvmLog {D} m.
Arguments doInterference {D} m.
Arguments nStates {D} m.
Arguments CISGateAngles {D} m.
Arguments CISEigenstates {D} m.
Arguments observable {D} m.
Arguments gradientStrategy {D} m.

(** ** Circuit builders *)

(** The two builders, as functions of the object and of the angles.  Their
    requests to the IR provider are written out in
    [statePreparationCircuit_on] and [entanglerCircuit_on] below, which
    thread the state of the framework and build these same circuits
    ([statePreparationCircuit_on_pure], [entanglerCircuit_on_pure]). *)
Section Builders.
Context {D : Type} `{Scalar D}.

Definition Ry (q : Z) (p : InstructionParameter D) : Instruction D :=
  createInstruction "Ry" [q] [p].
Definition Hadamard (q : Z) : Instruction D := createInstruction "H" [q] [].
Definition CNOT (control target : Z) : Instruction D :=
  createInstruction "CNOT" [control; target] [].

(** [MC_VQE::statePreparationCircuit]. *)
Definition statePreparationCircuit (this : MC_VQE D) (angles : list D)
  : outcome (CompositeInstruction D) :=
  let c := createComposite "mcvqeCircuit" in
  (* Ry "pump" *)
  a0 ← vget angles 0;
  let c := addInstruction c (Ry (to_size_t 0) (PDouble a0)) in
  (* Fy gates *)
  c ← foldM (λ i c,
         let control := to_size_t (i - 1) in
         let target := to_size_t i in
         ai ← vget angles i;
         let c := addInstruction c (Ry target (PDouble (- ai / of_int 2)%dbl)) in
         let c := addInstruction c (Hadamard target) in
         let c := addInstruction c (CNOT control target) in
         let c := addInstruction c (Hadamard target) in
         ai' ← vget angles i;
         Done (addInstruction c (Ry target (PDouble (ai' / of_int 2)%dbl))))
       (range 1 (nChromophores this)) c;
  (* wall of CNOTs *)
  foldM (λ i c,
     foldM (λ j c,
        let control := to_size_t j in
        let target := to_size_t i in
        Done (addInstruction c (CNOT control target)))
      (down_range (nChromophores this - 1) (i + 1)) c)
   (down_range (nChromophores this - 2) 0) c.

Definition paramLetter : string := "x".

(** The lambda [entanglerGate] of [MC_VQE::entanglerCircuit]. *)
Definition entanglerGate (control target : Z) (paramCounter : Z)
    (c : CompositeInstruction D) : CompositeInstruction D :=
  let c := addInstruction c (CNOT control target) in
  let x1 := paramLetter +:+ to_string paramCounter in
  let c := addVariable c x1 in
  let c := addInstruction c (Ry control (PVar x1)) in
  let x2 := paramLetter +:+ to_string (paramCounter + 1) in
  let c := addVariable c x2 in
  let c := addInstruction c (Ry target (PVar x2)) in
  let c := addInstruction c (CNOT control target) in
  let x3 := paramLetter +:+ to_string (paramCounter + 2) in
  let c := addVariable c x3 in
  let c := addInstruction c (Ry control (PVar x3)) in
  let x4 := paramLetter +:+ to_string (paramCounter + 3) in
  let c := addVariable c x4 in
  addInstruction c (Ry target (PVar x4)).

(** [MC_VQE::entanglerCircuit]; the loops thread the circuit and
    [paramCounter]. *)
Definition entanglerCircuit (this : MC_VQE D) : CompositeInstruction D :=
  let c := createComposite "mcvqeCircuit" in
  (* placing the first Ry's in the circuit *)
  let '(c, paramCounter) :=
    foldl (λ '(c, paramCounter) i,
             let x := paramLetter +:+ to_string paramCounter in
             let c := addVariable c x in
             let c := addInstruction c (Ry (to_size_t i) (PVar x)) in
             (c, paramCounter + 1))
          (c, 0) (range 0 (nChromophores this)) in
  (* placing the entanglerGates in the circuit *)
  let '(c, paramCounter) :=
    foldl (λ st layer,
             foldl (λ '(c, paramCounter) i,
                      let control := to_size_t i in
                      let target := to_size_t (i + 1) in
                      (entanglerGate control target paramCounter c,
                       paramCounter + NPARAMSENTANGLER))
                   st (range_step2 layer (nChromophores this - layer)))
          (c, paramCounter) [0; 1] in
  (* the last entangler of a cyclic system *)
  if isCyclic this
  then
    let control := to_size_t (nChromophores this - 1) in
    let target := to_size_t 0 in
    entanglerGate control target paramCounter c
  else c.
End Builders.

(** ** The circuit builders over the IR provider *)

(** Modelled from the spec: xacc's IR provider is not part of these
    sources.  [xacc::getIRProvider("quantum")] hands out a service of the
    framework; what the framework has registered and allocated so far is a
    state [W] that the caller does not see, and every request to the
    provider goes through this state and may change it. *)
Record IRProvider (D W : Type) := {
  provider_createComposite : string → W → CompositeInstruction D * W;
  provider_createInstruction :
    string → list Z → list (InstructionParameter D) → W → Instruction D * W
}.
Arguments provider_createComposite {D W} _ _ _.
Arguments provider_createInstruction {D W} _ _ _ _ _.

(** What a call leaves when the state of the framework is dropped. *)
Definition built {C W : Type} (r : outcome (C * W)) : outcome C :=
  '(c, _) ← r; Done c.

Section ProviderBuilders.
Context {D W : Type} `{Scalar D}.
Context (provider : IRProvider D W).

(** [MC_VQE::statePreparationCircuit], request by request. *)
Definition statePreparationCircuit_on (this : MC_VQE D) (angles : list D)
    (w : W) : outcome (CompositeInstruction D * W) :=
  let '(c, w) := provider_createComposite provider "mcvqeCircuit" w in
  (* Ry "pump" *)
  a0 ← vget angles 0;
  let '(ry, w) :=
    provider_createInstruction provider "Ry" [to_size_t 0] [PDouble a0] w in
  let c := addInstruction c ry in
  (* Fy gates *)
  '(c, w) ← foldM (λ i '(c, w),
         let control := to_size_t (i - 1) in
         let target := to_size_t i in
         ai ← vget angles i;
         let '(ry_minus, w) :=
           provider_createInstruction provider "Ry" [target]
             [PDouble (- ai / of_int 2)%dbl] w in
         let c := addInstruction c ry_minus in
         let '(hadamard1, w) :=
           provider_createInstruction provider "H" [target] [] w in
         let c := addInstruction c hadamard1 in
         let '(cnot, w) :=
           provider_createInstruction provider "CNOT" [control; target] [] w in
         let c := addInstruction c cnot in
         let '(hadamard2, w) :=
           provider_createInstruction provider "H" [target] [] w in
         let c := addInstruction c hadamard2 in
         ai' ← vget angles i;
         let '(ry_plus, w) :=
           provider_createInstruction provider "Ry" [target]
             [PDouble (ai' / of_int 2)%dbl] w in
         Done (addInstruction c ry_plus, w))
       (range 1 (nChromophores this)) (c, w);
  (* wall of CNOTs *)
  foldM (λ i st,
     foldM (λ j '(c, w),
        let control := to_size_t j in
        let target := to_size_t i in
        let '(cnot, w) :=
          provider_createInstruction provider "CNOT" [control; target] [] w in
        Done (addInstruction c cnot, w))
      (down_range (nChromophores this - 1) (i + 1)) st)
   (down_range (nChromophores this - 2) 0) (c, w).

(** The lambda [entanglerGate], request by request. *)
Definition entanglerGate_on (control target : Z) (paramCounter : Z)
    (st : CompositeInstruction D * W) : CompositeInstruction D * W :=
  let '(c, w) := st in
  let '(cnot1, w) :=
    provider_createInstruction provider "CNOT" [control; target] [] w in
  let c := addInstruction c cnot1 in
  let '(ry1, w) :=
    provider_createInstruction provider "Ry" [control]
      [PVar (paramLetter +:+ to_string paramCounter)] w in
  let c := addVariable c (paramLetter +:+ to_string paramCounter) in
  let c := addInstruction c ry1 in
  let '(ry2, w) :=
    provider_createInstruction provider "Ry" [target]
      [PVar (paramLetter +:+ to_string (paramCounter + 1))] w in
  let c := addVariable c (paramLetter +:+ to_string (paramCounter + 1)) in
  let c := addInstruction c ry2 in
  let '(cnot2, w) :=
    provider_createInstruction provider "CNOT" [control; target] [] w in
  let c := addInstruction c cnot2 in
  let '(ry3, w) :=
    provider_createInstruction provider "Ry" [control]
      [PVar (paramLetter +:+ to_string (paramCounter + 2))] w in
  let c := addVariable c (paramLetter +:+ to_string (paramCounter + 2)) in
  let c := addInstruction c ry3 in
  let '(ry4, w) :=
    provider_createInstruction provider "Ry" [target]
      [PVar (paramLetter +:+ to_string (paramCounter + 3))] w in
  let c := addVariable c (paramLetter +:+ to_string (paramCounter + 3)) in
  (addInstruction c ry4, w).

(** [MC_VQE::entanglerCircuit], request by request; the loops thread the
    circuit, [paramCounter] and the state of the framework. *)
Definition entanglerCircuit_on (this : MC_VQE D) (w : W)
  : CompositeInstruction D * W :=
  let '(c, w) := provider_createComposite provider "mcvqeCircuit" w in
  (* placing the first Ry's in the circuit *)
  let '(c, paramCounter, w) :=
    foldl (λ '(c, paramCounter, w) i,
             let x := paramLetter +:+ to_string paramCounter in
             let '(ry, w) :=
               provider_createInstruction provider "Ry" [to_size_t i]
                 [PVar x] w in
             let c := addVariable c x in
             let c := addInstruction c ry in
             (c, paramCounter + 1, w))
          (c, 0, w) (range 0 (nChromophores this)) in
  (* placing the entanglerGates in the circuit *)
  let '(c, paramCounter, w) :=
    foldl (λ st layer,
             foldl (λ '(c, paramCounter, w) i,
                      let control := to_size_t i in
                      let target := to_size_t (i + 1) in
                      let '(c, w) :=
                        entanglerGate_on control target paramCounter (c, w) in
                      (c, paramCounter + NPARAMSENTANGLER, w))
                   st (range_step2 layer (nChromophores this - layer)))
          (c, paramCounter, w) [0; 1] in
  (* the last entangler of a cyclic system *)
  if isCyclic this
  then
    let control := to_size_t (nChromophores this - 1) in
    let target := to_size_t 0 in
    entanglerGate_on control target paramCounter (c, w)
  else (c, w).
End ProviderBuilders.


(** ** The averaged-energy objective and the interference stage *)

(** What the lambda [f] of [MC_VQE::execute] captures by reference and
    mutates across the optimizer's calls.  [depth] and [nGates] are
    uninitialised ([None]) until the first state has been evaluated. *)
Record ObjectiveState (D : Type) := mkObjectiveState {
  oldAverageEnergy : D;
  entangledHamiltonian : matrix D;
  diagonal : list D;
  depth : option Z;
  nGates : option Z
}.
Arguments mkObjectiveState {D} oldAverageEnergy entangledHamiltonian diagonal depth nGates.
Arguments oldAverageEnergy {D} o.
Arguments entangledHamiltonian {D} o.
Arguments diagonal {D} o.
Arguments depth {D} o.
Arguments nGates {D} o.

(** What [execute] leaves in the buffer. *)
Record ExtraInfo (D : Type) := mkExtraInfo {
  opt_average_energy : D;
  circuit_depth : option Z;
  n_gates : option Z;
  opt_params : list D;
  opt_spectrum : option (list D)
}.
Arguments mkExtraInfo {D} opt_average_energy circuit_depth n_gates opt_params opt_spectrum.
Arguments opt_average_energy {D} e.
Arguments circuit_depth {D} e.
Arguments n_gates {D} e.
Arguments opt_params {D} e.
Arguments opt_spectrum {D} e.

Section Execute.
Context {D : Type} `{Scalar D}.
(** [CompositeInstruction::depth] and Eigen's [SelfAdjointEigenSolver]
    (eigenvalues, eigenvectors) are library code. *)
Context (depth_of : CompositeInstruction D → Z).
Context (SelfAdjointEigenSolver : matrix D → list D * matrix D).

(** [MC_VQE::vqeWrapper]. *)
Definition vqeWrapper (this : MC_VQE D) (obs : list (PauliTerm D))
    (kernel : CompositeInstruction D) (x : list D) : outcome D :=
  match accelerator this with
  | Some acc => Done (vqe_execute acc obs kernel x)
  | None => Undefined
  end.

(** [kernel->addVariables(entangler->getVariables())] followed by the loop
    adding the entangler's instructions. *)
Definition appendEntangler (kernel entangler : CompositeInstruction D)
  : CompositeInstruction D :=
  foldl addInstruction (addVariables kernel (getVariables entangler))
        (getInstructions entangler).

(** The body of the loop over states in the objective. *)
Definition objective_state_step (this : MC_VQE D)
    (entangler : CompositeInstruction D) (x dx : list D) (state : Z)
    (acc : D * list D * ObjectiveState D)
  : outcome (D * list D * ObjectiveState D) :=
  let '(averageEnergy, averageGrad, st) := acc in
  (* retrieve CIS state preparation instructions and add entangler *)
  angles ← mcol (CISGateAngles this) state;
  kernel ← statePreparationCircuit this angles;
  let kernel := appendEntangler kernel entangler in
  let depth' := Some (depth_of kernel) in
  let nGates' := Some (nInstructions kernel) in
  energy ← vqeWrapper this (observable this) kernel x;
  averageGrad ←
    match gradientStrategy this with
    | Some strategy =>
        let tmpGrad := gradient strategy kernel x dx in
        foldM (λ i averageGrad,
                 t ← vget tmpGrad i;
                 a ← vget averageGrad i;
                 vset averageGrad i (a + t / of_int (nStates this))%dbl)
              (range 0 (Z.of_nat (length dx))) averageGrad
    | None => Done averageGrad
    end;
  (* state energy goes to the diagonal of entangledHamiltonian *)
  diagonal' ← vset (diagonal st) state energy;
  Done ((averageEnergy + energy)%dbl, averageGrad,
        mkObjectiveState (oldAverageEnergy st) (entangledHamiltonian st)
                         diagonal' depth' nGates').

(** The objective function [f] handed to the optimizer: from the captured
    state, [x] and the gradient buffer [dx] to the value it returns, the
    gradient buffer as it leaves it and the captured state after the call. *)
Definition objective (this : MC_VQE D) (entangler : CompositeInstruction D)
    (st : ObjectiveState D) (x dx : list D)
  : outcome (D * list D * ObjectiveState D) :=
  let averageGrad := vzero (Z.of_nat (length x)) in
  '(averageEnergy, averageGrad, st) ←
    foldM (objective_state_step this entangler x dx)
          (range 0 (nStates this)) (d0, averageGrad, st);
  (* Average energy at the end of current iteration *)
  let averageEnergy := (averageEnergy / of_int (nStates this))%dbl in
  (* Update dx with the proper average gradient *)
  let dx := match averageGrad with [] => dx | _ => averageGrad end in
  (* only store the MC energies if they lower the average energy *)
  st ← (if (averageEnergy <? oldAverageEnergy st)%dbl
        then
          m ← set_diagonal (entangledHamiltonian st) (diagonal st);
          Done (mkObjectiveState averageEnergy m (diagonal st)
                                 (depth st) (nGates st))
        else Done st);
  Done (averageEnergy, dx, st).

(** The optimizer calling the objective. *)
Fixpoint run_optimizer (this : MC_VQE D) (entangler : CompositeInstruction D)
    (r : OptRun D) (st : ObjectiveState D)
  : outcome (D * list D * ObjectiveState D) :=
  match r with
  | OptResult value x => Done (value, x, st)
  | OptEvaluate x dx next =>
      '(e, dx', st') ← objective this entangler st x dx;
      run_optimizer this entangler (next e dx') st'
  end.

(** One pair of the interference loop. *)
Definition interference_pair (this : MC_VQE D)
    (entangler : CompositeInstruction D) (x : list D) (stateA stateB : Z)
    (m : matrix D) : outcome (matrix D) :=
  (* |+> = (|A> + |B>)/sqrt(2) *)
  colA ← mcol (CISGateAngles this) stateA;
  colB ← mcol (CISGateAngles this) stateB;
  plusInterferenceCircuit ←
    statePreparationCircuit this (vdivs (vadd colA colB) (dsqrt (of_int 2)));
  let plusInterferenceCircuit := appendEntangler plusInterferenceCircuit entangler in
  plusTerm ← vqeWrapper this (observable this) plusInterferenceCircuit x;
  (* |-> = (|A> - |B>)/sqrt(2) *)
  colA ← mcol (CISGateAngles this) stateA;
  colB ← mcol (CISGateAngles this) stateB;
  minusInterferenceCircuit ←
    statePreparationCircuit this (vdivs (vsub colA colB) (dsqrt (of_int 2)));
  let minusInterferenceCircuit := appendEntangler minusInterferenceCircuit entangler in
  minusTerm ← vqeWrapper this (observable this) minusInterferenceCircuit x;
  (* add the new matrix elements to entangledHamiltonian *)
  m ← mset m stateA stateB ((plusTerm - minusTerm) / dsqrt (of_int 2))%dbl;
  v ← mget m stateA stateB;
  mset m stateB stateA v.

(** The two nested loops of the interference stage. *)
Definition interference (this : MC_VQE D) (entangler : CompositeInstruction D)
    (x : list D) (m : matrix D) : outcome (matrix D) :=
  foldM (λ stateA m,
           foldM (interference_pair this entangler x stateA)
                 (range (stateA + 1) (nStates this)) m)
        (range 0 (nStates this - 1)) m.

(** What the objective captures when [execute] hands it to the optimizer:
    the entangled Hamiltonian is zero, the best average is [0.0], [diagonal]
    is freshly allocated ([junk] stands for its indeterminate contents),
    [depth] and [nGates] are uninitialised. *)
Definition first_call_state (this : MC_VQE D) (junk : D) : ObjectiveState D :=
  mkObjectiveState (of_int 0) (mzero (nStates this) (nStates this))
                   (replicate (Z.to_nat (nStates this)) junk) None None.

(** [MC_VQE::execute(buffer)]. *)
Definition execute (this : MC_VQE D) (junk : D)
  : outcome (ExtraInfo D * matrix D) :=
  (if (nStates this <? 0) then Undefined else Done ());;
  (* all CIS states share the same parameterized entangler gates *)
  let entangler := entanglerCircuit this in
  let nOptParams := nVariables entangler in
  let st := first_call_state this junk in
  opt ← match optimizer this with Some o => Done o | None => Undefined end;
  '(value, params, st) ← run_optimizer this entangler (optimize opt nOptParams) st;
  if doInterference this
  then
    m ← interference this entangler params (entangledHamiltonian st);
    let MC_VQE_Energies := (SelfAdjointEigenSolver m).1 in
    Done (mkExtraInfo value (depth st) (nGates st) params (Some MC_VQE_Energies), m)
  else
    Done (mkExtraInfo value (depth st) (nGates st) params None,
          entangledHamiltonian st).

(** [MC_VQE::execute(buffer, x)], the overload that evaluates at fixed
    parameters: every state energy goes to the diagonal directly. *)
Definition execute_at (this : MC_VQE D) (x : list D)
  : outcome (D * matrix D * option (list D)) :=
  (if (nStates this <? 0) then Undefined else Done ());;
  let entangledHamiltonian0 := mzero (nStates this) (nStates this) in
  let entangler := entanglerCircuit this in
  '(averageEnergy, m) ←
    foldM (λ state '(averageEnergy, m),
             angles ← mcol (CISGateAngles this) state;
             kernel ← statePreparationCircuit this angles;
             let kernel := appendEntangler kernel entangler in
             energy ← vqeWrapper this (observable this) kernel x;
             m ← mset m state state energy;
             Done ((averageEnergy + energy / of_int (nStates this))%dbl, m))
          (range 0 (nStates this)) (of_int 0, entangledHamiltonian0);
  if doInterference this
  then
    m ← interference this entangler x m;
    Done (averageEnergy, m, Some (SelfAdjointEigenSolver m).1)
  else Done (averageEnergy, m, None).
End Execute.

(** ** Reading the data file *)

(** The part of an input file stream the loader observes: the lines that
    remain to be read (each ended by a newline in the file) and the state
    bits of [std::ios]. *)
Record ifstream := mkStream {
  pending : list string;
  failbit : bool;
  badbit : bool;
  eofbit : bool
}.

(** The files that can be opened, by path, as their lines. *)
Definition FileSystem : Type := string → option (list string).

(** [std::ifstream file(path)]: a file that cannot be opened sets [failbit],
    and only [failbit]. *)
Definition ifstream_open (fs : FileSystem) (path : string) : ifstream :=
  match fs path with
  | Some lines => mkStream lines false false false
  | None => mkStream [] true false false
  end.

Definition good (f : ifstream) : bool :=
  negb (failbit f || badbit f || eofbit f).
Definition bad (f : ifstream) : bool := badbit f.

(** [std::getline(file, line)]: on a stream that is not good the sentry
    fails, [failbit] is set and [line] is left as it was; at the end of the
    file [line] is erased and [eofbit] and [failbit] are set. *)
Definition getline (f : ifstream) (line : string) : ifstream * string :=
  if good f
  then match pending f with
       | l :: rest => (mkStream rest (failbit f) (badbit f) (eofbit f), l)
       | [] => (mkStream [] true (badbit f) true, "")
       end
  else (mkStream (pending f) true (badbit f) (eofbit f), line).

(** [std::string::npos], and [s.find(":")]. *)
Definition npos : Z := 2 ^ 64 - 1.

Fixpoint find_colon_from (s : string) (i : Z) : Z :=
  match s with
  | EmptyString => npos
  | String c s' => if Ascii.eqb c ":"%char then i else find_colon_from s' (i + 1)
  end.
Definition find_colon (s : string) : Z := find_colon_from s 0.

Fixpoint drop_string (n : nat) (s : string) : string :=
  match n, s with
  | O, _ => s
  | S n', String _ s' => drop_string n' s'
  | S _, EmptyString => EmptyString
  end.

(** [s.substr(pos)]. *)
Definition substr (s : string) (pos : Z) : outcome string :=
  if pos <=? Z.of_nat (String.length s)
  then Done (drop_string (Z.to_nat pos) s)
  else Thrown out_of_range.

(** [line.substr(line.find(":") + 1)], the sum taken in [std::size_t]. *)
Definition after_colon (line : string) : outcome string :=
  substr line (to_size_t (find_colon line + 1)).

(** The tokens that the loop [while (std::getline(stream, comp, ','))] reads
    from a string stream: [cur] is the token being read, [extracted] tells
    whether a character was extracted for it. *)
Fixpoint comma_tokens (s : string) (cur : string) (extracted : bool)
  : list string :=
  match s with
  | EmptyString => if extracted then [cur] else []
  | String c s' =>
      if Ascii.eqb c ","%char
      then cur :: comma_tokens s' "" false
      else comma_tokens s' (cur +:+ String c EmptyString) true
  end.

Record SiteData (D : Type) := mkSiteData {
  energiesGS : list D;
  energiesES : list D;
  dipoleGS : matrix D;
  dipoleES : matrix D;
  dipoleT : matrix D;
  com : matrix D
}.
Arguments mkSiteData {D} energiesGS energiesES dipoleGS dipoleES dipoleT com.
Arguments energiesGS {D} s.
Arguments energiesES {D} s.
Arguments dipoleGS {D} s.
Arguments dipoleES {D} s.
Arguments dipoleT {D} s.
Arguments com {D} s.

Section Loader.
Context {D : Type} `{Scalar D}.
(** The conversion of a non-empty string by [std::strtod]: [None] when no
    conversion can be performed, else the value it returns and whether it
    has set [errno] to [ERANGE] (the value is out of the range of a
    [double]). *)
Context (strtod : string → option (D * bool)).

(** [std::stod]: [std::invalid_argument] when no conversion can be
    performed, which is the case of the empty string, and
    [std::out_of_range] when the conversion ends with [errno == ERANGE]. *)
Definition stod (s : string) : outcome D :=
  match s with
  | EmptyString => Thrown invalid_argument
  | _ => match strtod s with
         | Some (v, false) => Done v
         | Some (_, true) => Thrown out_of_range
         | None => Thrown invalid_argument
         end
  end.

(** The loop [xyz = 0; while (getline(stream, comp, ',')) { m(A, xyz) =
    stod(comp); xyz++; }]. *)
Definition read_components (m : matrix D) (A : Z) (tmp : string)
  : outcome (matrix D) :=
  '(_, m) ← foldM (λ comp '(xyz, m),
                     v ← stod comp;
                     m ← mset m A xyz v;
                     Done (xyz + 1, m))
                  (comma_tokens tmp "" false) (0, m);
  Done m.

(** The body of the loop [for (int A = 0; A < nChromophores; A++)] that
    scans the file. *)
Definition read_site (A : Z) (st : ifstream * string * SiteData D)
  : outcome (ifstream * string * SiteData D) :=
  let '(file, line, d) := st in
  (* this is just the number label of the chromophore *)
  let '(file, line) := getline file line in
  let '(file, line) := getline file line in
  s ← after_colon line; v ← stod s;
  gs ← vset (energiesGS d) A v;
  let '(file, line) := getline file line in
  s ← after_colon line; v ← stod s;
  es ← vset (energiesES d) A v;
  let '(file, line) := getline file line in
  tmp ← after_colon line;
  com' ← read_components (com d) A tmp;
  let '(file, line) := getline file line in
  tmp ← after_colon line;
  dipoleGS' ← read_components (dipoleGS d) A tmp;
  let '(file, line) := getline file line in
  tmp ← after_colon line;
  dipoleES' ← read_components (dipoleES d) A tmp;
  let '(file, line) := getline file line in
  tmp ← after_colon line;
  dipoleT' ← read_components (dipoleT d) A tmp;
  let '(file, line) := getline file line in
  Done (file, line, mkSiteData gs es dipoleGS' dipoleES' dipoleT' com').

(** The first part of [MC_VQE::preProcessing]: allocate, open, check and
    scan the file. *)
Definition read_data (fs : FileSystem) (this : MC_VQE D)
  : outcome (SiteData D) :=
  let n := nChromophores this in
  (if n <? 0 then Undefined else Done ());;
  let d := mkSiteData (vzero n) (vzero n) (mzero n 3) (mzero n 3)
                      (mzero n 3) (mzero n 3) in
  let file := ifstream_open fs (dataPath this) in
  if bad file
  then Fatal "Cannot access data file."
  else
    '(_, _, d) ← foldM read_site (range 0 n) (file, "", d);
    Done d.
End Loader.

(** ** The AIEM Hamiltonian and the CIS matrix *)

(** The quantities the loops of [preProcessing] accumulate. *)
Record AIEM (D : Type) := mkAIEM {
  E : D;
  X_A : list D;
  Z_A : list D;
  XX_AB : matrix D;
  XZ_AB : matrix D;
  ZX_AB : matrix D;
  ZZ_AB : matrix D;
  hamiltonian : list (PauliTerm D)
}.
Arguments mkAIEM {D} E X_A Z_A XX_AB XZ_AB ZX_AB ZZ_AB hamiltonian.
Arguments E {D} a.
Arguments X_A {D} a.
Arguments Z_A {D} a.
Arguments XX_AB {D} a.
Arguments XZ_AB {D} a.
Arguments ZX_AB {D} a.
Arguments ZZ_AB {D} a.
Arguments hamiltonian {D} a.

(** [std::vector<std::vector<int>> pairs]: the indices of the chromophores
    coupled to each chromophore. *)
Definition pairs (nChromophores : Z) (isCyclic : bool) : list (list Z) :=
  (λ A, if (A =? 0) && isCyclic then [A + 1; nChromophores - 1]
        else if A =? nChromophores - 1 then [A - 1; 0]
        else [A - 1; A + 1])
  <$> range 0 nChromophores.

Section Hamiltonian.
Context {D : Type} `{Scalar D}.
(** [std::pow]. *)
Context (pow : D → D → D).

(** The lambda [twoBodyH] (Ref.2 Eq. 67). *)
Definition twoBodyH (mu_A mu_B r_AB : list D) : D :=
  let d_AB := norm r_AB in         (* Distance between A and B *)
  let n_AB := vdivs r_AB d_AB in   (* Normal vector along r_AB *)
  ((dot mu_A mu_B - of_int 3 * dot mu_A n_AB * dot mu_B n_AB)
   / pow d_AB (of_int 3))%dbl.

(** [v(A) += x]. *)
Definition vinc (v : list D) (A : Z) (x : D) : outcome (list D) :=
  a ← vget v A; vset v A (a + x)%dbl.

(** The body of [for (int B : pairs[A])] in the loop that computes the AIEM
    Hamiltonian. *)
Definition aiem_pair (dipoleSum dipoleDiff dipoleT com : matrix D)
    (A B : Z) (s : AIEM D) : outcome (AIEM D) :=
  sumA ← mrow dipoleSum A;
  sumB ← mrow dipoleSum B;
  comA ← mrow com A;
  comB ← mrow com B;
  let E' := (E s + half * twoBodyH sumA sumB (vsub comA comB))%dbl in
  tA ← mrow dipoleT A;
  X ← vinc (X_A s) A (half * twoBodyH tA sumB (vsub comA comB))%dbl;
  X ← vinc X A (half * twoBodyH sumB tA (vsub comB comA))%dbl;
  diffB ← mrow dipoleDiff B;
  Z ← vinc (Z_A s) A (half * twoBodyH sumA diffB (vsub comA comB))%dbl;
  Z ← vinc Z A (half * twoBodyH diffB sumA (vsub comB comA))%dbl;
  tB ← mrow dipoleT B;
  diffA ← mrow dipoleDiff A;
  XX ← mset (XX_AB s) A B (twoBodyH tA tB (vsub comA comB));
  XZ ← mset (XZ_AB s) A B (twoBodyH tA diffB (vsub comA comB));
  ZX ← mset (ZX_AB s) A B (twoBodyH diffA tB (vsub comA comB));
  ZZ ← mset (ZZ_AB s) A B (twoBodyH diffA diffB (vsub comA comB));
  xx ← mget XX A B;
  xz ← mget XZ A B;
  zx ← mget ZX A B;
  zz ← mget ZZ A B;
  Done (mkAIEM E' X Z XX XZ ZX ZZ
          (hamiltonian s ++
             [PauliOperator [(A, "X"); (B, "X")] xx;
              PauliOperator [(A, "X"); (B, "Z")] xz;
              PauliOperator [(A, "Z"); (B, "X")] zx;
              PauliOperator [(A, "Z"); (B, "Z")] zz])).

(** The body of the outer loop over [A]. *)
Definition aiem_site (dipoleSum dipoleDiff dipoleT com : matrix D)
    (nbrs : list (list Z)) (A : Z) (s : AIEM D) : outcome (AIEM D) :=
  pairsA ← vget nbrs A;
  s ← foldM (aiem_pair dipoleSum dipoleDiff dipoleT com A) pairsA s;
  z ← vget (Z_A s) A;
  x ← vget (X_A s) A;
  Done (mkAIEM (E s) (X_A s) (Z_A s) (XX_AB s) (XZ_AB s) (ZX_AB s) (ZZ_AB s)
          (hamiltonian s ++
             [PauliOperator [(A, "Z")] z; PauliOperator [(A, "X")] x])).

(** From the scaled site data to the accumulated quantities, the constant
    term included. *)
Definition aiem (n : Z) (cyclic : bool) (d : SiteData D) : outcome (AIEM D) :=
  let nbrs := pairs n cyclic in
  (* Ref2 Eq. 20 and 21 *)
  let D_A := vdivs (vsub (energiesGS d) (energiesES d)) (of_int 2) in
  let dipoleSum := mdivs (madd (dipoleGS d) (dipoleES d)) (of_int 2) in
  let dipoleDiff := mdivs (msub (dipoleGS d) (dipoleES d)) (of_int 2) in
  let s0 := mkAIEM (of_int 0) (vzero n) D_A (mzero n n) (mzero n n)
                   (mzero n n) (mzero n n) [] in
  s ← foldM (aiem_site dipoleSum dipoleDiff (dipoleT d) (com d) nbrs)
            (range 0 n) s0;
  Done (mkAIEM (E s) (X_A s) (Z_A s) (XX_AB s) (XZ_AB s) (ZX_AB s) (ZZ_AB s)
          (hamiltonian s ++ [PauliOperator [] (E s)])).

(** [CISMatrix(i, j) += x] and [CISMatrix(i, j) -= x]. *)
Definition minc (m : matrix D) (i j : Z) (x : D) : outcome (matrix D) :=
  a ← mget m i j; mset m i j (a + x)%dbl.
Definition mdec (m : matrix D) (i j : Z) (x : D) : outcome (matrix D) :=
  a ← mget m i j; mset m i j (a - x)%dbl.

(** The CIS matrix in the nChromophore two-state basis, before it is
    diagonalized. *)
Definition CISMatrix (n nStates : Z) (cyclic : bool) (s : AIEM D)
  : outcome (matrix D) :=
  let nbrs := pairs n cyclic in
  (if nStates <? 0 then Undefined else Done ());;
  let m := mzero nStates nStates in
  (* E_ref *)
  let E_ref := (E s + vsum (Z_A s) + half * msum (ZZ_AB s))%dbl in
  m ← mset m 0 0 E_ref;
  (* diagonal singles-singles *)
  m ← foldM (λ A m,
         z ← vget (Z_A s) A;
         m ← mset m (A + 1) (A + 1) (E_ref - of_int 2 * z)%dbl;
         pairsA ← vget nbrs A;
         foldM (λ B m,
                  zzAB ← mget (ZZ_AB s) A B;
                  zzBA ← mget (ZZ_AB s) B A;
                  mdec m (A + 1) (A + 1) (zzAB + zzBA)%dbl)
               pairsA m)
       (range 0 n) m;
  (* reference-singles off diagonal *)
  m ← foldM (λ A m,
         x ← vget (X_A s) A;
         m ← mset m (A + 1) 0 x;
         pairsA ← vget nbrs A;
         m ← foldM (λ B m,
                      xzAB ← mget (XZ_AB s) A B;
                      zxBA ← mget (ZX_AB s) B A;
                      minc m (A + 1) 0 (half * (xzAB + zxBA))%dbl)
                   pairsA m;
         v ← mget m (A + 1) 0;
         mset m 0 (A + 1) v)
       (range 0 n) m;
  (* singles-singles off-diagonal *)
  foldM (λ A m,
           pairsA ← vget nbrs A;
           foldM (λ B m,
                    xx ← mget (XX_AB s) A B;
                    mset m (A + 1) (B + 1) xx)
                 pairsA m)
        (range 0 n) m.
End Hamiltonian.

(** ** The angle encoder *)

Section Angles.
Context {D : Type} `{Scalar D}.
(** [std::acos]. *)
Context (acos : D → D).

(** [m.rows()], and so [Eigen::last] for a row index. *)
Definition mrows (m : matrix D) : Z :=
  match m with
  | [] => 0
  | c :: _ => Z.of_nat (length c)
  end.

(** [MC_VQE::statePreparationAngles] (Ref3 Eqs. 60-61). *)
Definition statePreparationAngles (this : MC_VQE D)
    (CoefficientMatrix : matrix D) : outcome (matrix D) :=
  let n := nChromophores this in
  (if (n <? 0) || (nStates this <? 0) then Undefined else Done ());;
  let gateAngles := mzero n (nStates this) in
  foldM (λ state gateAngles,
     gateAngles ←
       foldM (λ angle gateAngles,
                col ← mcol CoefficientMatrix state;
                seg ← segment col angle (n - angle + 1);
                let partialCoeffNorm := norm seg in
                c ← mget CoefficientMatrix angle state;
                mset gateAngles angle state (acos (c / partialCoeffNorm)%dbl))
             (range 0 n) gateAngles;
     last ← mget CoefficientMatrix (mrows CoefficientMatrix - 1) state;
     if (last <? of_int 0)%dbl
     then
       g ← mget gateAngles (n - 1) state;
       mset gateAngles (n - 1) state (g * of_int (-1))%dbl
     else Done gateAngles)
   (range 0 (nStates this)) gateAngles.
End Angles.

(** ** Preprocessing and initialization *)

(** The options of [initialize], by key, each present or not. *)
Record HeterogeneousMap (D : Type) := mkParameters {
  p_accelerator : option (Accelerator D);
  p_optimizer : option (Optimizer D);
  p_nChromophores : option Z;
  p_data_path : option string;
  p_cyclic : option bool;
  p_log_level : option Z;
  p_tnqvm_log : option bool;
  p_interference : option bool;
  p_n_states : option Z;
  p_gradient_strategy : option string
}.
Arguments mkParameters {D}.
Arguments p_accelerator {D} h.
Arguments p_optimizer {D} h.
Arguments p_nChromophores {D} h.
Arguments p_data_path {D} h.
Arguments p_cyclic {D} h.
Arguments p_log_level {D} h.
Arguments p_tnqvm_log {D} h.
Arguments p_interference {D} h.
Arguments p_n_states {D} h.
Arguments p_gradient_strategy {D} h.

(** What [initialize] returns: [false] after printing a message, or [true]
    with the object it has set up. *)
Inductive InitResult (D : Type) :=
| InitFalse (printed : string)
| InitTrue (this : MC_VQE D).
Arguments InitFalse {D} printed.
Arguments InitTrue {D} this.

Section Initialize.
Context {D : Type} `{Scalar D}.
(** Library code: [std::pow], [std::acos], [std::strtod], Eigen's
    self-adjoint eigensolver; the unit conversions of mc-vqe.hpp; xacc's
    service registry. *)
Context (pow : D → D → D) (acos : D → D) (strtod : string → option (D * bool)).
Context (SelfAdjointEigenSolver : matrix D → list D * matrix D).
Context (ANGSTROM2BOHR DEBYE2AU : D).
Context (getService : string → option (AlgorithmGradientStrategy D)).

(** The unit conversions applied after the file is closed. *)
Definition scale_units (d : SiteData D) : SiteData D :=
  mkSiteData (energiesGS d) (energiesES d)
             (mmuls (dipoleGS d) DEBYE2AU) (mmuls (dipoleES d) DEBYE2AU)
             (dipoleT d) (mmuls (com d) ANGSTROM2BOHR).

Definition set_preprocessed (this : MC_VQE D) (obs : list (PauliTerm D))
    (eigenstates angles : matrix D) : MC_VQE D :=
  {| optimizer := optimizer this; accelerator := accelerator this;
     nChromophores := nChromophores this; dataPath := dataPath this;
     isCyclic := isCyclic this; logLevel := logLevel this;
     tnqvmLog := tnqvmLog this; doInterference := doInterference this;
     nStates := nStates this; CISGateAngles := angles;
     CISEigenstates := eigenstates; observable := obs;
     gradientStrategy := gradientStrategy this |}.

(** [MC_VQE::preProcessing]. *)
Definition preProcessing (fs : FileSystem) (this : MC_VQE D)
  : outcome (MC_VQE D) :=
  d ← read_data strtod fs this;
  let d := scale_units d in
  s ← aiem pow (nChromophores this) (isCyclic this) d;
  cis ← CISMatrix (nChromophores this) (nStates this) (isCyclic this) s;
  (* Diagonalizing the CISMatrix *)
  let CISEigenstates' := (SelfAdjointEigenSolver cis).2 in
  angles ← statePreparationAngles acos this CISEigenstates';
  Done (set_preprocessed this (hamiltonian s) CISEigenstates' angles).

(** [MC_VQE::initialize]. *)
Definition initialize (fs : FileSystem) (this : MC_VQE D)
    (parameters : HeterogeneousMap D) : outcome (InitResult D) :=
  match p_accelerator parameters with
  | None => Done (InitFalse "Acc was false")
  | Some acc =>
  match p_optimizer parameters with
  | None => Done (InitFalse "Opt was false")
  | Some opt =>
  match p_nChromophores parameters with
  | None => Done (InitFalse "Missing number of chromophores")
  | Some n =>
  match p_data_path parameters with
  | None => Done (InitFalse "Missing data file")
  | Some path =>
      (if n + 1 <? 0 then Undefined else Done ());;
      let this :=
        {| optimizer := Some opt; accelerator := Some acc;
           nChromophores := n; dataPath := path;
           isCyclic := default false (p_cyclic parameters);
           logLevel := default (logLevel this) (p_log_level parameters);
           tnqvmLog := default (tnqvmLog this) (p_tnqvm_log parameters);
           doInterference :=
             default (doInterference this) (p_interference parameters);
           nStates := n + 1;
           (* resize: the coefficients are indeterminate until
              preProcessing assigns the matrix *)
           CISGateAngles := mzero n (n + 1);
           CISEigenstates := CISEigenstates this;
           observable := observable this;
           gradientStrategy := gradientStrategy this |} in
      (* Manipulate quantum chemistry data to compute AIEM Hamiltonian
         and angles for CIS state preparation *)
      this ← preProcessing fs this;
      (* Number of states to compute (< nChromophores + 1) *)
      let nStates' := default (nStates this) (p_n_states parameters) in
      (* Instantiate gradient class if a valid one is provided *)
      strategy ←
        match p_gradient_strategy parameters with
        | Some name =>
            match getService name with
            | Some g => Done (Some g)
            | None => Undefined
            end
        | None => Done (gradientStrategy this)
        end;
      Done (InitTrue
        {| optimizer := optimizer this; accelerator := accelerator this;
           nChromophores := nChromophores this; dataPath := dataPath this;
           isCyclic := isCyclic this; logLevel := logLevel this;
           tnqvmLog := tnqvmLog this; doInterference := doInterference this;
           nStates := nStates';
           CISGateAngles := CISGateAngles this;
           CISEigenstates := CISEigenstates this;
           observable := observable this;
           gradientStrategy := strategy |})
  end end end end.
End Initialize.

(** * Vocabulary of the statements *)

(** [mdims m r c]: [m] has [r] rows and [c] columns. *)
Definition mdims {A : Type} (m : list (list A)) (r c : Z) : Prop :=
  Z.of_nat (length m) = c ∧ Forall (λ col, Z.of_nat (length col) = r) m.

(** An object is ready for [execute] when it has a backend and its angle
    matrix holds, for each of the [nStates] states, a column with an angle for
    every chromophore (and for the pump). *)
Definition ready {D : Type} (this : MC_VQE D) : Prop :=
  is_Some (accelerator this) ∧
  0 ≤ nStates this ≤ Z.of_nat (length (CISGateAngles this)) ∧
  Forall (λ col, 1 ≤ Z.of_nat (length col) ∧
                 nChromophores this ≤ Z.of_nat (length col))
         (CISGateAngles this).

(** The entry of the entangled Hamiltonian for the pair [(a, b)], by the
    steps of the code: the circuits of [(angles_a + angles_b)/sqrt 2] and
    [(angles_a - angles_b)/sqrt 2], the entangler appended as [execute]
    appends it, the two expectation values through [vqeWrapper] at the
    optimized parameters; the entry is [(plus - minus)/sqrt 2].
    [interference_entry_words] spells it out. *)
Definition spec_interference_entry {D : Type} `{Scalar D} (this : MC_VQE D)
    (entangler : CompositeInstruction D) (x : list D) (a b : Z) : outcome D :=
  angles_a ← mcol (CISGateAngles this) a;
  angles_b ← mcol (CISGateAngles this) b;
  plusCircuit ←
    statePreparationCircuit this
      (vdivs (vadd angles_a angles_b) (dsqrt (of_int 2)));
  minusCircuit ←
    statePreparationCircuit this
      (vdivs (vsub angles_a angles_b) (dsqrt (of_int 2)));
  plusTerm ←
    vqeWrapper this (observable this) (appendEntangler plusCircuit entangler) x;
  minusTerm ←
    vqeWrapper this (observable this) (appendEntangler minusCircuit entangler) x;
  Done ((plusTerm - minusTerm) / dsqrt (of_int 2))%dbl.

(** The interference stage in the words of the specification.  The angles
    of the two superpositions of the reference states [a] and [b]:
    component by component, [(a + b)/sqrt 2] and [(a - b)/sqrt 2]. *)
Definition spec_plus_angles {D : Type} `{Scalar D} (angles_a angles_b : list D)
  : list D :=
  zip_with (λ p q, ((p + q) / dsqrt (of_int 2))%dbl) angles_a angles_b.
Definition spec_minus_angles {D : Type} `{Scalar D} (angles_a angles_b : list D)
  : list D :=
  zip_with (λ p q, ((p - q) / dsqrt (of_int 2))%dbl) angles_a angles_b.

(** A circuit with the entangler appended: its instructions followed by
    those of the entangler, and the variables of the entangler after its
    own. *)
Definition spec_appended {D : Type} (circuit entangler : CompositeInstruction D)
  : CompositeInstruction D :=
  mkComposite (cname circuit)
    (getInstructions circuit ++ getInstructions entangler)
    (getVariables circuit ++ getVariables entangler).

(** The pairs [(a, b)], [a < b], that the interference loops have handled
    when they reach [(stateA, stateB)]. *)
Definition pair_handled (n stateA stateB a b : Z) : Prop :=
  0 ≤ a ∧ a < b ∧ b < n ∧ (a < stateA ∨ (a = stateA ∧ b < stateB)).

(** The Euclidean norm, in the words of the specification: the square root
    of the sum of the squares of the components, added in the order of the
    components. *)
Definition sum_of_squares {D : Type} `{Scalar D} (v : list D) : D :=
  match v with
  | [] => of_int 0
  | a :: v' => foldl (λ s b, s + b * b)%dbl (a * a)%dbl v'
  end.
Definition euclidean_norm {D : Type} `{Scalar D} (v : list D) : D :=
  dsqrt (sum_of_squares v).

(** The dipole-dipole coupling in the words of the amended statement of C7.
    The scalar product of two vectors adds the products of their components
    in order.  With [d] the distance, the Euclidean norm of [r], and
    [r / d] the direction, the coupling of [mu_A] and [mu_B] is the quotient
    of [mu_A . mu_B - 3 (mu_A . r/d) (mu_B . r/d)] by [pow d 3], whatever
    [d] is. *)
Definition scalar_product {D : Type} `{Scalar D} (u v : list D) : D :=
  match u, v with
  | a :: u', b :: v' =>
      foldl (λ s pq, s + pq.1 * pq.2)%dbl (a * b)%dbl (zip u' v')
  | _, _ => of_int 0
  end.
Definition spec_coupling {D : Type} `{Scalar D} (pow : D → D → D)
    (mu_A mu_B r : list D) : D :=
  let d := euclidean_norm r in
  let direction := (λ c, c / d)%dbl <$> r in
  ((scalar_product mu_A mu_B
    - of_int 3 * scalar_product mu_A direction * scalar_product mu_B direction)
   / pow d (of_int 3))%dbl.

(** The angle of index [k] for an eigenvector [column], in the words of the
    specification: the arccosine of the coefficient of index [k] divided by
    the Euclidean norm of the sub-vector from index [k] to the end; the last
    angle, of index [n - 1], is negated when the final coefficient is
    negative. *)
Definition spec_angle {D : Type} `{Scalar D} (acos : D → D) (n : Z)
    (column : list D) (k : Z) : option D :=
  coefficient ← column !! Z.to_nat k;
  final ← last column;
  let angle :=
    acos (coefficient / euclidean_norm (drop (Z.to_nat k) column))%dbl in
  Some (if (k =? n - 1) && (final <? of_int 0)%dbl then (- angle)%dbl
        else angle).

(** A provider answers its requests: the composite it creates has the name
    asked for and is empty, the instruction it creates has the gate, the
    qubits and the parameters asked for.  What else it does with the state
    of the framework is left open. *)
Definition provider_answers {D W : Type} (provider : IRProvider D W) : Prop :=
  (∀ name w,
     (provider_createComposite provider name w).1 = createComposite name) ∧
  (∀ gate bits parameters w,
     (provider_createInstruction provider gate bits parameters w).1
       = createInstruction gate bits parameters).

(** [no_report o]: the code completes or runs out of the bounds; it neither
    reports a fatal error nor throws. *)
Definition no_report {A : Type} (o : outcome A) : Prop :=
  match o with
  | Done _ | Undefined => True
  | Fatal _ | Thrown _ => False
  end.

(** [not_fatal o]: the code does not end in [xacc::error]. *)
Definition not_fatal {A : Type} (o : outcome A) : Prop :=
  match o with
  | Fatal _ => False
  | _ => True
  end.

(** The average energies the objective returns, in order, along an
    optimizer run. *)
Fixpoint objective_values {D : Type} `{Scalar D}
    (depth_of : CompositeInstruction D → Z) (this : MC_VQE D)
    (entangler : CompositeInstruction D) (r : OptRun D)
    (st : ObjectiveState D) : list D :=
  match r with
  | OptResult _ _ => []
  | OptEvaluate x dx next =>
      match objective depth_of this entangler st x dx with
      | Done (e, dx', st') =>
          e :: objective_values depth_of this entangler (next e dx') st'
      | _ => []
      end
  end.

(** What holds of the matrix when the interference loops reach
    [(stateA, stateB)], from the matrix [m0] they started with. *)
Definition interference_inv {D : Type} `{Scalar D} (this : MC_VQE D)
    (entangler : CompositeInstruction D) (x : list D) (m0 : matrix D)
    (stateA stateB : Z) (m : matrix D) : Prop :=
  mdims m (nStates this) (nStates this) ∧
  ∀ i j, mget m i j =
         if decide (pair_handled (nStates this) stateA stateB
                      (Z.min i j) (Z.max i j))
         then spec_interference_entry this entangler x (Z.min i j) (Z.max i j)
         else mget m0 i j.

(** The angle of index [k] before the sign of the last one is settled. *)
Definition raw_angle {D : Type} `{Scalar D} (acos : D → D) (column : list D)
    (k : Z) (c : D) : D :=
  acos (c / norm (drop (Z.to_nat k) column))%dbl.

(** The data of [n] sites: an energy pair and four 3-vectors per site. *)
Definition site_data_dims {D : Type} (n : Z) (d : SiteData D) : Prop :=
  Z.of_nat (length (energiesGS d)) = n ∧
  Z.of_nat (length (energiesES d)) = n ∧
  mdims (dipoleGS d) n 3 ∧ mdims (dipoleES d) n 3 ∧
  mdims (dipoleT d) n 3 ∧ mdims (com d) n 3.

(** The shape of the quantities accumulated for [n] sites. *)
Definition aiem_dims {D : Type} (n : Z) (s : AIEM D) : Prop :=
  Z.of_nat (length (X_A s)) = n ∧ Z.of_nat (length (Z_A s)) = n ∧
  mdims (XX_AB s) n n ∧ mdims (XZ_AB s) n n ∧
  mdims (ZX_AB s) n n ∧ mdims (ZZ_AB s) n n.

(** Sites [A] and [B] are adjacent on the ring of [n] sites. *)
Definition ring_neighbour (n A B : Z) : Prop :=
  0 ≤ A < n ∧ 0 ≤ B < n ∧
  (B = A + 1 ∨ A = B + 1 ∨ (A = 0 ∧ B = n - 1) ∨ (B = 0 ∧ A = n - 1)).

(** The transition-dipole coupling of the sites [A] and [B], as the builder
    stores it in [XX_AB(A, B)]. *)
Definition xx_entry {D : Type} `{Scalar D} (pow : D → D → D)
    (dipoleT com : matrix D) (A B : Z) : outcome D :=
  tA ← mrow dipoleT A;
  tB ← mrow dipoleT B;
  comA ← mrow com A;
  comB ← mrow com B;
  Done (twoBodyH pow tA tB (vsub comA comB)).

(** ** Objects the statements are tried on *)

(** A backend whose expectation value is the pump angle of the circuit (the
    parameter of its first instruction). *)
Definition pump_angle (kernel : CompositeInstruction float) : float :=
  match getInstructions kernel with
  | {| parameters := [PDouble a] |} :: _ => a
  | _ => 0%float
  end.

Definition pump_backend : Accelerator float :=
  {| vqe_execute := λ _ kernel _, pump_angle kernel |}.

(** Two sites, two states: the pump angles of the states are [1.0] and
    [2.0]. *)
Definition two_sites (cyclic : bool) (level : Z) : MC_VQE float :=
  {| optimizer := None; accelerator := Some pump_backend;
     nChromophores := 2; dataPath := "data.txt"; isCyclic := cyclic;
     logLevel := level; tnqvmLog := false; doInterference := true;
     nStates := 2;
     CISGateAngles := [[1; 0.5]; [2; 0.25]]%float;
     CISEigenstates := []; observable := []; gradientStrategy := None |}.

(** The captured state after a first call on [two_sites] at which the
    states have the energies [1.0] and [2.0]. *)
Definition after_first_call : ObjectiveState float :=
  {| oldAverageEnergy := 0%float;
     entangledHamiltonian := [[0; 0]; [0; 0]]%float;
     diagonal := [1; 2]%float;
     depth := Some 15;
     nGates := Some 15 |}.

(** Two sites on a ring whose centers of mass coincide (at the origin),
    after the unit conversions. *)
Definition coincident_sites : SiteData float :=
  {| energiesGS := [1; 1]%float;
     energiesES := [2; 3]%float;
     dipoleGS := [[1; 1]; [2; 2]; [3; 3]]%float;
     dipoleES := [[1; 1]; [0; 0]; [0; 2]]%float;
     dipoleT := [[0; 0]; [1; 1]; [0; 1]]%float;
     com := [[0; 0]; [0; 0]; [0; 0]]%float |}.

(** A conversion of unsigned decimal integers, enough to read a data file
    whose numbers are written so: the double nearest to the integer, with a
    range error when that is infinite. *)
Fixpoint digits_value (s : string) (acc : Z) : option Z :=
  match s with
  | EmptyString => Some acc
  | String c s' =>
      let d := Z.of_N (N_of_ascii c) - 48 in
      if (0 <=? d) && (d <=? 9) then digits_value s' (10 * acc + d) else None
  end.
Definition strtod_digits (s : string) : option (float * bool) :=
  (λ z, let v := SF2Prim (binary_normalize prec emax z 0 false) in
        (v, PrimFloat.is_infinity v)) <$> digits_value s 0.

(** A decimal integer beyond the range of a double: [1] followed by 309
    zeros. *)
Definition beyond_double : string :=
  String "1" (Nat.iter 309 (String "0") "").

(** A data file for two sites, and the file system that holds it under the
    path of [two_sites]. *)
Definition two_sites_file : list string :=
  ["0"; "Ground state energy:1"; "Excited state energy:2";
   "Center of mass:0,0,0"; "Ground state dipole:1,2,3";
   "Excited state dipole:1,0,0"; "Transition dipole:0,1,0"; "";
   "1"; "Ground state energy:1"; "Excited state energy:3";
   "Center of mass:1,0,0"; "Ground state dipole:1,2,3";
   "Excited state dipole:1,0,2"; "Transition dipole:0,1,1"; ""].
Definition one_file : FileSystem :=
  λ path, if String.eqb path "data.txt" then Some two_sites_file else None.
Definition no_file : FileSystem := λ _, None.

(** The same file with the first energy beyond the range of a double. *)
Definition out_of_range_file : FileSystem :=
  λ path, if String.eqb path "data.txt"
          then Some (<[1%nat := "Ground state energy:" +:+ beyond_double]>
                       two_sites_file)
          else None.

(** The options of a run on two sites with the required keys present. *)
Definition two_sites_options (cyclic : bool) : HeterogeneousMap float :=
  mkParameters (Some pump_backend)
               (Some {| optimize := λ _, OptResult 0%float [] |})
               (Some 2) (Some "data.txt") (Some cyclic)
               None None None None None.

(** Two sites before the angles are encoded, and three orthonormal
    reference eigenvectors for them, the last with a negative final
    coefficient. *)
Definition two_sites_unencoded : MC_VQE float :=
  {| optimizer := None; accelerator := None;
     nChromophores := 2; dataPath := ""; isCyclic := true;
     logLevel := 1; tnqvmLog := false; doInterference := true;
     nStates := 3; CISGateAngles := mzero 2 3; CISEigenstates := [];
     observable := []; gradientStrategy := None |}.
Definition two_sites_eigenvectors : matrix float :=
  [[1; 0; 0]; [0; 1; 0]; [0; 0; -1]]%float.

(** [std::acos] at the arguments these eigenvectors give it: [acos 1 = 0],
    [acos 0 = pi/2], [acos (-1) = pi], to the nearest double; NaN
    elsewhere. *)
Definition acos_at_units (x : float) : float :=
  if (x =? 1)%float then 0%float
  else if (x =? 0)%float then 0x1.921fb54442d18p+0%float
  else if (x =? -1)%float then 0x1.921fb54442d18p+1%float
  else nan.

(** Library functions for the runs on doubles: [std::pow] at the exponent
    [3.0], the only one the code uses, by multiplication.  The runs end
    before they reach [std::acos], left as the identity, and none of the
    statements concerns the spectrum: the eigensolver is one that returns no
    eigenvalue and the matrix itself. *)
Definition pow_cube (d e : float) : float := (d * d * d)%float.
Definition acos_unreached (x : float) : float := x.
Definition identity_solver (m : matrix float) : list float * matrix float :=
  ([], m).
Definition no_service (name : string)
  : option (AlgorithmGradientStrategy float) := None.

(** Two sites on a ring at distance [1], with transition dipoles [0.1] and
    [0.3] along the axis that joins them. *)
Definition unit_distance_sites : SiteData float :=
  {| energiesGS := [1; 1]%float;
     energiesES := [2; 3]%float;
     dipoleGS := [[0; 0]; [0; 0]; [0; 0]]%float;
     dipoleES := [[0; 0]; [0; 0]; [0; 0]]%float;
     dipoleT := [[0x1.999999999999ap-4; 0x1.3333333333333p-2]; [0; 0]; [0; 0]]%float;
     com := [[0; 1]; [0; 0]; [0; 0]]%float |}.

(** [two_sites] with an optimizer that evaluates the objective once, at the
    empty parameter vector, and returns what it got. *)
Definition evaluate_once : Optimizer float :=
  {| optimize := λ _, OptEvaluate [] [] (λ e _, OptResult e []) |}.
Definition two_sites_run : MC_VQE float :=
  {| optimizer := Some evaluate_once; accelerator := Some pump_backend;
     nChromophores := 2; dataPath := "data.txt"; isCyclic := true;
     logLevel := 1; tnqvmLog := false; doInterference := true;
     nStates := 2;
     CISGateAngles := [[1; 0.5]; [2; 0.25]]%float;
     CISEigenstates := []; observable := []; gradientStrategy := None |}.

(** A provider that counts the objects it has created. *)
Definition counting_provider : IRProvider float nat :=
  {| provider_createComposite := λ name w, (createComposite name, S w);
     provider_createInstruction := λ gate bits parameters w,
       (createInstruction gate bits parameters, S w) |}.

(** Four sites, no data: enough for the circuit builders. *)
Definition four_sites (cyclic : bool) : MC_VQE float :=
  {| optimizer := None; accelerator := None;
     nChromophores := 4; dataPath := ""; isCyclic := cyclic;
     logLevel := 1; tnqvmLog := false; doInterference := true;
     nStates := 5; CISGateAngles := []; CISEigenstates := [];
     observable := []; gradientStrategy := None |}.

(** * Vocabulary of the further properties *)

(** ** Circuits *)

(** The name of the trainable parameter of index [i]. *)
Definition variable_name (i : Z) : string := paramLetter +:+ to_string i.

(** The parameters of the instructions of a circuit, in circuit order. *)
Definition circuit_parameters {D : Type} (c : CompositeInstruction D)
  : list (InstructionParameter D) :=
  concat (parameters <$> getInstructions c).

(** Every qubit an instruction of the circuit acts on is one of the [n]
    qubits of the register. *)
Definition qubits_below {D : Type} (n : Z) (c : CompositeInstruction D) : Prop :=
  Forall (λ i, Forall (λ q, 0 ≤ q < n) (bits i)) (getInstructions c).

(** ** The layout of the data file *)

(** [has_char c s]: the character [c] occurs in [s]. *)
Fixpoint has_char (c : ascii) (s : string) : bool :=
  match s with
  | EmptyString => false
  | String c' s' => Ascii.eqb c' c || has_char c s'
  end.

(** [std::stod] converts the text [t] to [v]: [std::strtod] performs a
    conversion, to [v], and reports no range error. *)
Definition converts {D : Type} (strtod : string → option (D * bool))
    (t : string) (v : D) : Prop :=
  t ≠ "" ∧ strtod t = Some (v, false).

(** Row [A] of the matrix [m] overwritten, column by column, with the
    values [vs]; the columns beyond the values keep their coefficient. *)
Definition set_row {D : Type} (m : matrix D) (A : Z) (vs : list D) : matrix D :=
  imap (λ j col, match vs !! j with
                 | Some v => <[Z.to_nat A := v]> col
                 | None => col
                 end)
       m.

(** What the data file holds for one site: the line with its number, the
    two energies, the four vectors and the line that closes the site. *)
Record Site (T : Type) := mkSite {
  title : string;
  site_energyGS : T;
  site_energyES : T;
  site_com : T * T * T;
  site_dipoleGS : T * T * T;
  site_dipoleES : T * T * T;
  site_dipoleT : T * T * T;
  closing : string
}.
Arguments mkSite {T}.
Arguments title {T} s.
Arguments site_energyGS {T} s.
Arguments site_energyES {T} s.
Arguments site_com {T} s.
Arguments site_dipoleGS {T} s.
Arguments site_dipoleES {T} s.
Arguments site_dipoleT {T} s.
Arguments closing {T} s.

(** The texts that precede the colon on the six lines of values. *)
Record Labels := mkLabels {
  label_energyGS : string;
  label_energyES : string;
  label_com : string;
  label_dipoleGS : string;
  label_dipoleES : string;
  label_dipoleT : string
}.

Definition components {T : Type} (v : T * T * T) : list T :=
  [v.1.1; v.1.2; v.2].

(** The eight lines of a site, in the order the loader reads them. *)
Definition site_lines (lab : Labels) (s : Site string) : list string :=
  [title s;
   label_energyGS lab +:+ ":" +:+ site_energyGS s;
   label_energyES lab +:+ ":" +:+ site_energyES s;
   label_com lab +:+ ":" +:+ String.concat "," (components (site_com s));
   label_dipoleGS lab +:+ ":" +:+ String.concat "," (components (site_dipoleGS s));
   label_dipoleES lab +:+ ":" +:+ String.concat "," (components (site_dipoleES s));
   label_dipoleT lab +:+ ":" +:+ String.concat "," (components (site_dipoleT s));
   closing s].

Definition data_file (lab : Labels) (sites : list (Site string)) : list string :=
  concat (site_lines lab <$> sites).

(** The matrix, one row per site, of a vector of the sites. *)
Definition rows_of {T : Type} (f : Site T → T * T * T) (sites : list (Site T))
  : matrix T :=
  [(λ s, (f s).1.1) <$> sites; (λ s, (f s).1.2) <$> sites;
   (λ s, (f s).2) <$> sites].

Definition site_data {D : Type} (sites : list (Site D)) : SiteData D :=
  mkSiteData (site_energyGS <$> sites) (site_energyES <$> sites)
             (rows_of site_dipoleGS sites) (rows_of site_dipoleES sites)
             (rows_of site_dipoleT sites) (rows_of site_com sites).

(** A label is a text without colon, short enough for its length to be a
    [std::size_t]. *)
Definition label_ok (label : string) : Prop :=
  has_char ":" label = false ∧ Z.of_nat (String.length label) + 1 < 2 ^ 64.

Definition labels_ok (lab : Labels) : Prop :=
  label_ok (label_energyGS lab) ∧ label_ok (label_energyES lab) ∧
  label_ok (label_com lab) ∧ label_ok (label_dipoleGS lab) ∧
  label_ok (label_dipoleES lab) ∧ label_ok (label_dipoleT lab).

(** The three texts of a vector hold no comma and convert to its
    components. *)
Definition vector_converts {D : Type} (strtod : string → option (D * bool))
    (t : string * string * string) (v : D * D * D) : Prop :=
  Forall (λ c, has_char "," c = false) (components t) ∧
  Forall2 (converts strtod) (components t) (components v).

Definition site_converts {D : Type} (strtod : string → option (D * bool))
    (t : Site string) (s : Site D) : Prop :=
  converts strtod (site_energyGS t) (site_energyGS s) ∧
  converts strtod (site_energyES t) (site_energyES s) ∧
  vector_converts strtod (site_com t) (site_com s) ∧
  vector_converts strtod (site_dipoleGS t) (site_dipoleGS s) ∧
  vector_converts strtod (site_dipoleES t) (site_dipoleES s) ∧
  vector_converts strtod (site_dipoleT t) (site_dipoleT s).

(** The data of the sites read so far, in vectors and matrices allocated
    for [n] sites. *)
Definition pad {D : Type} `{Scalar D} (n : nat) (l : list D) : list D :=
  l ++ replicate (n - length l) d0.

Definition data_so_far {D : Type} `{Scalar D} (n : nat) (sites : list (Site D))
  : SiteData D :=
  mkSiteData (pad n (site_energyGS <$> sites)) (pad n (site_energyES <$> sites))
             (pad n <$> rows_of site_dipoleGS sites)
             (pad n <$> rows_of site_dipoleES sites)
             (pad n <$> rows_of site_dipoleT sites)
             (pad n <$> rows_of site_com sites).

(** ** The options *)

(** [MC_VQE::requiredParameters]. *)
Definition requiredParameters : list string :=
  ["optimizer"; "accelerator"; "nChromophores"; "data-path"].

(** Whether the options hold a value, of the type [initialize] asks for,
    under a key. *)
Definition keyExists {D : Type} (parameters : HeterogeneousMap D)
    (key : string) : bool :=
  if String.eqb key "accelerator" then bool_decide (is_Some (p_accelerator parameters))
  else if String.eqb key "optimizer" then bool_decide (is_Some (p_optimizer parameters))
  else if String.eqb key "nChromophores" then bool_decide (is_Some (p_nChromophores parameters))
  else if String.eqb key "data-path" then bool_decide (is_Some (p_data_path parameters))
  else if String.eqb key "cyclic" then bool_decide (is_Some (p_cyclic parameters))
  else if String.eqb key "log-level" then bool_decide (is_Some (p_log_level parameters))
  else if String.eqb key "tnqvm-log" then bool_decide (is_Some (p_tnqvm_log parameters))
  else if String.eqb key "interference" then bool_decide (is_Some (p_interference parameters))
  else if String.eqb key "n-states" then bool_decide (is_Some (p_n_states parameters))
  else if String.eqb key "gradient-strategy" then bool_decide (is_Some (p_gradient_strategy parameters))
  else false.

(** ** The objective and the optimizer *)

(** The circuit the algorithm runs for a reference state: the preparation
    circuit of the state's angles followed by the entangler. *)
Definition state_kernel {D : Type} `{Scalar D} (this : MC_VQE D)
    (entangler : CompositeInstruction D) (state : Z)
  : outcome (CompositeInstruction D) :=
  angles ← mcol (CISGateAngles this) state;
  kernel ← statePreparationCircuit this angles;
  Done (appendEntangler kernel entangler).

(** The energy of a reference state at the parameters [x]: the expectation
    value the backend returns for the circuit of the state. *)
Definition state_energy {D : Type} `{Scalar D} (this : MC_VQE D)
    (entangler : CompositeInstruction D) (x : list D) (state : Z) : outcome D :=
  kernel ← state_kernel this entangler state;
  vqeWrapper this (observable this) kernel x.

(** The loop [for (int i = 0; i < k; i++) averageGrad[i] += tmpGrad[i] /
    nStates], on vectors that have these [k] components. *)
Definition add_state_gradient {D : Type} `{Scalar D} (nStates : Z) (k : nat)
    (averageGrad tmpGrad : list D) : list D :=
  imap (λ i a, if decide (i < k)%nat
               then match tmpGrad !! i with
                    | Some t => (a + t / of_int nStates)%dbl
                    | None => a
                    end
               else a)
       averageGrad.

(** The averaged gradient after the states whose circuits are [kernels]. *)
Definition averaged_gradient {D : Type} `{Scalar D} (this : MC_VQE D)
    (x dx : list D) (kernels : list (CompositeInstruction D)) : list D :=
  match gradientStrategy this with
  | Some strategy =>
      foldl (λ averageGrad kernel,
               add_state_gradient (nStates this) (length dx) averageGrad
                 (gradient strategy kernel x dx))
            (vzero (Z.of_nat (length x))) kernels
  | None => vzero (Z.of_nat (length x))
  end.

(** The gradient strategy, when there is one, returns at least as many
    components as the gradient buffer holds, and the buffer is not longer
    than the parameter vector. *)
Definition gradient_fits {D : Type} (this : MC_VQE D) (x dx : list D) : Prop :=
  match gradientStrategy this with
  | Some strategy =>
      (length dx ≤ length x)%nat ∧
      ∀ kernel, (length dx ≤ length (gradient strategy kernel x dx))%nat
  | None => True
  end.

(** What one state adds to the averaged gradient. *)
Definition state_gradient_step {D : Type} `{Scalar D} (this : MC_VQE D)
    (x dx : list D)
    (averageGrad : list D) (kernel : CompositeInstruction D) : list D :=
  match gradientStrategy this with
  | Some strategy =>
      add_state_gradient (nStates this) (length dx) averageGrad
        (gradient strategy kernel x dx)
  | None => averageGrad
  end.

(** What the last of the circuits leaves in [depth] and [nGates]. *)
Definition last_kernel_info {D A : Type} (f : CompositeInstruction D → A)
    (kernels : list (CompositeInstruction D)) (before : option A) : option A :=
  match last kernels with
  | Some kernel => Some (f kernel)
  | None => before
  end.

(** Every evaluation of an optimizer run hands the objective a gradient
    buffer that fits. *)
Fixpoint run_fits {D : Type} (this : MC_VQE D) (r : OptRun D) : Prop :=
  match r with
  | OptResult _ _ => True
  | OptEvaluate x dx next =>
      gradient_fits this x dx ∧ ∀ e dx', run_fits this (next e dx')
  end.

(** The value and the parameters an optimizer run ends with when each
    evaluation it asks for, at [x] with the gradient buffer [dx], is
    answered with the average of the energies of the states at [x] (their
    sum, added in order from [0.0], over the number of states) and with the
    averaged gradient of the states (with [dx] as it was when that is
    empty). *)
Fixpoint run_answered {D : Type} `{Scalar D} (this : MC_VQE D)
    (entangler : CompositeInstruction D) (r : OptRun D)
  : outcome (D * list D) :=
  match r with
  | OptResult value x => Done (value, x)
  | OptEvaluate x dx next =>
      kernels ← mapM' (state_kernel this entangler) (range 0 (nStates this));
      energies ← mapM' (state_energy this entangler x)
                       (range 0 (nStates this));
      let average := (foldl dadd d0 energies / of_int (nStates this))%dbl in
      let gradient := match averaged_gradient this x dx kernels with
                      | [] => dx
                      | _ => averaged_gradient this x dx kernels
                      end in
      run_answered this entangler (next average gradient)
  end.

(** ** Further objects the statements are tried on *)

(** [two_sites] with a gradient strategy whose gradient for a circuit is
    its pump angle, in every component of the buffer. *)
Definition pump_gradient : AlgorithmGradientStrategy float :=
  {| gradient := λ kernel x dx, (λ _, pump_angle kernel) <$> dx |}.
Definition two_sites_gradient : MC_VQE float :=
  {| optimizer := None; accelerator := Some pump_backend;
     nChromophores := 2; dataPath := "data.txt"; isCyclic := true;
     logLevel := 1; tnqvmLog := false; doInterference := true;
     nStates := 2;
     CISGateAngles := [[1; 0.5]; [2; 0.25]]%float;
     CISEigenstates := []; observable := [];
     gradientStrategy := Some pump_gradient |}.

(** [two_sites] asked for three states, one more than its angle matrix has
    columns. *)
Definition three_states_of_two : MC_VQE float :=
  {| optimizer := None; accelerator := Some pump_backend;
     nChromophores := 2; dataPath := "data.txt"; isCyclic := true;
     logLevel := 1; tnqvmLog := false; doInterference := true;
     nStates := 3;
     CISGateAngles := [[1; 0.5]; [2; 0.25]]%float;
     CISEigenstates := []; observable := []; gradientStrategy := None |}.

(** Three sites, no data: an odd number of sites for the circuit builders. *)
Definition three_sites (cyclic : bool) : MC_VQE float :=
  {| optimizer := None; accelerator := None;
     nChromophores := 3; dataPath := ""; isCyclic := cyclic;
     logLevel := 1; tnqvmLog := false; doInterference := true;
     nStates := 4; CISGateAngles := []; CISEigenstates := [];
     observable := []; gradientStrategy := None |}.

(** Two sites whose states have the energies [-1.0] and [-2.0], with an
    optimizer that evaluates the objective twice, at the empty parameter
    vector, and returns what it got last. *)
Definition evaluate_twice : Optimizer float :=
  {| optimize := λ _,
       OptEvaluate [] [] (λ _ _, OptEvaluate [] [] (λ e _, OptResult e [])) |}.
Definition two_sites_negative : MC_VQE float :=
  {| optimizer := Some evaluate_twice; accelerator := Some pump_backend;
     nChromophores := 2; dataPath := "data.txt"; isCyclic := true;
     logLevel := 1; tnqvmLog := false; doInterference := true;
     nStates := 2;
     CISGateAngles := [[-1; 0.5]; [-2; 0.25]]%float;
     CISEigenstates := []; observable := []; gradientStrategy := None |}.

(** The file of [two_sites_file], site by site: its texts and the values
    they stand for. *)
Definition two_sites_labels : Labels :=
  mkLabels "Ground state energy" "Excited state energy" "Center of mass"
           "Ground state dipole" "Excited state dipole" "Transition dipole".
Definition two_sites_texts : list (Site string) :=
  [mkSite "0" "1" "2" ("0", "0", "0") ("1", "2", "3") ("1", "0", "0")
          ("0", "1", "0") "";
   mkSite "1" "1" "3" ("1", "0", "0") ("1", "2", "3") ("1", "0", "2")
          ("0", "1", "1") ""].
Definition two_sites_values : list (Site float) :=
  [mkSite "0" 1 2 (0, 0, 0) (1, 2, 3) (1, 0, 0) (0, 1, 0) "";
   mkSite "1" 1 3 (1, 0, 0) (1, 2, 3) (1, 0, 2) (0, 1, 1) ""]%float.

(** A file that ends after the energies of its second site. *)
Definition short_file : FileSystem :=
  λ path, if String.eqb path "data.txt"
          then Some (take 11 two_sites_file) else None.

(** * Properties *)

(** ** Outcomes and loops *)

Lemma bind_Done {A B : Type} (m : outcome A) (f : A → outcome B) (b : B) :
  m ≫= f = Done b ↔ ∃ a, m = Done a ∧ f a = Done b.
Proof.
  destruct m; simpl; split; try (intros [? [? ?]]); try done; eauto.
  by simplify_eq.
Qed.

Lemma bind_Done_l {A B : Type} (a : A) (f : A → outcome B) : Done a ≫= f = f a.
Proof. reflexivity. Qed.

Lemma bind_Undefined {A B : Type} (f : A → outcome B) :
  Undefined ≫= f = Undefined.
Proof. reflexivity. Qed.

Lemma bind_Thrown {A B : Type} (e : exn) (f : A → outcome B) :
  Thrown e ≫= f = Thrown e.
Proof. reflexivity. Qed.

Lemma foldM_cons {A St : Type} (f : A → St → outcome St) (a : A) (l : list A)
    (s : St) :
  foldM f (a :: l) s = f a s ≫= foldM f l.
Proof. reflexivity. Qed.

Lemma foldM_app {A St : Type} (f : A → St → outcome St) (l1 l2 : list A) (s : St) :
  foldM f (l1 ++ l2) s = foldM f l1 s ≫= foldM f l2.
Proof.
  revert s. induction l1 as [|a l1 IH]; intros s; simpl; [done|].
  destruct (f a s); simpl; auto.
Qed.

Lemma range_nil (lo hi : Z) : hi ≤ lo → range lo hi = [].
Proof. intros. unfold range. apply seqZ_nil. lia. Qed.

Lemma range_cons (lo hi : Z) : lo < hi → range lo hi = lo :: range (lo + 1) hi.
Proof.
  intros. unfold range. rewrite seqZ_cons by lia.
  f_equal. f_equal; lia.
Qed.

Lemma range_snoc (lo hi : Z) : lo ≤ hi → range lo (hi + 1) = range lo hi ++ [hi].
Proof.
  intros. unfold range.
  replace (hi + 1 - lo) with ((hi - lo) + 1) by lia.
  rewrite seqZ_app by lia. f_equal.
  rewrite seqZ_cons by lia. rewrite seqZ_nil by lia. f_equal. lia.
Qed.

Lemma elem_of_range (lo hi k : Z) : k ∈ range lo hi ↔ lo ≤ k < hi.
Proof. unfold range. rewrite elem_of_seqZ. lia. Qed.

Lemma elem_of_range_step2 (lo hi i : Z) :
  i ∈ range_step2 lo hi ↔ lo ≤ i < hi ∧ (i - lo) `mod` 2 = 0.
Proof.
  unfold range_step2. rewrite list_elem_of_fmap. split.
  - intros (k & -> & Hk). apply elem_of_seqZ in Hk.
    replace (lo + 2 * k - lo) with (k * 2) by lia.
    rewrite Z.mod_mul by lia. split; [|done].
    assert (2 * ((hi - lo + 1) `div` 2) ≤ hi - lo + 1)
      by (apply Z.mul_div_le; lia).
    lia.
  - intros [Hr Hm]. exists ((i - lo) `div` 2).
    pose proof (Z.div_mod (i - lo) 2 ltac:(lia)) as Hd.
    split; [lia|]. apply elem_of_seqZ.
    split; [apply Z.div_pos; lia|].
    simpl. apply Z.div_lt_upper_bound; [lia|].
    pose proof (Z.div_mod (hi - lo + 1) 2 ltac:(lia)) as Hd'.
    pose proof (Z.mod_pos_bound (hi - lo + 1) 2 ltac:(lia)).
    lia.
Qed.

(** The rules of a counting loop, for an invariant indexed by the counter:
    when the loop completes, and to show that it completes. *)
Lemma foldM_range_inv {St : Type} (I : Z → St → Prop) (f : Z → St → outcome St)
    (lo hi : Z) (s s' : St) :
  lo ≤ hi →
  I lo s →
  (∀ k t t', lo ≤ k < hi → I k t → f k t = Done t' → I (k + 1) t') →
  foldM f (range lo hi) s = Done s' →
  I hi s'.
Proof.
  intros Hle H0 Hstep.
  assert (∀ n : nat, ∀ s', foldM f (range lo (lo + Z.of_nat n)) s = Done s' →
            lo + Z.of_nat n ≤ hi → I (lo + Z.of_nat n) s') as Hn.
  { induction n as [|n IH]; intros t Hrun Hb.
    - rewrite range_nil in Hrun by lia. simpl in Hrun. simplify_eq.
      by replace (lo + Z.of_nat 0) with lo by lia.
    - replace (lo + Z.of_nat (S n)) with ((lo + Z.of_nat n) + 1) in * by lia.
      rewrite range_snoc, foldM_app in Hrun by lia.
      apply bind_Done in Hrun as (u & Hu & Hlast).
      simpl in Hlast. apply bind_Done in Hlast as (u' & Hf & ?). simplify_eq.
      eapply Hstep; [|apply IH|]; [lia|done|lia|done]. }
  intros Hrun. specialize (Hn (Z.to_nat (hi - lo)) s').
  replace (lo + Z.of_nat (Z.to_nat (hi - lo))) with hi in Hn by lia.
  apply Hn; [done|lia].
Qed.

Lemma foldM_range_total {St : Type} (I : Z → St → Prop) (f : Z → St → outcome St)
    (lo hi : Z) (s : St) :
  lo ≤ hi →
  I lo s →
  (∀ k t, lo ≤ k < hi → I k t → ∃ t', f k t = Done t' ∧ I (k + 1) t') →
  ∃ s', foldM f (range lo hi) s = Done s' ∧ I hi s'.
Proof.
  intros Hle H0 Hstep.
  assert (∀ n : nat, lo + Z.of_nat n ≤ hi →
            ∃ s', foldM f (range lo (lo + Z.of_nat n)) s = Done s' ∧
                  I (lo + Z.of_nat n) s') as Hn.
  { induction n as [|n IH]; intros Hb.
    - rewrite range_nil by lia. exists s. split; [done|].
      by replace (lo + Z.of_nat 0) with lo by lia.
    - destruct IH as (u & Hu & HI); [lia|].
      destruct (Hstep (lo + Z.of_nat n) u) as (u' & Hf & HI'); [lia|done|].
      exists u'. replace (lo + Z.of_nat (S n)) with ((lo + Z.of_nat n) + 1) by lia.
      rewrite range_snoc, foldM_app, Hu by lia. simpl. rewrite Hf. done. }
  specialize (Hn (Z.to_nat (hi - lo))).
  replace (lo + Z.of_nat (Z.to_nat (hi - lo))) with hi in Hn by lia.
  apply Hn. lia.
Qed.

(** A loop over any list, with an invariant that does not depend on the
    position. *)
Lemma foldM_inv {A St : Type} (I : St → Prop) (f : A → St → outcome St)
    (l : list A) (s s' : St) :
  I s →
  (∀ a t t', a ∈ l → I t → f a t = Done t' → I t') →
  foldM f l s = Done s' →
  I s'.
Proof.
  revert s. induction l as [|a l IH]; intros s H0 Hstep Hrun; simpl in Hrun.
  - by simplify_eq.
  - apply bind_Done in Hrun as (t & Ht & Hrest).
    eapply IH; [| |done].
    + eapply Hstep; [left|done|done].
    + intros b u u' Hb. apply Hstep. by right.
Qed.

Lemma foldM_total {A St : Type} (I : St → Prop) (f : A → St → outcome St)
    (l : list A) (s : St) :
  I s →
  (∀ a t, a ∈ l → I t → ∃ t', f a t = Done t' ∧ I t') →
  ∃ s', foldM f l s = Done s' ∧ I s'.
Proof.
  revert s. induction l as [|a l IH]; intros s H0 Hstep; simpl.
  - eauto.
  - destruct (Hstep a s) as (t & Ht & HI); [left|done|].
    rewrite Ht. simpl. apply IH; [done|].
    intros b u Hb. apply Hstep. by right.
Qed.

(** ** Vectors and matrices *)

Section Vec.
Context {A : Type}.
Implicit Types (v : list A) (i j : Z).

Lemma vget_Done v i a :
  vget v i = Done a ↔ 0 ≤ i ∧ v !! Z.to_nat i = Some a.
Proof.
  unfold vget. destruct (Z.ltb_spec i 0).
  - split; [done|lia].
  - destruct (v !! Z.to_nat i); split; try done; naive_solver.
Qed.

Lemma vget_total v i :
  0 ≤ i < Z.of_nat (length v) → ∃ a, vget v i = Done a.
Proof.
  intros Hi. destruct (lookup_lt_is_Some_2 v (Z.to_nat i)) as [a Ha]; [lia|].
  exists a. apply vget_Done. split; [lia|done].
Qed.

Lemma vget_neg v i : i < 0 → vget v i = Undefined.
Proof. intros. unfold vget. by destruct (Z.ltb_spec i 0); [|lia]. Qed.

Lemma vget_pure v i : vget v i = Undefined ∨ ∃ a, vget v i = Done a.
Proof.
  unfold vget. destruct (i <? 0); [by left|].
  destruct (v !! Z.to_nat i); eauto.
Qed.

Lemma vset_Done v i a v' :
  vset v i a = Done v' ↔
  0 ≤ i < Z.of_nat (length v) ∧ v' = <[Z.to_nat i := a]> v.
Proof.
  unfold vset.
  destruct (Z.leb_spec 0 i), (Z.ltb_spec i (Z.of_nat (length v))); simpl;
    split; try done; try lia; try naive_solver.
Qed.

Lemma vset_total v i a :
  0 ≤ i < Z.of_nat (length v) → ∃ v', vset v i a = Done v'.
Proof. intros. eexists. by apply vset_Done. Qed.

Lemma vset_pure v i a : vset v i a = Undefined ∨ ∃ v', vset v i a = Done v'.
Proof. unfold vset. destruct (_ && _); eauto. Qed.

Lemma length_vset v i a v' : vset v i a = Done v' → length v' = length v.
Proof. intros [_ ->]%vset_Done. apply length_insert. Qed.

Lemma vget_vset v i a v' j :
  vset v i a = Done v' →
  vget v' j = if decide (j = i) then Done a else vget v j.
Proof.
  intros [Hi ->]%vset_Done. unfold vget.
  destruct (Z.ltb_spec j 0); [case_decide; [lia|done]|].
  case_decide as Hji.
  - subst. rewrite list_lookup_insert_eq by lia. done.
  - rewrite list_lookup_insert_ne by lia. done.
Qed.

End Vec.

Section Mat.
Context {A : Type}.
Implicit Types (m : list (list A)) (i j : Z).

Lemma mcol_length m r c j col :
  mdims m r c → vget m j = Done col → Z.of_nat (length col) = r.
Proof.
  intros [_ Hall] [_ Hj]%vget_Done.
  by eapply (proj1 (Forall_lookup _ _) Hall).
Qed.

Lemma mget_total m r c i j :
  mdims m r c → 0 ≤ i < r → 0 ≤ j < c → ∃ x, mget m i j = Done x.
Proof.
  intros Hd Hi Hj. unfold mget.
  destruct (vget_total m j) as [col Hcol]; [destruct Hd; lia|].
  rewrite Hcol. simpl. apply vget_total.
  erewrite mcol_length; eauto.
Qed.

Lemma mset_total m r c i j x :
  mdims m r c → 0 ≤ i < r → 0 ≤ j < c → ∃ m', mset m i j x = Done m'.
Proof.
  intros Hd Hi Hj. unfold mset.
  destruct (vget_total m j) as [col Hcol]; [destruct Hd; lia|].
  rewrite Hcol. simpl.
  destruct (vset_total col i x) as [col' Hcol'];
    [erewrite mcol_length; eauto|].
  rewrite Hcol'. simpl. apply vset_total. destruct Hd; lia.
Qed.

Lemma mset_dims m r c i j x m' :
  mset m i j x = Done m' → mdims m r c → mdims m' r c.
Proof.
  unfold mset. intros Hset Hd.
  apply bind_Done in Hset as (col & Hcol & Hset).
  apply bind_Done in Hset as (col' & Hcol' & Hset).
  pose proof (mcol_length _ _ _ _ _ Hd Hcol) as Hlen.
  apply length_vset in Hcol'.
  apply vset_Done in Hset as [_ ->].
  destruct Hd as [Hc Hall]. split.
  - by rewrite length_insert.
  - apply Forall_insert; [done|]. lia.
Qed.

Lemma mget_mset m i j x m' i' j' :
  mset m i j x = Done m' →
  mget m' i' j' = if decide (i' = i ∧ j' = j) then Done x else mget m i' j'.
Proof.
  unfold mset, mget. intros Hset.
  apply bind_Done in Hset as (col & Hcol & Hset).
  apply bind_Done in Hset as (col' & Hcol' & Hset).
  rewrite (vget_vset _ _ _ _ j' Hset).
  destruct (decide (j' = j)) as [->|Hj].
  - simpl. rewrite (vget_vset _ _ _ _ i' Hcol'), Hcol. simpl.
    destruct (decide (i' = i)); case_decide; try done; naive_solver.
  - case_decide; [naive_solver|done].
Qed.

Lemma mget_pure m i j : mget m i j = Undefined ∨ ∃ x, mget m i j = Done x.
Proof.
  unfold mget. destruct (vget_pure m j) as [->|[c ->]]; [by left|].
  simpl. apply vget_pure.
Qed.

Lemma mset_pure m i j x :
  mset m i j x = Undefined ∨ ∃ m', mset m i j x = Done m'.
Proof.
  unfold mset. destruct (vget_pure m j) as [->|[c ->]]; [by left|]. simpl.
  destruct (vset_pure c i x) as [->|[c' ->]]; [by left|]. simpl.
  apply vset_pure.
Qed.

Lemma mset_neg_col m i j x : j < 0 → mset m i j x = Undefined.
Proof. intros. unfold mset. by rewrite vget_neg. Qed.

Lemma mrow_pure m i : mrow m i = Undefined ∨ ∃ r, mrow m i = Done r.
Proof.
  unfold mrow. induction m as [|c m IH]; simpl; [eauto|].
  destruct (vget_pure c i) as [->|[a ->]]; [by left|]. simpl.
  destruct IH as [->|[r ->]]; simpl; eauto.
Qed.

Lemma mrow_total m r c i :
  mdims m r c → 0 ≤ i < r → ∃ row, mrow m i = Done row ∧ length row = length m.
Proof.
  intros [_ Hall] Hi. unfold mrow. clear c.
  induction Hall as [|col m Hcol Hall IH]; simpl; [eauto|].
  destruct (vget_total col i) as [a ->]; [lia|]. simpl.
  destruct IH as (row & -> & Hlen). simpl. eexists. split; [done|].
  simpl. by rewrite Hlen.
Qed.
End Mat.

Section Zeros.
Context {D : Type} `{Scalar D}.

Lemma length_vzero (n : Z) : Z.of_nat (length (vzero n)) = Z.max 0 n.
Proof. unfold vzero. rewrite length_replicate. lia. Qed.

Lemma mzero_dims (r c : Z) : 0 ≤ r → 0 ≤ c → mdims (mzero r c) r c.
Proof.
  intros. unfold mzero. split.
  - rewrite length_replicate. lia.
  - apply Forall_replicate. rewrite length_vzero. lia.
Qed.

Lemma vget_vzero (n i : Z) : 0 ≤ i < n → vget (vzero n) i = Done d0.
Proof.
  intros. apply vget_Done. split; [lia|]. unfold vzero.
  apply lookup_replicate. split; [done|lia].
Qed.

Lemma mget_mzero (r c i j : Z) :
  0 ≤ i < r → 0 ≤ j < c → mget (mzero r c) i j = Done d0.
Proof.
  intros. unfold mget, mzero.
  assert (vget (replicate (Z.to_nat c) (vzero r)) j = Done (vzero r)) as ->.
  { apply vget_Done. split; [lia|]. apply lookup_replicate. split; [done|lia]. }
  simpl. by apply vget_vzero.
Qed.
End Zeros.

(** ** The neighbour topology *)

Lemma pairs_lookup (n : Z) (cyclic : bool) (A : Z) :
  0 ≤ A < n →
  vget (pairs n cyclic) A =
    Done (if (A =? 0) && cyclic then [A + 1; n - 1]
          else if A =? n - 1 then [A - 1; 0]
          else [A - 1; A + 1]).
Proof.
  intros HA. apply vget_Done. split; [lia|].
  unfold pairs, range. rewrite list_lookup_fmap, lookup_seqZ_lt by lia.
  simpl. by replace (0 + Z.of_nat (Z.to_nat A)) with A by lia.
Qed.

Lemma length_pairs (n : Z) (cyclic : bool) :
  Z.of_nat (length (pairs n cyclic)) = Z.max 0 n.
Proof. unfold pairs, range. rewrite length_fmap, length_seqZ. lia. Qed.

(** On a ring of at least two sites every neighbour index is a site. *)
Lemma pairs_cyclic_in_range (n A B : Z) (nbrs : list Z) :
  2 ≤ n → vget (pairs n true) A = Done nbrs → B ∈ nbrs → 0 ≤ B < n.
Proof.
  intros Hn Hget HB.
  assert (0 ≤ A < n) as HA.
  { apply vget_Done in Hget as [? Hl]. apply lookup_lt_Some in Hl.
    pose proof (length_pairs n true). lia. }
  rewrite pairs_lookup in Hget by done. simplify_eq.
  destruct (Z.eqb_spec A 0); simpl in HB.
  - rewrite !elem_of_cons, elem_of_nil in HB. lia.
  - destruct (Z.eqb_spec A (n - 1));
      rewrite !elem_of_cons, elem_of_nil in HB; lia.
Qed.

(** C2, linear chain: the neighbour lists of the two end sites, as the code
    builds them for every chain of at least two sites.  Site [0] is given the
    index [-1], which is no site, and site [n - 1] is given the wrap-around
    neighbour [0]; each end has two entries, not the single adjacent site. *)
Theorem pairs_linear_chain_ends (n : Z) :
  2 ≤ n →
  vget (pairs n false) 0 = Done [-1; 1] ∧
  vget (pairs n false) (n - 1) = Done [n - 2; 0].
Proof.
  intros Hn. rewrite !pairs_lookup by lia.
  rewrite !andb_false_r, Z.eqb_refl.
  rewrite (proj2 (Z.eqb_neq 0 (n - 1))) by lia.
  by replace (n - 1 - 1) with (n - 2) by lia.
Qed.

Lemma pairs_linear_chain_ends_witness :
  vget (pairs 3 false) 0 = Done [-1; 1] ∧
  vget (pairs 3 false) (3 - 1) = Done [3 - 2; 0].
Proof. apply (pairs_linear_chain_ends 3). lia. Defined.

Section HamiltonianFacts.
Context {D : Type} `{Scalar D}.
Context (pow : D → D → D).

Lemma vinc_pure (v : list D) (A : Z) (x : D) :
  vinc v A x = Undefined ∨ ∃ v', vinc v A x = Done v'.
Proof.
  unfold vinc. destruct (vget_pure v A) as [->|[a ->]]; [by left|]. simpl.
  apply vset_pure.
Qed.

(** The pair loop has no error path: it completes or runs into an access
    outside the bounds. *)
Lemma aiem_pair_pure (dipoleSum dipoleDiff dT cm : matrix D) (A B : Z)
    (s : AIEM D) :
  aiem_pair pow dipoleSum dipoleDiff dT cm A B s = Undefined ∨
  ∃ s', aiem_pair pow dipoleSum dipoleDiff dT cm A B s = Done s'.
Proof.
  unfold aiem_pair.
  repeat lazymatch goal with
  | |- (mrow ?m ?i ≫= _) = Undefined ∨ _ =>
      destruct (mrow_pure m i) as [->|[? ->]]; [by left|]; simpl
  | |- (vinc ?v ?i ?x ≫= _) = Undefined ∨ _ =>
      destruct (vinc_pure v i x) as [->|[? ->]]; [by left|]; simpl
  | |- (mset ?m ?i ?j ?x ≫= _) = Undefined ∨ _ =>
      destruct (mset_pure m i j x) as [->|[? ->]]; [by left|]; simpl
  | |- (mget ?m ?i ?j ≫= _) = Undefined ∨ _ =>
      destruct (mget_pure m i j) as [->|[? ->]]; [by left|]; simpl
  end.
  eauto.
Qed.

(** A negative neighbour index runs the pair loop out of the bounds. *)
Lemma aiem_pair_negative (dipoleSum dipoleDiff dT cm : matrix D) (A B : Z)
    (s : AIEM D) :
  B < 0 → aiem_pair pow dipoleSum dipoleDiff dT cm A B s = Undefined.
Proof.
  intros HB. unfold aiem_pair.
  repeat lazymatch goal with
  | |- (mrow ?m ?i ≫= _) = Undefined =>
      destruct (mrow_pure m i) as [->|[? ->]]; [done|]; simpl
  | |- (vinc ?v ?i ?x ≫= _) = Undefined =>
      destruct (vinc_pure v i x) as [->|[? ->]]; [done|]; simpl
  end.
  rewrite (mset_neg_col (XX_AB s) A B _ HB). done.
Qed.

(** In the linear chain the builder indexes site [-1] at once: no
    Hamiltonian is built. *)
Lemma aiem_site_linear_chain_first (dipoleSum dipoleDiff dT cm : matrix D)
    (n : Z) (s : AIEM D) :
  1 ≤ n →
  aiem_site pow dipoleSum dipoleDiff dT cm (pairs n false) 0 s = Undefined.
Proof.
  intros Hn. unfold aiem_site.
  rewrite pairs_lookup, andb_false_r, bind_Done_l by lia.
  destruct (0 =? n - 1);
    by rewrite foldM_cons, aiem_pair_negative by lia.
Qed.

Lemma aiem_linear_chain_undefined (n : Z) (d : SiteData D) :
  1 ≤ n → aiem pow n false d = Undefined.
Proof.
  intros Hn. unfold aiem.
  by rewrite range_cons, foldM_cons, aiem_site_linear_chain_first by lia.
Qed.
End HamiltonianFacts.

(** ** The circuit builders *)

Lemma built_foldM {A C W : Type} (f_on : A → C * W → outcome (C * W))
    (f : A → C → outcome C) (l : list A) (c : C) (w : W) :
  (∀ a c w, built (f_on a (c, w)) = f a c) →
  built (foldM f_on l (c, w)) = foldM f l c.
Proof.
  intros Hf. revert c w. induction l as [|a l IH]; intros c w; [done|].
  rewrite !foldM_cons. rewrite <- (Hf a c w).
  destruct (f_on a (c, w)) as [[c' w']| | |]; simpl; done.
Qed.

Lemma proj_foldl {A S T : Type} (proj : S → T) (f_on : S → A → S)
    (f : T → A → T) (l : list A) (s : S) :
  (∀ s a, proj (f_on s a) = f (proj s) a) →
  proj (foldl f_on s l) = foldl f (proj s) l.
Proof.
  intros Hf. revert s. induction l as [|a l IH]; intros s; [done|].
  simpl. by rewrite IH, Hf.
Qed.

Section ProviderBuildersFacts.
Context {D W : Type} `{Scalar D}.
Context (provider : IRProvider D W).
Hypothesis answers : provider_answers provider.

Lemma created (gate : string) (bits : list Z)
    (parameters : list (InstructionParameter D)) (w : W) :
  ∃ w', provider_createInstruction provider gate bits parameters w
        = (createInstruction gate bits parameters, w').
Proof.
  destruct answers as [_ Hi]. specialize (Hi gate bits parameters w).
  destruct (provider_createInstruction _ _ _ _ _) as [i w']. simpl in Hi.
  subst i. by exists w'.
Qed.

(** Rewrites the request at the head of the goal with its answer. *)
Ltac answer :=
  match goal with
  | |- context [provider_createInstruction provider ?g ?b ?p ?w] =>
      let w' := fresh "w" in
      destruct (created g b p w) as [w' ->]
  end.

Lemma entanglerGate_on_pure (control target paramCounter : Z)
    (c : CompositeInstruction D) (w : W) :
  (entanglerGate_on provider control target paramCounter (c, w)).1
    = entanglerGate control target paramCounter c.
Proof. unfold entanglerGate_on. by repeat answer. Qed.

(** The entangler is the circuit of [entanglerCircuit], whatever the state
    of the framework. *)
Lemma entanglerCircuit_on_pure (this : MC_VQE D) (w : W) :
  (entanglerCircuit_on provider this w).1 = entanglerCircuit this.
Proof.
  unfold entanglerCircuit_on, entanglerCircuit. cbv zeta.
  destruct answers as [Hc _]. specialize (Hc "mcvqeCircuit" w).
  destruct (provider_createComposite _ _ _) as [c0 w0]. simpl in Hc. subst c0.
  (* the rotations *)
  set (rotations_on := foldl _ (createComposite "mcvqeCircuit", 0, w0) _).
  set (rotations := foldl _ (createComposite "mcvqeCircuit", 0) _).
  assert (rotations_on.1 = rotations) as Hrot.
  { apply (proj_foldl fst). intros [[c pc] w'] i. by answer. }
  destruct rotations_on as [[c1 pc1] w1]. simpl in Hrot. rewrite <- Hrot.
  (* the two layers *)
  set (layers_on := foldl _ (c1, pc1, w1) _).
  set (layers := foldl _ (c1, pc1) _).
  assert (layers_on.1 = layers) as Hlayers.
  { apply (proj_foldl fst). intros s layer. apply (proj_foldl fst).
    intros [[c pc] w'] i.
    pose proof (entanglerGate_on_pure (to_size_t i) (to_size_t (i + 1))
                  pc c w') as Hg.
    destruct (entanglerGate_on _ _ _ _ _) as [c' w'']. simpl in Hg.
    by subst c'. }
  destruct layers_on as [[c2 pc2] w2]. simpl in Hlayers. rewrite <- Hlayers.
  destruct (isCyclic this); [|done]. apply entanglerGate_on_pure.
Qed.

(** The state-preparation circuit is the circuit of
    [statePreparationCircuit], whatever the state of the framework. *)
Lemma statePreparationCircuit_on_pure (this : MC_VQE D) (angles : list D)
    (w : W) :
  built (statePreparationCircuit_on provider this angles w)
    = statePreparationCircuit this angles.
Proof.
  unfold statePreparationCircuit_on, statePreparationCircuit. cbv zeta.
  destruct answers as [Hc _]. specialize (Hc "mcvqeCircuit" w).
  destruct (provider_createComposite _ _ _) as [c0 w0]. simpl in Hc. subst c0.
  destruct (vget angles 0) as [a0| | |]; try done. rewrite !bind_Done_l.
  answer.
  (* Fy gates *)
  set (fy_on := foldM _ (range 1 _) (_, _)).
  set (fy := foldM _ (range 1 _) _).
  assert (built fy_on = fy) as Hfy.
  { apply built_foldM. intros i c w'.
    destruct (vget angles i) as [ai| | |]; try done.
    by repeat first [answer | rewrite bind_Done_l]. }
  rewrite <- Hfy. destruct fy_on as [[c1 w2]| | |]; try done.
  unfold built at 2. rewrite !bind_Done_l.
  (* wall of CNOTs *)
  apply built_foldM. intros i c w'.
  apply built_foldM. intros j c' w''. by answer.
Qed.
End ProviderBuildersFacts.

Section BuildersDeterministic.
Context {D W : Type} `{Scalar D}.

End BuildersDeterministic.


(** The state of the framework does change: on four sites the
    state-preparation builder makes 23 requests (the composite, the pump,
    five per Fy gate and the six CNOTs of the wall) and the entangler builder
    on the ring 29 (the composite, four rotations and six per block for its
    four blocks). *)
Lemma builders_change_the_framework_state :
  (r ← statePreparationCircuit_on counting_provider (four_sites true)
         [1; 0.5; 0.25; 2]%float 0%nat; Done r.2) = Done 23%nat ∧
  (entanglerCircuit_on counting_provider (four_sites true) 0%nat).2 = 29%nat.
Proof. split; vm_compute; reflexivity. Qed.

(** The state-preparation circuit does not read the cyclic flag. *)
Lemma statePreparationCircuit_flag {D : Type} `{Scalar D}
    (this1 this2 : MC_VQE D) (angles : list D) :
  nChromophores this1 = nChromophores this2 →
  statePreparationCircuit this1 angles = statePreparationCircuit this2 angles.
Proof. intros Hn. unfold statePreparationCircuit. by rewrite Hn. Qed.

(** C6 as stated fails: four sites in a linear chain expose 16 trainable
    parameters, not [4 + 2 * 2 * 4 = 20]. *)
Lemma entangler_four_sites_linear_not_20 :
  nVariables (entanglerCircuit (four_sites false)) = 16 ∧
  16 ≠ 4 + 2 * 2 * 4.
Proof. split; [reflexivity|lia]. Qed.

(** C6, amended: for four sites the entangler exposes [4 + 3 * 4 = 16]
    trainable parameters in the linear chain (one rotation per site, two
    blocks in the first layer and one in the second, shifted, layer, four
    parameters each) and exactly one more block of four, 20, on the ring. *)
Theorem entangler_four_sites_parameters {D : Type} `{Scalar D}
    (this : MC_VQE D) :
  nChromophores this = 4 →
  nVariables (entanglerCircuit this) =
    if isCyclic this then 4 + 3 * 4 + 4 else 4 + 3 * 4.
Proof.
  intros Hn. unfold entanglerCircuit. rewrite Hn.
  destruct (isCyclic this); reflexivity.
Qed.

Lemma entangler_four_sites_parameters_witness :
  nVariables (entanglerCircuit (four_sites false)) = 4 + 3 * 4 ∧
  nVariables (entanglerCircuit (four_sites true)) = 4 + 3 * 4 + 4.
Proof.
  split.
  - apply (entangler_four_sites_parameters (four_sites false)). reflexivity.
  - apply (entangler_four_sites_parameters (four_sites true)). reflexivity.
Defined.

(** ** The objective *)

Section ObjectiveFacts.
Context {D : Type} `{Scalar D}.
Context (depth_of : CompositeInstruction D → Z).

(** The state-preparation builder completes when it is given an angle for
    the pump and for every chromophore. *)
Lemma statePreparationCircuit_total (this : MC_VQE D) (angles : list D) :
  1 ≤ Z.of_nat (length angles) →
  nChromophores this ≤ Z.of_nat (length angles) →
  ∃ c, statePreparationCircuit this angles = Done c.
Proof.
  intros H1 Hn. unfold statePreparationCircuit.
  destruct (vget_total angles 0) as [a0 ->]; [lia|]. rewrite bind_Done_l.
  match goal with
  | |- ∃ c, foldM ?f (range 1 ?n) ?c0 ≫= _ = _ =>
      destruct (foldM_total (λ _, True) f (range 1 n) c0) as (c1 & -> & _)
  end; [done| |].
  { intros i c Hi%elem_of_range _.
    destruct (vget_total angles i) as [ai ->]; [lia|].
    rewrite !bind_Done_l. eauto. }
  rewrite bind_Done_l.
  match goal with
  | |- ∃ c, foldM ?f ?l ?c0 = _ =>
      destruct (foldM_total (λ _, True) f l c0) as (c2 & -> & _)
  end; [done| |by eauto].
  intros i c _ _.
  match goal with
  | |- ∃ c, foldM ?f ?l ?c0 = _ ∧ _ =>
      destruct (foldM_total (λ _, True) f l c0) as (c2 & -> & _)
  end; [done| |by eauto].
  intros; eauto.
Qed.

(** The energy the objective obtains for one state. *)
Lemma ready_state_kernel (this : MC_VQE D) (state : Z) :
  ready this → 0 ≤ state < nStates this →
  ∃ angles kernel,
    mcol (CISGateAngles this) state = Done angles ∧
    statePreparationCircuit this angles = Done kernel.
Proof.
  intros (Hacc & Hn & Hcols) Hs.
  destruct (vget_total (CISGateAngles this) state) as [angles Ha]; [lia|].
  pose proof Ha as [_ Hl]%vget_Done.
  pose proof (proj1 (Forall_lookup _ _) Hcols _ _ Hl) as [H1 H2].
  destruct (statePreparationCircuit_total this angles) as [kernel Hk];
    [done..|].
  exists angles, kernel. done.
Qed.

(** The loop over the states leaves the best average and the entangled
    Hamiltonian as they were. *)
Lemma objective_state_step_frame (this : MC_VQE D)
    (entangler : CompositeInstruction D) (x dx : list D) (state : Z)
    (acc acc' : D * list D * ObjectiveState D) :
  objective_state_step depth_of this entangler x dx state acc = Done acc' →
  oldAverageEnergy acc'.2 = oldAverageEnergy acc.2 ∧
  entangledHamiltonian acc'.2 = entangledHamiltonian acc.2.
Proof.
  destruct acc as [[e g] st]. unfold objective_state_step. intros Hstep.
  repeat (apply bind_Done in Hstep as (? & _ & Hstep)).
  by simplify_eq.
Qed.

Lemma objective_states_frame (this : MC_VQE D)
    (entangler : CompositeInstruction D) (x dx : list D) (l : list Z)
    (acc acc' : D * list D * ObjectiveState D) :
  foldM (objective_state_step depth_of this entangler x dx) l acc = Done acc' →
  oldAverageEnergy acc'.2 = oldAverageEnergy acc.2 ∧
  entangledHamiltonian acc'.2 = entangledHamiltonian acc.2.
Proof.
  apply (foldM_inv (λ a, oldAverageEnergy a.2 = oldAverageEnergy acc.2 ∧
                         entangledHamiltonian a.2 = entangledHamiltonian acc.2));
    [done|].
  intros state t t' _ [Ho Hm] Hstep.
  apply objective_state_step_frame in Hstep as [-> ->]. done.
Qed.

(** The policy of one call: the entangled Hamiltonian is written, with the
    diagonal of this call, exactly when the average of the call is below
    the stored one, which starts at [0.0]; otherwise it is left alone. *)
Lemma objective_policy (this : MC_VQE D) (entangler : CompositeInstruction D)
    (st st' : ObjectiveState D) (x dx dx' : list D) (e : D) :
  objective depth_of this entangler st x dx = Done (e, dx', st') →
  if (e <? oldAverageEnergy st)%dbl
  then oldAverageEnergy st' = e ∧
       set_diagonal (entangledHamiltonian st) (diagonal st') =
         Done (entangledHamiltonian st')
  else oldAverageEnergy st' = oldAverageEnergy st ∧
       entangledHamiltonian st' = entangledHamiltonian st.
Proof.
  unfold objective. intros Hrun.
  apply bind_Done in Hrun as ([[e1 g1] st1] & Hloop & Hrun).
  apply objective_states_frame in Hloop as [Ho Hm]. simpl in Ho, Hm.
  rewrite Ho in Hrun.
  destruct (dltb _ _) eqn:Hlt.
  - apply bind_Done in Hrun as (st2 & Hst2 & Hrun).
    apply bind_Done in Hst2 as (m & Hm2 & ?). simplify_eq.
    rewrite Hlt. simpl. by rewrite <- Hm.
  - rewrite bind_Done_l in Hrun. simplify_eq. by rewrite Hlt.
Qed.
End ObjectiveFacts.

Section ObjectiveTotal.
Context {D : Type} `{Scalar D}.
Context (depth_of : CompositeInstruction D → Z).

Lemma set_diagonal_total (m : matrix D) (v : list D) (n : Z) :
  Z.of_nat (length v) = n → mdims m n n →
  ∃ m', set_diagonal m v = Done m' ∧ mdims m' n n.
Proof.
  intros Hv Hm. unfold set_diagonal.
  destruct Hm as [Hc Hall].
  rewrite Hv, Hc, Z.eqb_refl.
  apply (foldM_range_total (λ _ m', mdims m' n n)); [lia|done|].
  intros k m1 Hk Hm1.
  destruct (vget_total v k) as [a ->]; [lia|]. rewrite bind_Done_l.
  destruct (mset_total m1 n n k k a) as [m2 Hm2]; [done|lia|lia|].
  exists m2. split; [done|]. by eapply mset_dims.
Qed.

(** With no gradient strategy, every state of the loop completes, adds
    nothing to the averaged gradient and keeps the shape of [diagonal]. *)
Lemma objective_state_step_no_gradient (this : MC_VQE D)
    (entangler : CompositeInstruction D) (x dx : list D) (state : Z)
    (e : D) (g : list D) (st : ObjectiveState D) :
  gradientStrategy this = None → ready this →
  0 ≤ state < nStates this →
  Z.of_nat (length (diagonal st)) = nStates this →
  ∃ e' st',
    objective_state_step depth_of this entangler x dx state (e, g, st) =
      Done (e', g, st') ∧
    Z.of_nat (length (diagonal st')) = nStates this ∧
    oldAverageEnergy st' = oldAverageEnergy st ∧
    entangledHamiltonian st' = entangledHamiltonian st.
Proof.
  intros Hg Hready Hs Hd. unfold objective_state_step.
  destruct (ready_state_kernel this state Hready Hs)
    as (angles & kernel & -> & Hk).
  rewrite bind_Done_l, Hk, bind_Done_l. unfold vqeWrapper.
  destruct Hready as ([acc Hacc] & _ & _). rewrite Hacc, bind_Done_l, Hg.
  rewrite bind_Done_l.
  destruct (vset_total (diagonal st) state
              (vqe_execute acc (observable this)
                 (appendEntangler kernel entangler) x)) as [d' Hd'];
    [lia|].
  rewrite Hd', bind_Done_l. eexists _, _. split; [done|]. simpl.
  apply length_vset in Hd'. split; [lia|done].
Qed.

(** C10: when no gradient strategy is configured, a call of the objective
    with a non-empty parameter vector [x] completes and leaves in the
    optimizer's gradient buffer the zero vector of the length of [x],
    whatever the buffer held. *)
Theorem objective_overwrites_gradient (this : MC_VQE D)
    (entangler : CompositeInstruction D) (st : ObjectiveState D)
    (x dx : list D) :
  gradientStrategy this = None →
  x ≠ [] →
  ready this →
  Z.of_nat (length (diagonal st)) = nStates this →
  mdims (entangledHamiltonian st) (nStates this) (nStates this) →
  ∃ e st',
    objective depth_of this entangler st x dx =
      Done (e, replicate (length x) (of_int 0), st').
Proof.
  intros Hg Hx Hready Hd Hm. unfold objective.
  destruct (foldM_range_total
    (λ _ (acc : D * list D * ObjectiveState D),
       acc.1.2 = vzero (Z.of_nat (length x)) ∧
       Z.of_nat (length (diagonal acc.2)) = nStates this ∧
       oldAverageEnergy acc.2 = oldAverageEnergy st ∧
       entangledHamiltonian acc.2 = entangledHamiltonian st)
    (objective_state_step depth_of this entangler x dx)
    0 (nStates this) (d0, vzero (Z.of_nat (length x)), st))
    as ([[e1 g1] st1] & -> & Hg1 & Hd1 & Ho1 & Hm1).
  { destruct Hready as (_ & ? & _). lia. }
  { done. }
  { intros k [[e g] t] Hk (Hgk & Hdk & Hok & Hmk).
    simpl in Hgk, Hdk, Hok, Hmk. subst g.
    destruct (objective_state_step_no_gradient this entangler x dx k e
                (vzero (Z.of_nat (length x))) t)
      as (e' & t' & -> & ? & ? & ?); [done..|].
    eexists. split; [done|]. simpl. repeat split; congruence. }
  simpl in Hg1, Hd1, Ho1, Hm1. subst g1. rewrite bind_Done_l.
  assert (vzero (Z.of_nat (length x)) = replicate (length x) (of_int 0)) as Hz.
  { unfold vzero, d0. by rewrite Nat2Z.id. }
  rewrite Hz. destruct x as [|x0 x]; [done|]. simpl.
  destruct (dltb _ _).
  - destruct (set_diagonal_total (entangledHamiltonian st1) (diagonal st1)
                (nStates this)) as (m' & -> & _); [done|by rewrite Hm1|].
    rewrite !bind_Done_l. eauto.
  - rewrite bind_Done_l. eauto.
Qed.
End ObjectiveTotal.

(** C10 on two sites: the buffer [7.0; 7.0] is replaced by [0.0]. *)
Lemma objective_overwrites_gradient_witness :
  ∃ e st',
    objective nInstructions (two_sites false 1)
      (entanglerCircuit (two_sites false 1))
      (first_call_state (two_sites false 1) 9%float)
      [0.5%float] [7%float; 7%float] =
    Done (e, replicate (length [0.5%float]) (of_int 0), st').
Proof.
  apply (objective_overwrites_gradient nInstructions (two_sites false 1)).
  - reflexivity.
  - discriminate.
  - split; [by eexists|]. split; [simpl; lia|].
    repeat constructor; simpl; lia.
  - reflexivity.
  - split; [reflexivity|]. repeat constructor.
Defined.

(** C1, where the code departs from the claim: a first call of the objective
    whose average energy is not below [0.0] is not recorded, the entangled
    Hamiltonian stays zero. *)
Theorem first_call_above_zero_not_recorded {D : Type} `{Scalar D}
    (depth_of : CompositeInstruction D → Z) (this : MC_VQE D)
    (entangler : CompositeInstruction D) (junk : D) (x dx dx' : list D)
    (e : D) (st' : ObjectiveState D) :
  objective depth_of this entangler (first_call_state this junk) x dx =
    Done (e, dx', st') →
  (e <? of_int 0)%dbl = false →
  entangledHamiltonian st' = mzero (nStates this) (nStates this) ∧
  oldAverageEnergy st' = of_int 0.
Proof.
  intros Hrun Hlt. apply objective_policy in Hrun.
  simpl in Hrun. rewrite Hlt in Hrun. by destruct Hrun as [-> ->].
Qed.

(** Two states of energies [1.0] and [2.0]: the first call returns the
    average [1.5], holds the energies in [diagonal], and the diagonal of the
    entangled Hamiltonian is still zero. *)
Lemma first_call_above_zero_not_recorded_witness :
  objective nInstructions (two_sites false 1)
    (entanglerCircuit (two_sites false 1))
    (first_call_state (two_sites false 1) 9%float) [] [] =
    Done (1.5%float, [], after_first_call) ∧
  diagonal after_first_call = [1%float; 2%float] ∧
  (1.5%float <? of_int 0)%dbl = false ∧
  entangledHamiltonian after_first_call =
    mzero (nStates (two_sites false 1)) (nStates (two_sites false 1)) ∧
  oldAverageEnergy after_first_call = of_int 0.
Proof.
  split; [vm_compute; reflexivity|].
  split; [reflexivity|]. split; [reflexivity|].
  apply (first_call_above_zero_not_recorded nInstructions (two_sites false 1)
           (entanglerCircuit (two_sites false 1)) 9%float [] [] []
           1.5%float after_first_call);
    vm_compute; reflexivity.
Defined.

(** ** The interference stage *)

Section InterferenceFacts.
Context {D : Type} `{Scalar D}.

Lemma ready_column (this : MC_VQE D) (state : Z) :
  ready this → 0 ≤ state < nStates this →
  ∃ angles,
    mcol (CISGateAngles this) state = Done angles ∧
    1 ≤ Z.of_nat (length angles) ∧
    nChromophores this ≤ Z.of_nat (length angles).
Proof.
  intros (Hacc & Hn & Hcols) Hs.
  destruct (vget_total (CISGateAngles this) state) as [angles Ha]; [lia|].
  pose proof Ha as [_ Hl]%vget_Done.
  pose proof (proj1 (Forall_lookup _ _) Hcols _ _ Hl) as [H1 H2].
  by exists angles.
Qed.

(** One pair: both circuits are built, both expectation values are taken,
    and the two mirrored entries receive the value of the specification;
    no other entry changes. *)
Lemma interference_pair_spec (this : MC_VQE D)
    (entangler : CompositeInstruction D) (x : list D) (a b : Z)
    (m : matrix D) :
  ready this →
  0 ≤ a < nStates this → 0 ≤ b < nStates this →
  mdims m (nStates this) (nStates this) →
  ∃ v m',
    spec_interference_entry this entangler x a b = Done v ∧
    interference_pair this entangler x a b m = Done m' ∧
    mdims m' (nStates this) (nStates this) ∧
    ∀ i j, mget m' i j =
           if decide ((i = a ∧ j = b) ∨ (i = b ∧ j = a)) then Done v
           else mget m i j.
Proof.
  intros Hready Ha Hb Hm.
  destruct (ready_column this a Hready Ha) as (ca & Hca & Hca1 & Hcan).
  destruct (ready_column this b Hready Hb) as (cb & Hcb & Hcb1 & Hcbn).
  destruct (statePreparationCircuit_total this
              (vdivs (vadd ca cb) (dsqrt (of_int 2)))) as [plus Hplus].
  { unfold vdivs, vadd. rewrite length_fmap, length_zip_with. lia. }
  { unfold vdivs, vadd. rewrite length_fmap, length_zip_with. lia. }
  destruct (statePreparationCircuit_total this
              (vdivs (vsub ca cb) (dsqrt (of_int 2)))) as [minus Hminus].
  { unfold vdivs, vsub. rewrite length_fmap, length_zip_with. lia. }
  { unfold vdivs, vsub. rewrite length_fmap, length_zip_with. lia. }
  destruct Hready as ([acc Hacc] & _ & _).
  unfold spec_interference_entry, interference_pair, vqeWrapper.
  rewrite Hca, Hcb, !bind_Done_l, Hplus, Hminus, Hacc, !bind_Done_l.
  rewrite Hminus, !bind_Done_l.
  set (v := ((_ - _) / _)%dbl).
  destruct (mset_total m _ _ a b v Hm) as [m1 Hm1]; [lia..|].
  pose proof (mset_dims _ _ _ _ _ _ _ Hm1 Hm) as Hd1.
  rewrite Hm1, bind_Done_l.
  rewrite (mget_mset _ _ _ _ _ a b Hm1), decide_True, bind_Done_l by done.
  destruct (mset_total m1 _ _ b a v Hd1) as [m2 Hm2]; [lia..|].
  exists v, m2. split; [done|]. split; [done|].
  split; [by eapply mset_dims|].
  intros i j. rewrite (mget_mset _ _ _ _ _ i j Hm2).
  rewrite (mget_mset _ _ _ _ _ i j Hm1).
  repeat case_decide; try done; naive_solver.
Qed.

Lemma interference_inner (this : MC_VQE D)
    (entangler : CompositeInstruction D) (x : list D) (m0 m : matrix D)
    (stateA : Z) :
  ready this → 0 ≤ stateA < nStates this →
  interference_inv this entangler x m0 stateA (stateA + 1) m →
  ∃ m', foldM (interference_pair this entangler x stateA)
              (range (stateA + 1) (nStates this)) m = Done m' ∧
        interference_inv this entangler x m0 stateA (nStates this) m'.
Proof.
  intros Hready HA Hinv.
  apply (foldM_range_total
           (λ B, interference_inv this entangler x m0 stateA B)); [lia|done|].
  intros B m1 HB [Hd1 Hget1].
  destruct (interference_pair_spec this entangler x stateA B m1)
    as (v & m2 & Hv & Hm2 & Hd2 & Hget2); [done|lia|lia|done|].
  exists m2. split; [done|]. split; [done|].
  intros i j. rewrite Hget2, Hget1. unfold pair_handled.
  destruct (decide ((i = stateA ∧ j = B) ∨ (i = B ∧ j = stateA)))
    as [Hij|Hij].
  - rewrite decide_True.
    + destruct Hij as [[-> ->]|[-> ->]].
      * by rewrite Z.min_l, Z.max_r by lia.
      * by rewrite Z.min_r, Z.max_l by lia.
    + lia.
  - repeat case_decide; try done; lia.
Qed.

End InterferenceFacts.

(** ** The angle encoder *)

Section AngleFacts.
Context {D : Type} `{Scalar D}.
Context (acos : D → D).

(** [norm], Eigen's reduction, is the Euclidean norm. *)
Lemma norm_euclidean (v : list D) : norm v = euclidean_norm v.
Proof.
  unfold norm, euclidean_norm, vsum, sum_of_squares. f_equal.
  destruct v as [|a v]; [done|]. csimpl. generalize (a * a)%dbl.
  induction v as [|b v IH]; intros s; csimpl; [done|]. apply IH.
Qed.

Lemma segment_to_end (column : list D) (n k : Z) :
  Z.of_nat (length column) = n + 1 → 0 ≤ k < n →
  segment column k (n - k + 1) = Done (drop (Z.to_nat k) column).
Proof.
  intros Hlen Hk. unfold segment.
  destruct (Z.leb_spec 0 k); [|lia].
  destruct (Z.leb_spec 0 (n - k + 1)); [|lia].
  destruct (Z.leb_spec (k + (n - k + 1)) (Z.of_nat (length column))); [|lia].
  simpl. f_equal. apply take_ge. rewrite length_drop. lia.
Qed.

(** The loop over the angles of one state. *)
Lemma angles_inner (this : MC_VQE D) (C G : matrix D) (ncols state : Z)
    (column : list D) :
  let n := nChromophores this in
  mdims C (n + 1) ncols →
  mcol C state = Done column →
  0 ≤ state < nStates this →
  mdims G n (nStates this) →
  ∃ G',
    foldM (λ angle gateAngles,
             col ← mcol C state;
             seg ← segment col angle (n - angle + 1);
             let partialCoeffNorm := norm seg in
             c ← mget C angle state;
             mset gateAngles angle state (acos (c / partialCoeffNorm)%dbl))
          (range 0 n) G = Done G' ∧
    mdims G' n (nStates this) ∧
    (∀ k, 0 ≤ k < n →
       ∃ c, column !! Z.to_nat k = Some c ∧
            mget G' k state = Done (raw_angle acos column k c)) ∧
    (∀ i j, j ≠ state → mget G' i j = mget G i j).
Proof.
  intros n HC Hcol Hs HG.
  pose proof (mcol_length _ _ _ _ _ HC Hcol) as Hlen.
  destruct (decide (0 ≤ n)) as [Hn|Hn]; last first.
  { rewrite range_nil by lia. exists G. split; [done|]. split; [done|].
    split; [intros; lia|done]. }
  apply (foldM_range_total
    (λ K G', mdims G' n (nStates this) ∧
             (∀ k, 0 ≤ k < K →
                ∃ c, column !! Z.to_nat k = Some c ∧
                     mget G' k state = Done (raw_angle acos column k c)) ∧
             (∀ i j, j ≠ state → mget G' i j = mget G i j))); [done| |].
  { split; [done|]. split; [intros; lia|done]. }
  intros K G1 HK (Hd1 & Hdone & Hframe).
  rewrite Hcol, bind_Done_l, (segment_to_end column n K), bind_Done_l
    by done.
  destruct (lookup_lt_is_Some_2 column (Z.to_nat K)) as [c Hc]; [lia|].
  unfold mget at 1. unfold mcol in Hcol. rewrite Hcol, bind_Done_l.
  rewrite (proj2 (vget_Done column K c)), bind_Done_l by (split; [lia|done]).
  destruct (mset_total G1 _ _ K state
              (acos (c / norm (drop (Z.to_nat K) column))%dbl) Hd1)
    as [G2 HG2]; [lia..|].
  exists G2. split; [done|]. split; [by eapply mset_dims|]. split.
  - intros k Hk. rewrite (mget_mset _ _ _ _ _ k state HG2).
    case_decide as Hdec.
    + destruct Hdec as [-> _]. by exists c.
    + apply Hdone. lia.
  - intros i j Hj. rewrite (mget_mset _ _ _ _ _ i j HG2).
    rewrite decide_False by naive_solver. by apply Hframe.
Qed.
End AngleFacts.

Section AngleEncoder.
Context {D : Type} `{Scalar D}.
Context (acos : D → D).
(** Multiplying by [-1.0], as the code does, negates; for doubles this is
    [binary64_mul_minus_one]. *)
Hypothesis mul_minus_one : ∀ x : D, (x * of_int (-1))%dbl = (- x)%dbl.

Lemma last_coefficient (C : matrix D) (n ncols state : Z) (column : list D) :
  0 ≤ n → mdims C (n + 1) ncols → mcol C state = Done column →
  ∃ final, last column = Some final ∧
           mget C (mrows C - 1) state = Done final.
Proof.
  intros Hn HC Hcol.
  pose proof (mcol_length _ _ _ _ _ HC Hcol) as Hlen.
  assert (mrows C = n + 1) as ->.
  { destruct C as [|c0 C]; [by apply vget_Done in Hcol as [_ ?]|].
    simpl. destruct HC as [_ Hall]. by inversion Hall. }
  destruct (lookup_lt_is_Some_2 column (Z.to_nat n)) as [final Hf]; [lia|].
  exists final. split.
  - rewrite last_lookup. by replace (pred (length column)) with (Z.to_nat n) by lia.
  - unfold mget. unfold mcol in Hcol. rewrite Hcol, bind_Done_l.
    apply vget_Done. split; [lia|]. by replace (n + 1 - 1) with n by lia.
Qed.

(** C5: on an eigenvector matrix with [nChromophores + 1] rows the angle
    encoder completes, and for every column [s] among the [nStates] states
    and every angle index [k] the angle it stores is the arccosine of the
    coefficient of index [k] divided by the Euclidean norm (the square root
    of the sum of the squares) of the sub-vector from [k] to the end,
    negated for the last index exactly when the final coefficient of the
    column is negative.  Each column is encoded from its own coefficients
    alone. *)
Theorem statePreparationAngles_spec (this : MC_VQE D) (C : matrix D)
    (ncols : Z) :
  1 ≤ nChromophores this →
  0 ≤ nStates this ≤ ncols →
  mdims C (nChromophores this + 1) ncols →
  ∃ G,
    statePreparationAngles acos this C = Done G ∧
    ∀ s k, 0 ≤ s < nStates this → 0 ≤ k < nChromophores this →
      ∃ column angle,
        mcol C s = Done column ∧
        spec_angle acos (nChromophores this) column k = Some angle ∧
        mget G k s = Done angle.
Proof.
  intros Hn Hs HC. unfold statePreparationAngles.
  destruct (Z.ltb_spec (nChromophores this) 0); [lia|].
  destruct (Z.ltb_spec (nStates this) 0); [lia|].
  simpl orb. cbv iota. rewrite bind_Done_l.
  set (n := nChromophores this) in *.
  destruct (foldM_range_total
    (λ S G, mdims G n (nStates this) ∧
            ∀ s k, 0 ≤ s < S → 0 ≤ k < n →
              ∃ column angle,
                mcol C s = Done column ∧
                spec_angle acos n column k = Some angle ∧
                mget G k s = Done angle)
    (λ state gateAngles,
       gateAngles ←
         foldM (λ angle gateAngles,
                  col ← mcol C state;
                  seg ← segment col angle (n - angle + 1);
                  let partialCoeffNorm := norm seg in
                  c ← mget C angle state;
                  mset gateAngles angle state (acos (c / partialCoeffNorm)%dbl))
               (range 0 n) gateAngles;
       last ← mget C (mrows C - 1) state;
       if (last <? of_int 0)%dbl
       then
         g ← mget gateAngles (n - 1) state;
         mset gateAngles (n - 1) state (g * of_int (-1))%dbl
       else Done gateAngles)
    0 (nStates this) (mzero n (nStates this)))
    as (G & HG & _ & Hspec); [lia| | |by exists G].
  { split; [apply mzero_dims; lia|]. intros; lia. }
  intros S G1 HS [Hd1 Hprev].
  destruct (vget_total C S) as [column Hcol]; [destruct HC; lia|].
  destruct (angles_inner acos this C G1 ncols S column)
    as (G2 & HG2 & Hd2 & Hraw & Hframe); [done..|lia|done|].
  fold n in HG2, Hd2, Hraw. rewrite HG2, bind_Done_l.
  destruct (last_coefficient C n ncols S column) as (final & Hlast & Hfinal);
    [lia|done|done|].
  rewrite Hfinal, bind_Done_l.
  (* the entries of column [S] after the sign of the last angle is settled *)
  assert (∃ G3,
    (if (final <? of_int 0)%dbl
     then g ← mget G2 (n - 1) S; mset G2 (n - 1) S (g * of_int (-1))%dbl
     else Done G2) = Done G3 ∧
    mdims G3 n (nStates this) ∧
    (∀ k, 0 ≤ k < n →
       ∃ angle, spec_angle acos n column k = Some angle ∧
                mget G3 k S = Done angle) ∧
    (∀ i j, j ≠ S → mget G3 i j = mget G2 i j))
    as (G3 & -> & Hd3 & Hcol3 & Hframe3).
  { destruct (dltb final (of_int 0)) eqn:Hneg.
    - destruct (Hraw (n - 1)) as (cl & Hcl & Hgl); [lia|].
      rewrite Hgl, bind_Done_l.
      destruct (mset_total G2 _ _ (n - 1) S
                  (raw_angle acos column (n - 1) cl * of_int (-1))%dbl Hd2)
        as [G3 HG3]; [lia..|].
      exists G3. split; [done|]. split; [by eapply mset_dims|]. split.
      + intros k Hk. rewrite (mget_mset _ _ _ _ _ k S HG3).
        destruct (Hraw k Hk) as (c & Hc & Hg).
        unfold spec_angle. rewrite Hc, Hlast. simpl. rewrite Hneg.
        case_decide as Hdec.
        * destruct Hdec as [-> _]. rewrite Z.eqb_refl. simpl.
          eexists. split; [done|]. rewrite mul_minus_one.
          unfold raw_angle. rewrite norm_euclidean. by simplify_eq.
        * rewrite (proj2 (Z.eqb_neq k (n - 1))) by naive_solver. simpl.
          eexists. split; [done|]. by rewrite Hg, <- norm_euclidean.
      + intros i j Hj. rewrite (mget_mset _ _ _ _ _ i j HG3).
        by rewrite decide_False by naive_solver.
    - exists G2. split; [done|]. split; [done|]. split; [|done].
      intros k Hk. destruct (Hraw k Hk) as (c & Hc & Hg).
      unfold spec_angle. rewrite Hc, Hlast. simpl. rewrite Hneg.
      rewrite andb_false_r. eexists. split; [done|].
      by rewrite Hg, <- norm_euclidean. }
  exists G3. split; [done|]. split; [done|].
  intros s k Hs' Hk.
  destruct (decide (s = S)) as [->|Hne].
  - destruct (Hcol3 k Hk) as (angle & Hangle & Hget).
    by exists column, angle.
  - destruct (Hprev s k) as (col' & angle & ? & ? & Hget); [lia|done|].
    exists col', angle. split; [done|]. split; [done|].
    by rewrite Hframe3, Hframe.
Qed.
End AngleEncoder.

(** ** Error paths of the preprocessing *)

Create HintDb no_report discriminated.

Lemma no_report_Done {A : Type} (a : A) : no_report (Done a).
Proof. done. Qed.

Lemma no_report_Undefined {A : Type} : no_report (@Undefined A).
Proof. done. Qed.

Lemma no_report_bind {A B : Type} (m : outcome A) (f : A → outcome B) :
  no_report m → (∀ a, no_report (f a)) → no_report (m ≫= f).
Proof. destruct m; simpl; auto. Qed.

Lemma no_report_foldM {A St : Type} (f : A → St → outcome St) (l : list A)
    (s : St) :
  (∀ a t, no_report (f a t)) → no_report (foldM f l s).
Proof.
  intros Hf. revert s. induction l as [|a l IH]; intros s; simpl; [done|].
  apply no_report_bind; auto.
Qed.

Lemma no_report_vget {A : Type} (v : list A) (i : Z) : no_report (vget v i).
Proof. by destruct (vget_pure v i) as [->|[a ->]]. Qed.

Lemma no_report_vset {A : Type} (v : list A) (i : Z) (a : A) :
  no_report (vset v i a).
Proof. by destruct (vset_pure v i a) as [->|[v' ->]]. Qed.

Lemma no_report_mget {A : Type} (m : list (list A)) (i j : Z) :
  no_report (mget m i j).
Proof. by destruct (mget_pure m i j) as [->|[a ->]]. Qed.

Lemma no_report_mset {A : Type} (m : list (list A)) (i j : Z) (a : A) :
  no_report (mset m i j a).
Proof. by destruct (mset_pure m i j a) as [->|[v' ->]]. Qed.

Lemma no_report_mrow {A : Type} (m : list (list A)) (i : Z) :
  no_report (mrow m i).
Proof. by destruct (mrow_pure m i) as [->|[a ->]]. Qed.

Lemma no_report_guard (b : bool) :
  no_report (if b then Undefined else Done ()).
Proof. by destruct b. Qed.

#[export] Hint Resolve no_report_Done no_report_Undefined no_report_vget
  no_report_vset no_report_mget no_report_mset no_report_mrow
  no_report_guard : no_report.

(** Goes through a sequence of binds and loops, leaving no goal when every
    step is an access to a vector or a matrix. *)
Ltac no_report_steps :=
  repeat first
    [ progress auto with no_report
    | apply no_report_bind; [|intros]
    | apply no_report_foldM; intros
    | match goal with |- no_report (if ?b then _ else _) => destruct b end ].

Section BuilderErrors.
Context {D : Type} `{Scalar D}.
Context (pow : D → D → D).

Lemma no_report_aiem (n : Z) (cyclic : bool) (d : SiteData D) :
  no_report (aiem pow n cyclic d).
Proof.
  unfold aiem, aiem_site, aiem_pair, vinc. no_report_steps.
Qed.

Lemma no_report_CISMatrix (n nStates : Z) (cyclic : bool) (s : AIEM D) :
  no_report (CISMatrix n nStates cyclic s).
Proof.
  unfold CISMatrix, minc, mdec. no_report_steps.
Qed.

End BuilderErrors.

Lemma nan_div (x : float) : PrimFloat.is_nan (PrimFloat.div nan x) = true.
Proof.
  unfold PrimFloat.is_nan. rewrite FloatAxioms.eqb_spec, div_spec. reflexivity.
Qed.

(** C7 as stated fails: for two coupled sites at the same position the
    builder completes, whatever [std::pow] returns; the coupling it has stored
    in the Hamiltonian is NaN, and so is the entry of the reference matrix for
    the pair. *)
Lemma coincident_sites_store_nan :
  mrow (com coincident_sites) 0 = mrow (com coincident_sites) 1 ∧
  ∀ pow : float → float → float,
    ∃ s cis t x,
      aiem pow 2 true coincident_sites = Done s ∧
      hamiltonian s !! 0%nat = Some t ∧
      operators t = [(0, "X"); (1, "X")] ∧
      PrimFloat.is_nan (coefficient t) = true ∧
      CISMatrix 2 3 true s = Done cis ∧
      mget cis 1 2 = Done x ∧
      PrimFloat.is_nan x = true.
Proof.
  split; [reflexivity|]. intros pow.
  eexists _, _, _, _.
  split; [vm_compute; reflexivity|].
  split; [reflexivity|]. split; [reflexivity|].
  split; [apply nan_div|].
  split; [vm_compute; reflexivity|].
  split; [reflexivity|]. apply nan_div.
Qed.

Section PreprocessingFacts.
Context {D : Type} `{Scalar D}.
Context (pow : D → D → D) (acos : D → D) (strtod : string → option (D * bool)).
Context (SelfAdjointEigenSolver : matrix D → list D * matrix D).
Context (ANGSTROM2BOHR DEBYE2AU : D).
Context (getService : string → option (AlgorithmGradientStrategy D)).

(** C3, where the code departs from the claim: with the linear (non-cyclic)
    topology the builder indexes site [-1] as soon as the data are read, so
    preprocessing builds no reference matrix at all: it ends out of the
    bounds (or earlier, in the loader), never with a matrix to
    diagonalize. *)
Theorem linear_chain_builds_no_reference_matrix (fs : FileSystem)
    (this : MC_VQE D) :
  isCyclic this = false →
  1 ≤ nChromophores this →
  preProcessing pow acos strtod SelfAdjointEigenSolver ANGSTROM2BOHR DEBYE2AU
                fs this =
    (read_data strtod fs this ≫= λ _, Undefined) ∧
  ∀ d, read_data strtod fs this = Done d →
       aiem pow (nChromophores this) (isCyclic this)
            (scale_units ANGSTROM2BOHR DEBYE2AU d) = Undefined.
Proof.
  intros Hc Hn. unfold preProcessing. rewrite Hc. split.
  - destruct (read_data strtod fs this); [|done..].
    by rewrite !bind_Done_l, aiem_linear_chain_undefined.
  - intros. by apply aiem_linear_chain_undefined.
Qed.

(** So an object set up for the linear chain, the default topology, is
    never initialized. *)
Lemma initialize_linear_chain (fs : FileSystem) (this this' : MC_VQE D)
    (parameters : HeterogeneousMap D) (n : Z) :
  p_nChromophores parameters = Some n →
  1 ≤ n →
  default false (p_cyclic parameters) = false →
  initialize pow acos strtod SelfAdjointEigenSolver ANGSTROM2BOHR DEBYE2AU
             getService fs this parameters ≠ Done (InitTrue this').
Proof.
  intros Hn Hn1 Hc. unfold initialize. rewrite Hn.
  destruct (p_accelerator parameters); [|done].
  destruct (p_optimizer parameters); [|done].
  destruct (p_data_path parameters); [|done].
  destruct (Z.ltb_spec (n + 1) 0); [lia|]. rewrite bind_Done_l, Hc.
  unfold preProcessing.
  destruct (read_data _ _ _); [|done..].
  by rewrite !bind_Done_l, aiem_linear_chain_undefined.
Qed.

(** A file that cannot be opened is not detected by [file.bad()]: the
    loader goes on to parse, and [std::stod] throws on the empty line. *)
Lemma read_data_missing_file (fs : FileSystem) (this : MC_VQE D) :
  fs (dataPath this) = None →
  1 ≤ nChromophores this →
  read_data strtod fs this = Thrown invalid_argument.
Proof.
  intros Hfs Hn. unfold read_data, ifstream_open.
  destruct (Z.ltb_spec (nChromophores this) 0); [lia|].
  rewrite Hfs, bind_Done_l. cbn [bad badbit].
  by rewrite range_cons, foldM_cons by lia.
Qed.

(** [file.bad()] is never true of a stream that has just been opened:
    the report "Cannot access data file." is dead code. *)
Lemma not_fatal_read_header (fs : FileSystem) (path : string) :
  bad (ifstream_open fs path) = false.
Proof. unfold ifstream_open. by destruct (fs path). Qed.

(** C8, where the code departs from the claim: when the required options
    are present and the data file cannot be opened, [initialize] reports no
    configuration error; preprocessing proceeds to parse the unopened
    stream and ends in the [std::invalid_argument] that [std::stod] throws
    on the empty line. *)
Theorem initialize_missing_file (fs : FileSystem) (this : MC_VQE D)
    (parameters : HeterogeneousMap D) (acc : Accelerator D)
    (opt : Optimizer D) (n : Z) (path : string) :
  p_accelerator parameters = Some acc →
  p_optimizer parameters = Some opt →
  p_nChromophores parameters = Some n →
  p_data_path parameters = Some path →
  1 ≤ n →
  fs path = None →
  initialize pow acos strtod SelfAdjointEigenSolver ANGSTROM2BOHR DEBYE2AU
             getService fs this parameters = Thrown invalid_argument.
Proof.
  intros Hacc Hopt Hn Hpath Hn1 Hfs. unfold initialize.
  rewrite Hacc, Hopt, Hn, Hpath.
  destruct (Z.ltb_spec (n + 1) 0); [lia|]. rewrite bind_Done_l.
  unfold preProcessing. by rewrite read_data_missing_file.
Qed.

(** The part of C8 that holds: a missing required option makes
    [initialize] return [false], with its message, before it preprocesses
    anything. *)
Lemma initialize_missing_option (fs : FileSystem) (this : MC_VQE D)
    (parameters : HeterogeneousMap D) :
  p_accelerator parameters = None ∨ p_optimizer parameters = None ∨
  p_nChromophores parameters = None ∨ p_data_path parameters = None →
  ∃ printed,
    initialize pow acos strtod SelfAdjointEigenSolver ANGSTROM2BOHR DEBYE2AU
               getService fs this parameters = Done (InitFalse printed).
Proof.
  unfold initialize. intros Hmissing.
  destruct (p_accelerator parameters); [|by eexists].
  destruct (p_optimizer parameters); [|by eexists].
  destruct (p_nChromophores parameters); [|by eexists].
  destruct (p_data_path parameters); [|by eexists].
  naive_solver.
Qed.
End PreprocessingFacts.

(** ** The statements on concrete runs *)

(** C3 on a chain of two sites read from a file: the data are read, and
    preprocessing ends out of the bounds. *)
Lemma linear_chain_builds_no_reference_matrix_witness :
  preProcessing pow_cube acos_unreached strtod_digits identity_solver
                1%float 1%float one_file (two_sites false 1) = Undefined ∧
  ∀ d, read_data strtod_digits one_file (two_sites false 1) = Done d →
       aiem pow_cube (nChromophores (two_sites false 1))
            (isCyclic (two_sites false 1))
            (scale_units 1%float 1%float d) = Undefined.
Proof.
  destruct (linear_chain_builds_no_reference_matrix pow_cube acos_unreached
              strtod_digits identity_solver 1%float 1%float one_file
              (two_sites false 1)) as [Hpre Hbuild].
  - reflexivity.
  - simpl. lia.
  - split; [rewrite Hpre; vm_compute; reflexivity|exact Hbuild].
Defined.

(** The whole initialization of the chain of two sites, from the options. *)
Lemma initialize_linear_chain_of_two_sites :
  initialize pow_cube acos_unreached strtod_digits identity_solver
             1%float 1%float no_service one_file (two_sites false 1)
             (two_sites_options false) = Undefined.
Proof. vm_compute. reflexivity. Qed.

(** The same file on the ring is preprocessed to the end of the builder. *)
Lemma ring_of_two_sites_is_built :
  ∃ s cis,
    (d ← read_data strtod_digits one_file (two_sites true 1);
     aiem pow_cube 2 true (scale_units 1%float 1%float d)) = Done s ∧
    CISMatrix 2 3 true s = Done cis ∧
    cis = [[18.75; 4; 10]; [4; 5.75; 1]; [10; 1; -5.25]]%float.
Proof.
  eexists _, _. split; [vm_compute; reflexivity|].
  split; [vm_compute; reflexivity|reflexivity].
Qed.

(** A number beyond the range of a double in the data file: [std::stod]
    throws [std::out_of_range], which nothing catches. *)
Lemma initialize_number_out_of_range :
  initialize pow_cube acos_unreached strtod_digits identity_solver
             1%float 1%float no_service out_of_range_file (two_sites true 1)
             (two_sites_options true) = Thrown out_of_range.
Proof. vm_compute. reflexivity. Qed.

(** C8 on two sites whose data file does not exist. *)
Lemma initialize_missing_file_witness :
  initialize pow_cube acos_unreached strtod_digits identity_solver
             1%float 1%float no_service no_file (two_sites false 1)
             (two_sites_options true) = Thrown invalid_argument.
Proof.
  apply (initialize_missing_file pow_cube acos_unreached strtod_digits
           identity_solver 1%float 1%float no_service no_file
           (two_sites false 1) (two_sites_options true) pump_backend
           {| optimize := λ _, OptResult 0%float [] |} 2 "data.txt");
    [reflexivity..|lia|reflexivity].
Defined.

(** The entry the interference stage computes on [two_sites]: the pump
    angles of the two superpositions are [(1 + 2)/sqrt 2] and
    [(1 - 2)/sqrt 2]; in doubles their difference over [sqrt 2] is one unit
    in the last place below [2.0]. *)
Lemma interference_two_sites_entry :
  interference (two_sites true 1) (entanglerCircuit (two_sites true 1))
               [] (mzero 2 2) =
  Done [[0; 0x1.fffffffffffffp+0]; [0x1.fffffffffffffp+0; 0]]%float.
Proof. vm_compute. reflexivity. Qed.

(** Shifting out the zeros that a multiplication by a power of two has
    shifted in is exact. *)
Lemma shr_zeros (k : nat) (p : positive) :
  Nat.iter k shr_1
    {| shr_m := Z.pos (Nat.iter k xO p); shr_r := false; shr_s := false |}
  = {| shr_m := Z.pos p; shr_r := false; shr_s := false |}.
Proof.
  induction k as [|k IH]; [reflexivity|].
  rewrite Nat.iter_succ_r. simpl. exact IH.
Qed.

Lemma digits2_zeros (k : nat) (p : positive) :
  Z.pos (digits2_pos (Nat.iter k xO p)) = Z.pos (digits2_pos p) + Z.of_nat k.
Proof.
  induction k as [|k IH]; [simpl; lia|].
  change (Nat.iter (S k) xO p) with (xO (Nat.iter k xO p)).
  cbn [digits2_pos]. rewrite Pos2Z.inj_succ, IH. lia.
Qed.

Lemma SFmul_minus_one_finite (s : bool) (m : positive) (e : Z) :
  bounded prec emax m e = true →
  SFmul prec emax (S754_finite s m e) (Prim2SF (-1)%float)
  = S754_finite (negb s) m e.
Proof.
  intros Hb.
  change (Prim2SF (-1)%float) with (S754_finite true 4503599627370496 (-52)).
  cbn [SFmul]. rewrite Pos.mul_comm.
  change (4503599627370496 * m)%positive with (Nat.iter 52 xO m).
  unfold binary_round_aux, shr_fexp. cbn [Zdigits2].
  rewrite digits2_zeros.
  unfold bounded, canonical_mantissa in Hb.
  apply andb_prop in Hb as [Hc He].
  apply Z.eqb_eq in Hc. apply Z.leb_le in He.
  replace (Z.pos (digits2_pos m) + Z.of_nat 52 + (e + -52))
    with (Z.pos (digits2_pos m) + e) by lia.
  rewrite Hc. replace (e - (e + -52)) with 52 by lia.
  cbn [shr shr_record_of_loc].
  change (SpecFloat.iter_pos shr_1 52 ?r) with (Nat.iter 52 shr_1 r).
  rewrite shr_zeros.
  cbn [shr_m loc_of_shr_record round_nearest_even Zdigits2].
  replace (e + -52 + 52) with e by lia.
  rewrite Hc, Z.sub_diag. cbn [shr shr_m].
  destruct (Z.leb_spec e (emax - prec)); [|lia].
  by destruct s.
Qed.

(** Multiplying a double by [-1.0], as the angle encoder does, negates it:
    the product is exact for every double, the infinities, the zeros and
    NaN included. *)
Lemma binary64_mul_minus_one (x : float) :
  (x * of_int (-1))%dbl = (- x)%dbl.
Proof.
  change ((x * -1)%float = (- x)%float).
  apply Prim2SF_inj. rewrite mul_spec, opp_spec.
  pose proof (Prim2SF_valid x) as Hv.
  destruct (Prim2SF x) as [s|s| |s m e].
  - by destruct s.
  - by destruct s.
  - reflexivity.
  - by apply SFmul_minus_one_finite.
Qed.

(** C5 on two sites, in doubles. *)
Lemma statePreparationAngles_spec_witness :
  ∃ G,
    statePreparationAngles acos_at_units two_sites_unencoded
      two_sites_eigenvectors = Done G ∧
    ∀ s k, 0 ≤ s < nStates two_sites_unencoded →
           0 ≤ k < nChromophores two_sites_unencoded →
      ∃ column angle,
        mcol two_sites_eigenvectors s = Done column ∧
        spec_angle acos_at_units (nChromophores two_sites_unencoded)
          column k = Some angle ∧
        mget G k s = Done angle.
Proof.
  apply (statePreparationAngles_spec acos_at_units binary64_mul_minus_one
           two_sites_unencoded two_sites_eigenvectors 3).
  - simpl. lia.
  - simpl. lia.
  - split; [reflexivity|]. repeat constructor.
Defined.

(** The angles of these eigenvectors: the third column has a negative final
    coefficient and its last angle is negated; in the first column the
    sub-vector from index [1] is zero and the quotient is NaN. *)
Lemma statePreparationAngles_two_sites :
  statePreparationAngles acos_at_units two_sites_unencoded
    two_sites_eigenvectors =
  Done [[0; nan]; [0x1.921fb54442d18p+0; 0];
        [0x1.921fb54442d18p+0; -0x1.921fb54442d18p+0]]%float.
Proof. vm_compute. reflexivity. Qed.

(** ** The best-so-far policy along an optimizer run *)

Section BestSoFar.
Context {D : Type} `{Scalar D}.
Context (depth_of : CompositeInstruction D → Z).

(** X26: as long as no call returns an average below [0.0], nothing is
    recorded: at the end of the run the entangled Hamiltonian is the zero
    matrix it started as. *)
Lemma run_without_negative_average (this : MC_VQE D)
    (entangler : CompositeInstruction D) (r : OptRun D)
    (st st' : ObjectiveState D) (value : D) (params : list D) :
  oldAverageEnergy st = of_int 0 →
  Forall (λ e, (e <? of_int 0)%dbl = false)
         (objective_values depth_of this entangler r st) →
  run_optimizer depth_of this entangler r st = Done (value, params, st') →
  entangledHamiltonian st' = entangledHamiltonian st ∧
  oldAverageEnergy st' = of_int 0.
Proof.
  revert st. induction r as [v xs|x dx next IH]; intros st Hold Hall Hrun.
  - simpl in Hrun. by simplify_eq.
  - simpl in Hrun, Hall.
    apply bind_Done in Hrun as ([[e dx'] st1] & Hobj & Hrun).
    rewrite Hobj in Hall. apply Forall_cons in Hall as [He Hall].
    apply objective_policy in Hobj. rewrite Hold, He in Hobj.
    destruct Hobj as [Ho Hm].
    destruct (IH e dx' st1) as [Hm' Ho']; [congruence|done|done|].
    split; congruence.
Qed.

(** The comparison is taken irreflexive and transitive, as [<] on doubles
    is. *)
Hypothesis ltb_irrefl : ∀ a : D, (a <? a)%dbl = false.
Hypothesis ltb_trans :
  ∀ a b c : D, (a <? b)%dbl = true → (b <? c)%dbl = true → (a <? c)%dbl = true.

(** X25: at the end of an optimizer run the stored best average is below
    or equal to the one the run started with, and no average returned
    during the run is below it.  A later, worse call never replaces a
    recorded one. *)
Lemma run_keeps_best_average (this : MC_VQE D)
    (entangler : CompositeInstruction D) (r : OptRun D)
    (st st' : ObjectiveState D) (value : D) (params : list D) :
  run_optimizer depth_of this entangler r st = Done (value, params, st') →
  ((oldAverageEnergy st' <? oldAverageEnergy st)%dbl = true ∨
   oldAverageEnergy st' = oldAverageEnergy st) ∧
  Forall (λ e, (e <? oldAverageEnergy st')%dbl = false)
         (objective_values depth_of this entangler r st).
Proof.
  revert st. induction r as [v xs|x dx next IH]; intros st Hrun.
  - simpl in Hrun. simplify_eq. split; [by right|constructor].
  - simpl in Hrun |- *.
    apply bind_Done in Hrun as ([[e dx'] st1] & Hobj & Hrun).
    rewrite Hobj. destruct (IH e dx' st1 Hrun) as [Hmono Hall].
    apply objective_policy in Hobj.
    destruct (dltb e (oldAverageEnergy st)) eqn:He; destruct Hobj as [Ho Hm].
    + rewrite Ho in Hmono. split.
      * left. destruct Hmono as [Hlt| ->]; [by eapply ltb_trans|done].
      * constructor; [|done].
        destruct Hmono as [Hlt| ->]; [|apply ltb_irrefl].
        destruct (dltb e (oldAverageEnergy st')) eqn:He'; [|done].
        pose proof (ltb_trans _ _ _ He' Hlt) as Hcontra.
        by rewrite ltb_irrefl in Hcontra.
    + rewrite Ho in Hmono. split; [done|].
      constructor; [|done].
      destruct Hmono as [Hlt| ->]; [|done].
      destruct (dltb e (oldAverageEnergy st')) eqn:He'; [|done].
      by rewrite (ltb_trans _ _ _ He' Hlt) in He.
Qed.
End BestSoFar.

(** The comparison [<] of doubles is irreflexive and transitive. *)
Lemma SFcompare_refl (x : spec_float) :
  SFcompare x x = Some Eq ∨ SFcompare x x = None.
Proof.
  destruct x as [s|s| |s m e]; simpl; auto.
  - destruct s; auto.
  - left. rewrite Z.compare_refl.
    change (Pos.compare_cont Eq m m) with (Pos.compare m m).
    rewrite Pos.compare_refl. by destruct s.
Qed.

Lemma binary64_ltb_irrefl (a : float) : (a <? a)%dbl = false.
Proof.
  change ((a <? a)%float = false). rewrite ltb_spec. unfold SFltb.
  by destruct (SFcompare_refl (Prim2SF a)) as [-> | ->].
Qed.

Lemma SFltb_trans (x y z : spec_float) :
  SFltb x y = true → SFltb y z = true → SFltb x z = true.
Proof.
  unfold SFltb, SFcompare.
  destruct x as [[]|[]| |[] m1 e1], y as [[]|[]| |[] m2 e2],
           z as [[]|[]| |[] m3 e3]; try done;
    change (Pos.compare_cont Eq ?a ?b) with (Pos.compare a b);
    destruct (Z.compare_spec e1 e2), (Z.compare_spec e2 e3),
             (Z.compare_spec e1 e3); try done; try lia;
    destruct (Pos.compare_spec m1 m2), (Pos.compare_spec m2 m3),
             (Pos.compare_spec m1 m3); try done; lia.
Qed.

Lemma binary64_ltb_trans (a b c : float) :
  (a <? b)%dbl = true → (b <? c)%dbl = true → (a <? c)%dbl = true.
Proof.
  change ((a <? b)%float = true → (b <? c)%float = true →
          (a <? c)%float = true).
  rewrite !ltb_spec. apply SFltb_trans.
Qed.

(** ** The reference matrix on the ring *)

Lemma ring_neighbour_sym (n A B : Z) :
  ring_neighbour n A B → ring_neighbour n B A.
Proof. unfold ring_neighbour. lia. Qed.

Lemma ring_neighbour_distinct (n A B : Z) :
  2 ≤ n → ring_neighbour n A B → A ≠ B.
Proof. unfold ring_neighbour. lia. Qed.

(** On a ring of at least two sites, each site has the two neighbours of
    the ring. *)
Lemma pairs_ring (n A : Z) :
  2 ≤ n → 0 ≤ A < n →
  ∃ b1 b2,
    vget (pairs n true) A = Done [b1; b2] ∧
    ring_neighbour n A b1 ∧ ring_neighbour n A b2 ∧
    ∀ B, ring_neighbour n A B → B = b1 ∨ B = b2.
Proof.
  intros Hn HA. rewrite pairs_lookup by done. rewrite andb_true_r.
  unfold ring_neighbour.
  destruct (Z.eqb_spec A 0) as [->|H0].
  { exists (0 + 1), (n - 1). split; [done|]. repeat split; lia. }
  destruct (Z.eqb_spec A (n - 1)) as [->|Hl].
  { exists (n - 1 - 1), 0. split; [done|]. repeat split; lia. }
  exists (A - 1), (A + 1). split; [done|]. repeat split; lia.
Qed.

Section EigenShapes.
Context {D : Type} `{Scalar D}.

Lemma mdims_zip_with (f : list D → list D → list D) (a b : matrix D)
    (r c : Z) :
  (∀ u v, Z.of_nat (length u) = r → Z.of_nat (length v) = r →
          Z.of_nat (length (f u v)) = r) →
  mdims a r c → mdims b r c → mdims (zip_with f a b) r c.
Proof.
  intros Hf [Ha Halla] [Hb Hallb]. split.
  - rewrite length_zip_with. lia.
  - clear Ha Hb. revert b Hallb.
    induction Halla as [|u a Hu Halla IH]; intros [|v b] Hallb; simpl;
      try constructor.
    + inversion Hallb; subst. by apply Hf.
    + inversion Hallb; subst. by apply IH.
Qed.

Lemma mdims_fmap (f : list D → list D) (a : matrix D) (r c : Z) :
  (∀ u, Z.of_nat (length u) = r → Z.of_nat (length (f u)) = r) →
  mdims a r c → mdims (f <$> a) r c.
Proof.
  intros Hf [Ha Hall]. split; [by rewrite length_fmap|].
  apply Forall_fmap. eapply Forall_impl; [done|]. intros u Hu. by apply Hf.
Qed.

Lemma mdims_madd (a b : matrix D) (r c : Z) :
  mdims a r c → mdims b r c → mdims (madd a b) r c.
Proof.
  apply mdims_zip_with. intros u v Hu Hv. unfold vadd.
  rewrite length_zip_with. lia.
Qed.

Lemma mdims_msub (a b : matrix D) (r c : Z) :
  mdims a r c → mdims b r c → mdims (msub a b) r c.
Proof.
  apply mdims_zip_with. intros u v Hu Hv. unfold vsub.
  rewrite length_zip_with. lia.
Qed.

Lemma mdims_mdivs (a : matrix D) (x : D) (r c : Z) :
  mdims a r c → mdims (mdivs a x) r c.
Proof.
  apply mdims_fmap. intros u Hu. unfold vdivs. by rewrite length_fmap.
Qed.

Lemma vinc_total (v : list D) (n A : Z) (x : D) :
  Z.of_nat (length v) = n → 0 ≤ A < n →
  ∃ v', vinc v A x = Done v' ∧ Z.of_nat (length v') = n.
Proof.
  intros Hv HA. unfold vinc.
  destruct (vget_total v A) as [a ->]; [lia|]. rewrite bind_Done_l.
  destruct (vset_total v A (a + x)%dbl) as [v' Hv']; [lia|].
  exists v'. split; [done|]. apply length_vset in Hv'. lia.
Qed.
End EigenShapes.

(** One step of a run that is known to complete: the access at the head of
    the goal is in range by the shapes in the context. *)
Ltac total_step n :=
  rewrite ?bind_Done_l;
  lazymatch goal with
  | |- ∃ _, (mrow ?m ?i ≫= _) = _ ∧ _ =>
      let r := fresh "row" in
      lazymatch goal with
      | Hd : mdims m n ?c |- _ =>
          destruct (mrow_total m n c i Hd) as (r & -> & _); [lia|]
      end
  | |- ∃ _, (vinc ?v ?i ?x ≫= _) = _ ∧ _ =>
      let v' := fresh "v" in
      let Hv := fresh "Hv" in
      destruct (vinc_total v n i x) as (v' & -> & Hv); [assumption|lia|]
  | |- ∃ _, (vget ?v ?i ≫= _) = _ ∧ _ =>
      let a := fresh "a" in
      destruct (vget_total v i) as (a & ->); [lia|]
  | |- ∃ _, (mset ?m ?i ?j ?x ≫= _) = _ ∧ _ =>
      let m' := fresh "m" in
      let Hm := fresh "Hm" in
      let Hd := fresh "Hd" in
      destruct (mset_total m n n i j x) as [m' Hm]; [assumption|lia|lia|];
      assert (mdims m' n n) as Hd by (eapply mset_dims; eassumption);
      rewrite Hm
  | |- ∃ _, (mget ?m ?i ?j ≫= _) = _ ∧ _ =>
      let a := fresh "a" in
      destruct (mget_total m n n i j) as (a & ->); [assumption|lia|lia|]
  end.

Section RingBuilder.
Context {D : Type} `{Scalar D}.
Context (pow : D → D → D).
Context (n c : Z) (dipoleSum dipoleDiff dT cm : matrix D).
Hypothesis ring : 2 ≤ n.
Hypothesis dims_sum : mdims dipoleSum n c.
Hypothesis dims_diff : mdims dipoleDiff n c.
Hypothesis dims_T : mdims dT n c.
Hypothesis dims_com : mdims cm n c.

Lemma xx_entry_total (A B : Z) :
  0 ≤ A < n → 0 ≤ B < n → ∃ v, xx_entry pow dT cm A B = Done v.
Proof.
  intros HA HB. unfold xx_entry.
  destruct (mrow_total dT n c A) as (tA & -> & _); [done..|].
  destruct (mrow_total dT n c B) as (tB & -> & _); [done..|].
  destruct (mrow_total cm n c A) as (cA & -> & _); [done..|].
  destruct (mrow_total cm n c B) as (cB & -> & _); [done..|].
  rewrite !bind_Done_l. eauto.
Qed.

(** One pair of coupled sites in range: the pair loop completes, keeps the
    shapes, and of [XX_AB] it writes the entry of the pair alone. *)
Lemma aiem_pair_total (A B : Z) (s : AIEM D) :
  0 ≤ A < n → 0 ≤ B < n → aiem_dims n s →
  ∃ s',
    aiem_pair pow dipoleSum dipoleDiff dT cm A B s = Done s' ∧
    aiem_dims n s' ∧
    ∀ i j, mget (XX_AB s') i j =
           if decide (i = A ∧ j = B) then xx_entry pow dT cm A B
           else mget (XX_AB s) i j.
Proof.
  intros HA HB (HX & HZ & HXX & HXZ & HZX & HZZ).
  unfold aiem_pair, xx_entry.
  do 4 total_step n.
  destruct (mrow_total dT n c A) as (tA & HtA & _); [done..|].
  rewrite HtA.
  do 3 total_step n.
  do 2 total_step n.
  destruct (mrow_total dT n c B) as (tB & HtB & _); [done..|].
  rewrite ?bind_Done_l, HtB.
  total_step n.
  do 4 total_step n.
  rewrite ?bind_Done_l.
  rewrite (mget_mset _ _ _ _ _ A B Hm), decide_True by done.
  rewrite (mget_mset _ _ _ _ _ A B Hm0), decide_True by done.
  rewrite (mget_mset _ _ _ _ _ A B Hm1), decide_True by done.
  rewrite (mget_mset _ _ _ _ _ A B Hm2), decide_True by done.
  rewrite !bind_Done_l. eexists. split; [done|]. split; [done|].
  intros i j. cbn [XX_AB]. rewrite (mget_mset _ _ _ _ _ i j Hm).
  by case_decide.
Qed.
#[local] Instance ring_neighbour_dec (m A B : Z) : Decision (ring_neighbour m A B).
Proof. unfold ring_neighbour. apply _. Defined.

(** One site of the ring: the loop over its two neighbours completes and
    writes, of [XX_AB], the entries of the site with its neighbours. *)
Lemma aiem_site_total (A : Z) (s : AIEM D) :
  0 ≤ A < n → aiem_dims n s →
  ∃ s',
    aiem_site pow dipoleSum dipoleDiff dT cm (pairs n true) A s = Done s' ∧
    aiem_dims n s' ∧
    ∀ i j, mget (XX_AB s') i j =
           if decide (i = A ∧ ring_neighbour n A j)
           then xx_entry pow dT cm A j
           else mget (XX_AB s) i j.
Proof.
  intros HA Hs. unfold aiem_site.
  destruct (pairs_ring n A ring HA) as (b1 & b2 & -> & Hb1 & Hb2 & Hnb).
  rewrite bind_Done_l, foldM_cons.
  destruct (aiem_pair_total A b1 s) as (s1 & -> & Hs1 & Hxx1);
    [done|unfold ring_neighbour in Hb1; lia|done|].
  rewrite bind_Done_l, foldM_cons.
  destruct (aiem_pair_total A b2 s1) as (s2 & -> & Hs2 & Hxx2);
    [done|unfold ring_neighbour in Hb2; lia|done|].
  rewrite bind_Done_l. cbn [foldM]. rewrite bind_Done_l.
  destruct Hs2 as (HX & HZ & HXX & HXZ & HZX & HZZ).
  destruct (vget_total (Z_A s2) A) as [z ->]; [lia|].
  destruct (vget_total (X_A s2) A) as [x ->]; [lia|].
  rewrite !bind_Done_l. eexists. split; [done|]. split; [done|].
  intros i j. cbn [XX_AB]. rewrite Hxx2, Hxx1.
  destruct (decide (i = A ∧ j = b2)) as [[-> ->]|H2].
  { by rewrite decide_True. }
  destruct (decide (i = A ∧ j = b1)) as [[-> ->]|H1].
  { by rewrite decide_True. }
  rewrite decide_False; [done|].
  intros [-> Hj]. destruct (Hnb j Hj); naive_solver.
Qed.

(** The loop over the sites of the ring: when it has handled the sites below
    [A], [XX_AB] holds the couplings of these sites with their neighbours
    and is zero elsewhere. *)
Lemma aiem_sites_total (s0 : AIEM D) :
  aiem_dims n s0 →
  ∃ s,
    foldM (aiem_site pow dipoleSum dipoleDiff dT cm (pairs n true))
          (range 0 n) s0 = Done s ∧
    aiem_dims n s ∧
    ∀ i j, mget (XX_AB s) i j =
           if decide (ring_neighbour n i j) then xx_entry pow dT cm i j
           else mget (XX_AB s0) i j.
Proof.
  intros Hs0.
  destruct (foldM_range_total
    (λ A s, aiem_dims n s ∧
            ∀ i j, mget (XX_AB s) i j =
                   if decide (i < A ∧ ring_neighbour n i j)
                   then xx_entry pow dT cm i j
                   else mget (XX_AB s0) i j)
    (aiem_site pow dipoleSum dipoleDiff dT cm (pairs n true)) 0 n s0)
    as (s & Hrun & Hs & Hxx); [lia| | |].
  - split; [done|]. intros i j. rewrite decide_False; [done|].
    unfold ring_neighbour. lia.
  - intros A s HA [Hs Hxx].
    destruct (aiem_site_total A s) as (s' & Hrun & Hs' & Hxx'); [done..|].
    exists s'. split; [done|]. split; [done|].
    intros i j. rewrite Hxx', Hxx.
    destruct (decide (i = A ∧ ring_neighbour n A j)) as [[-> Hj]|Hn1].
    { by rewrite decide_True by (split; [lia|done]). }
    destruct (decide (i < A ∧ ring_neighbour n i j)) as [[Hi Hj]|Hn2].
    { by rewrite decide_True by (split; [lia|done]). }
    rewrite decide_False; [done|]. intros [Hi Hj].
    destruct (decide (i = A)) as [->|Hne]; [by apply Hn1|].
    apply Hn2. split; [lia|done].
  - exists s. split; [done|]. split; [done|].
    intros i j. rewrite Hxx.
    repeat case_decide; try done; unfold ring_neighbour in *; lia.
Qed.
End RingBuilder.

Section RingMatrix.
Context {D : Type} `{Scalar D}.
Context (n : Z) (s : AIEM D).
Hypothesis ring : 2 ≤ n.
Hypothesis shapes : aiem_dims n s.

Lemma minc_total (N : Z) (m : matrix D) (i j : Z) (x : D) :
  mdims m N N → 0 ≤ i < N → 0 ≤ j < N →
  ∃ m', minc m i j x = Done m' ∧ mdims m' N N ∧
        ∀ i' j', ¬ (i' = i ∧ j' = j) → mget m' i' j' = mget m i' j'.
Proof.
  intros Hm Hi Hj. unfold minc.
  destruct (mget_total m N N i j) as (a & ->); [done..|]. rewrite bind_Done_l.
  destruct (mset_total m N N i j (a + x)%dbl) as [m' Hm']; [done..|].
  exists m'. split; [done|]. split; [by eapply mset_dims|].
  intros i' j' Hne. rewrite (mget_mset _ _ _ _ _ i' j' Hm').
  by rewrite decide_False.
Qed.

Lemma mdec_total (N : Z) (m : matrix D) (i j : Z) (x : D) :
  mdims m N N → 0 ≤ i < N → 0 ≤ j < N →
  ∃ m', mdec m i j x = Done m' ∧ mdims m' N N ∧
        ∀ i' j', ¬ (i' = i ∧ j' = j) → mget m' i' j' = mget m i' j'.
Proof.
  intros Hm Hi Hj. unfold mdec.
  destruct (mget_total m N N i j) as (a & ->); [done..|]. rewrite bind_Done_l.
  destruct (mset_total m N N i j (a - x)%dbl) as [m' Hm']; [done..|].
  exists m'. split; [done|]. split; [by eapply mset_dims|].
  intros i' j' Hne. rewrite (mget_mset _ _ _ _ _ i' j' Hm').
  by rewrite decide_False.
Qed.

(** The loop "diagonal singles-singles" touches the diagonal only. *)
Lemma cis_diagonal_total (E_ref : D) (m : matrix D) :
  mdims m (n + 1) (n + 1) →
  ∃ m',
    foldM (λ A m,
             z ← vget (Z_A s) A;
             m ← mset m (A + 1) (A + 1) (E_ref - of_int 2 * z)%dbl;
             pairsA ← vget (pairs n true) A;
             foldM (λ B m,
                      zzAB ← mget (ZZ_AB s) A B;
                      zzBA ← mget (ZZ_AB s) B A;
                      mdec m (A + 1) (A + 1) (zzAB + zzBA)%dbl)
                   pairsA m)
          (range 0 n) m = Done m' ∧
    mdims m' (n + 1) (n + 1) ∧
    ∀ i j, i ≠ j → mget m' i j = mget m i j.
Proof.
  intros Hm. destruct shapes as (HX & HZ & HXX & HXZ & HZX & HZZ).
  apply (foldM_range_total
           (λ _ m', mdims m' (n + 1) (n + 1) ∧
                    ∀ i j, i ≠ j → mget m' i j = mget m i j)); [lia|done|].
  intros A m1 HA [Hd1 Hf1].
  destruct (pairs_ring n A ring HA) as (b1 & b2 & Hp & Hb1 & Hb2 & _).
  destruct (vget_total (Z_A s) A) as [z ->]; [lia|]. rewrite bind_Done_l.
  destruct (mset_total m1 (n + 1) (n + 1) (A + 1) (A + 1)
              (E_ref - of_int 2 * z)%dbl) as [m2 Hm2]; [done|lia|lia|].
  pose proof (mset_dims _ _ _ _ _ _ _ Hm2 Hd1) as Hd2.
  rewrite Hm2, bind_Done_l, Hp, bind_Done_l, !foldM_cons.
  unfold ring_neighbour in Hb1, Hb2.
  destruct (mget_total (ZZ_AB s) n n A b1) as [z1 ->]; [done|lia|lia|].
  destruct (mget_total (ZZ_AB s) n n b1 A) as [z1' ->]; [done|lia|lia|].
  rewrite !bind_Done_l.
  destruct (mdec_total (n + 1) m2 (A + 1) (A + 1) (z1 + z1')%dbl)
    as (m3 & -> & Hd3 & Hf3); [done|lia|lia|].
  rewrite bind_Done_l, foldM_cons.
  destruct (mget_total (ZZ_AB s) n n A b2) as [z2 ->]; [done|lia|lia|].
  destruct (mget_total (ZZ_AB s) n n b2 A) as [z2' ->]; [done|lia|lia|].
  rewrite !bind_Done_l.
  destruct (mdec_total (n + 1) m3 (A + 1) (A + 1) (z2 + z2')%dbl)
    as (m4 & -> & Hd4 & Hf4); [done|lia|lia|].
  rewrite bind_Done_l. exists m4. split; [done|]. split; [done|].
  intros i j Hij. rewrite Hf4, Hf3 by lia.
  rewrite (mget_mset _ _ _ _ _ i j Hm2), decide_False by lia.
  by apply Hf1.
Qed.

(** The loop "reference-singles off diagonal" makes row [0] and column [0]
    mirror each other and touches nothing else. *)
Lemma cis_reference_total (m : matrix D) :
  mdims m (n + 1) (n + 1) →
  ∃ m',
    foldM (λ A m,
             x ← vget (X_A s) A;
             m ← mset m (A + 1) 0 x;
             pairsA ← vget (pairs n true) A;
             m ← foldM (λ B m,
                          xzAB ← mget (XZ_AB s) A B;
                          zxBA ← mget (ZX_AB s) B A;
                          minc m (A + 1) 0 (half * (xzAB + zxBA))%dbl)
                       pairsA m;
             v ← mget m (A + 1) 0;
             mset m 0 (A + 1) v)
          (range 0 n) m = Done m' ∧
    mdims m' (n + 1) (n + 1) ∧
    (∀ A, 0 ≤ A < n → mget m' (A + 1) 0 = mget m' 0 (A + 1)) ∧
    (∀ i j, 1 ≤ i → 1 ≤ j → mget m' i j = mget m i j).
Proof.
  intros Hm. destruct shapes as (HX & HZ & HXX & HXZ & HZX & HZZ).
  destruct (foldM_range_total
    (λ A m', mdims m' (n + 1) (n + 1) ∧
             (∀ a, 0 ≤ a < A → mget m' (a + 1) 0 = mget m' 0 (a + 1)) ∧
             (∀ i j, 1 ≤ i → 1 ≤ j → mget m' i j = mget m i j))
    (λ A m,
       x ← vget (X_A s) A;
       m ← mset m (A + 1) 0 x;
       pairsA ← vget (pairs n true) A;
       m ← foldM (λ B m,
                    xzAB ← mget (XZ_AB s) A B;
                    zxBA ← mget (ZX_AB s) B A;
                    minc m (A + 1) 0 (half * (xzAB + zxBA))%dbl)
                 pairsA m;
       v ← mget m (A + 1) 0;
       mset m 0 (A + 1) v)
    0 n m) as (m' & Hrun & Hd & Hmirror & Hframe); [lia| | |].
  { split; [done|]. split; [intros; lia|done]. }
  { intros A m1 HA (Hd1 & Hmir1 & Hf1).
    destruct (pairs_ring n A ring HA) as (b1 & b2 & Hp & Hb1 & Hb2 & _).
    destruct (vget_total (X_A s) A) as [x ->]; [lia|]. rewrite bind_Done_l.
    destruct (mset_total m1 (n + 1) (n + 1) (A + 1) 0 x)
      as [m2 Hm2]; [done|lia|lia|].
    pose proof (mset_dims _ _ _ _ _ _ _ Hm2 Hd1) as Hd2.
    rewrite Hm2, bind_Done_l, Hp, bind_Done_l, !foldM_cons.
    unfold ring_neighbour in Hb1, Hb2.
    destruct (mget_total (XZ_AB s) n n A b1) as [z1 ->]; [done|lia|lia|].
    destruct (mget_total (ZX_AB s) n n b1 A) as [z1' ->]; [done|lia|lia|].
    rewrite !bind_Done_l.
    destruct (minc_total (n + 1) m2 (A + 1) 0 (half * (z1 + z1'))%dbl)
      as (m3 & -> & Hd3 & Hf3); [done|lia|lia|].
    rewrite bind_Done_l, foldM_cons.
    destruct (mget_total (XZ_AB s) n n A b2) as [z2 ->]; [done|lia|lia|].
    destruct (mget_total (ZX_AB s) n n b2 A) as [z2' ->]; [done|lia|lia|].
    rewrite !bind_Done_l.
    destruct (minc_total (n + 1) m3 (A + 1) 0 (half * (z2 + z2'))%dbl)
      as (m4 & -> & Hd4 & Hf4); [done|lia|lia|].
    rewrite !bind_Done_l. cbn [foldM]. rewrite bind_Done_l.
    destruct (mget_total m4 (n + 1) (n + 1) (A + 1) 0) as [v Hv];
      [done|lia|lia|].
    rewrite Hv, bind_Done_l.
    destruct (mset_total m4 (n + 1) (n + 1) 0 (A + 1) v)
      as [m5 Hm5]; [done|lia|lia|].
    exists m5. split; [done|]. split; [by eapply mset_dims|].
    assert (∀ i j, ¬ (i = A + 1 ∧ j = 0) → ¬ (i = 0 ∧ j = A + 1) →
                   mget m5 i j = mget m1 i j) as Hother.
    { intros i j H1 H2. rewrite (mget_mset _ _ _ _ _ i j Hm5).
      rewrite decide_False by done. rewrite Hf4, Hf3 by done.
      rewrite (mget_mset _ _ _ _ _ i j Hm2). by rewrite decide_False. }
    split.
    - intros a Ha. destruct (decide (a = A)) as [->|Hne].
      + rewrite !(mget_mset _ _ _ _ _ _ _ Hm5).
        rewrite decide_False, decide_True by lia. done.
      + rewrite !Hother by lia. apply Hmir1. lia.
    - intros i j Hi Hj. rewrite Hother by lia. by apply Hf1. }
  exists m'. split; [done|]. split; [done|]. split; [|done].
  intros A HA. apply Hmirror. lia.
Qed.

(** The loop "singles-singles off-diagonal" copies [XX_AB] for the pairs of
    neighbours and touches nothing else. *)
Lemma cis_singles_total (m : matrix D) :
  mdims m (n + 1) (n + 1) →
  ∃ m',
    foldM (λ A m,
             pairsA ← vget (pairs n true) A;
             foldM (λ B m,
                      xx ← mget (XX_AB s) A B;
                      mset m (A + 1) (B + 1) xx)
                   pairsA m)
          (range 0 n) m = Done m' ∧
    mdims m' (n + 1) (n + 1) ∧
    ∀ i j, mget m' i j =
           if decide (ring_neighbour n (i - 1) (j - 1))
           then mget (XX_AB s) (i - 1) (j - 1)
           else mget m i j.
Proof.
  intros Hm. destruct shapes as (HX & HZ & HXX & HXZ & HZX & HZZ).
  destruct (foldM_range_total
    (λ A m', mdims m' (n + 1) (n + 1) ∧
             ∀ i j, mget m' i j =
                    if decide (i - 1 < A ∧ ring_neighbour n (i - 1) (j - 1))
                    then mget (XX_AB s) (i - 1) (j - 1)
                    else mget m i j)
    (λ A m,
       pairsA ← vget (pairs n true) A;
       foldM (λ B m,
                xx ← mget (XX_AB s) A B;
                mset m (A + 1) (B + 1) xx)
             pairsA m)
    0 n m) as (m' & Hrun & Hd & Hget); [lia| | |].
  { split; [done|]. intros i j. rewrite decide_False; [done|].
    unfold ring_neighbour. lia. }
  { intros A m1 HA (Hd1 & Hget1).
    destruct (pairs_ring n A ring HA) as (b1 & b2 & Hp & Hb1 & Hb2 & Hnb).
    rewrite Hp, bind_Done_l, !foldM_cons.
    pose proof Hb1 as Hb1'. pose proof Hb2 as Hb2'.
    unfold ring_neighbour in Hb1', Hb2'.
    destruct (mget_total (XX_AB s) n n A b1) as [x1 Hx1]; [done|lia|lia|].
    rewrite Hx1, bind_Done_l.
    destruct (mset_total m1 (n + 1) (n + 1) (A + 1) (b1 + 1) x1)
      as [m2 Hm2]; [done|lia|lia|].
    pose proof (mset_dims _ _ _ _ _ _ _ Hm2 Hd1) as Hd2.
    rewrite Hm2, bind_Done_l, foldM_cons.
    destruct (mget_total (XX_AB s) n n A b2) as [x2 Hx2]; [done|lia|lia|].
    rewrite Hx2, bind_Done_l.
    destruct (mset_total m2 (n + 1) (n + 1) (A + 1) (b2 + 1) x2)
      as [m3 Hm3]; [done|lia|lia|].
    rewrite Hm3, bind_Done_l. cbn [foldM].
    exists m3. split; [done|]. split; [by eapply mset_dims|].
    intros i j. rewrite (mget_mset _ _ _ _ _ i j Hm3).
    rewrite (mget_mset _ _ _ _ _ i j Hm2), Hget1.
    destruct (decide (i = A + 1 ∧ j = b2 + 1)) as [[-> ->]|H2].
    { rewrite decide_True.
      - replace (A + 1 - 1) with A by lia.
        by replace (b2 + 1 - 1) with b2 by lia.
      - replace (A + 1 - 1) with A by lia.
        replace (b2 + 1 - 1) with b2 by lia. split; [lia|done]. }
    destruct (decide (i = A + 1 ∧ j = b1 + 1)) as [[-> ->]|H1].
    { rewrite decide_True.
      - replace (A + 1 - 1) with A by lia.
        by replace (b1 + 1 - 1) with b1 by lia.
      - replace (A + 1 - 1) with A by lia.
        replace (b1 + 1 - 1) with b1 by lia. split; [lia|done]. }
    destruct (decide (i - 1 < A ∧ ring_neighbour n (i - 1) (j - 1)))
      as [[Hi Hj]|Hn1].
    { by rewrite decide_True by (split; [lia|done]). }
    rewrite decide_False; [done|]. intros [Hi Hj].
    destruct (decide (i - 1 = A)) as [HiA|Hne].
    - rewrite HiA in Hj. destruct (Hnb _ Hj); [apply H1|apply H2]; lia.
    - apply Hn1. split; [lia|done]. }
  exists m'. split; [done|]. split; [done|].
  intros i j. rewrite Hget.
  destruct (decide (ring_neighbour n (i - 1) (j - 1))) as [Hnb|Hnb].
  - rewrite decide_True; [done|]. split; [|done].
    unfold ring_neighbour in Hnb. lia.
  - by rewrite decide_False by naive_solver.
Qed.
End RingMatrix.

Section RingEntries.
Context {D : Type} `{Scalar D}.
Context (pow : D → D → D).
Context (n : Z) (dT cm : matrix D) (s : AIEM D).
Hypothesis ring : 2 ≤ n.
Hypothesis shapes : aiem_dims n s.
Hypothesis couplings :
  ∀ i j, mget (XX_AB s) i j =
         if decide (ring_neighbour n i j) then xx_entry pow dT cm i j
         else mget (mzero n n) i j.

(** On the ring the reference matrix is built; the entry of two neighbours
    is their coupling, in the order of the entry, and the other entries are
    mirrored. *)
Lemma CISMatrix_ring_entries :
  ∃ cis,
    CISMatrix n (n + 1) true s = Done cis ∧
    mdims cis (n + 1) (n + 1) ∧
    (∀ A B, ring_neighbour n A B →
       mget cis (A + 1) (B + 1) = xx_entry pow dT cm A B) ∧
    (∀ i j, 0 ≤ i ≤ n → 0 ≤ j ≤ n → ¬ ring_neighbour n (i - 1) (j - 1) →
       mget cis i j = mget cis j i).
Proof.
  unfold CISMatrix.
  destruct (Z.ltb_spec (n + 1) 0); [lia|]. rewrite bind_Done_l.
  set (E_ref := (E s + vsum (Z_A s) + half * msum (ZZ_AB s))%dbl).
  pose proof (mzero_dims (D:=D) (n + 1) (n + 1) ltac:(lia) ltac:(lia)) as Hd0.
  destruct (mset_total (mzero (n + 1) (n + 1)) _ _ 0 0 E_ref Hd0)
    as [m1 Hm1]; [lia..|].
  pose proof (mset_dims _ _ _ _ _ _ _ Hm1 Hd0) as Hd1.
  rewrite Hm1, bind_Done_l.
  destruct (cis_diagonal_total n s ring shapes E_ref m1 Hd1)
    as (m2 & -> & Hd2 & Hf2).
  rewrite bind_Done_l.
  destruct (cis_reference_total n s ring shapes m2 Hd2)
    as (m3 & -> & Hd3 & Hmirror & Hf3).
  rewrite bind_Done_l.
  destruct (cis_singles_total n s ring shapes m3 Hd3)
    as (cis & -> & Hd & Hget).
  exists cis. split; [done|]. split; [done|].
  (* an entry off the diagonal, away from row and column 0, that is not a
     pair of neighbours is still zero *)
  assert (∀ i j, 1 ≤ i ≤ n → 1 ≤ j ≤ n → i ≠ j →
                 mget m3 i j = Done d0) as Hzero.
  { intros i j Hi Hj Hij. rewrite Hf3, Hf2 by lia.
    rewrite (mget_mset _ _ _ _ _ i j Hm1), decide_False by lia.
    apply mget_mzero; lia. }
  split.
  - intros A B Hnb. rewrite Hget.
    replace (A + 1 - 1) with A by lia. replace (B + 1 - 1) with B by lia.
    rewrite decide_True by done. by rewrite couplings, decide_True.
  - intros i j Hi Hj Hnb.
    destruct (decide (i = j)) as [->|Hij]; [done|].
    rewrite !Hget. rewrite decide_False by done.
    rewrite decide_False by (intros Hnb'; by apply Hnb, ring_neighbour_sym).
    destruct (decide (i = 0)) as [->|Hi0].
    { replace j with ((j - 1) + 1) by lia. symmetry. apply Hmirror. lia. }
    destruct (decide (j = 0)) as [->|Hj0].
    { replace i with ((i - 1) + 1) by lia. apply Hmirror. lia. }
    rewrite !Hzero by lia. done.
Qed.
End RingEntries.

Section RingReference.
Context {D : Type} `{Scalar D}.
Context (pow : D → D → D).

(** X16: on the ring, for every data set of [n >= 2] sites, the builder
    completes and the reference matrix it hands to the eigensolver is built,
    in doubles as they round.  The entry [(A + 1, B + 1)] of two neighbours
    holds the coupling of their transition dipoles evaluated for [(A, B)],
    its mirror the one evaluated for [(B, A)]; every other pair of mirrored
    entries is equal.  So the matrix is symmetric exactly where the two
    evaluations of the coupling agree. *)
Theorem reference_matrix_ring_entries (n : Z) (d : SiteData D) :
  2 ≤ n →
  site_data_dims n d →
  ∃ s cis,
    aiem pow n true d = Done s ∧
    CISMatrix n (n + 1) true s = Done cis ∧
    mdims cis (n + 1) (n + 1) ∧
    (∀ A B, ring_neighbour n A B →
       mget cis (A + 1) (B + 1) = xx_entry pow (dipoleT d) (com d) A B) ∧
    (∀ i j, 0 ≤ i ≤ n → 0 ≤ j ≤ n → ¬ ring_neighbour n (i - 1) (j - 1) →
       mget cis i j = mget cis j i).
Proof.
  intros Hn (Hgs & Hes & HdGS & HdES & HdT & Hcom). unfold aiem.
  set (dipoleSum := mdivs (madd (dipoleGS d) (dipoleES d)) (of_int 2)).
  set (dipoleDiff := mdivs (msub (dipoleGS d) (dipoleES d)) (of_int 2)).
  set (s0 := mkAIEM _ _ _ _ _ _ _ _).
  assert (aiem_dims n s0) as Hs0.
  { pose proof (mzero_dims (D:=D) n n ltac:(lia) ltac:(lia)) as Hz.
    split; [simpl; rewrite length_vzero; lia|].
    split; [simpl; unfold vdivs, vsub;
            rewrite length_fmap, length_zip_with; lia|].
    simpl. done. }
  destruct (aiem_sites_total pow n 3 dipoleSum dipoleDiff (dipoleT d) (com d)
              Hn) with (s0 := s0) as (s & -> & Hs & Hxx);
    [by apply mdims_mdivs, mdims_madd|by apply mdims_mdivs, mdims_msub|
     done..|].
  rewrite bind_Done_l.
  destruct (CISMatrix_ring_entries pow n (dipoleT d) (com d)
    (mkAIEM (E s) (X_A s) (Z_A s) (XX_AB s) (XZ_AB s) (ZX_AB s) (ZZ_AB s)
            (hamiltonian s ++ [PauliOperator [] (E s)])))
    as (cis & Hcis & Hd & Hnb & Hsym); [done|done|exact Hxx|].
  eauto 10.
Qed.
End RingReference.

(** The theorem on two sites at distance [1]. *)
Lemma reference_matrix_ring_entries_witness :
  ∃ s cis,
    aiem pow_cube 2 true unit_distance_sites = Done s ∧
    CISMatrix 2 (2 + 1) true s = Done cis ∧
    mdims cis (2 + 1) (2 + 1) ∧
    (∀ A B, ring_neighbour 2 A B →
       mget cis (A + 1) (B + 1) =
         xx_entry pow_cube (dipoleT unit_distance_sites)
           (com unit_distance_sites) A B) ∧
    (∀ i j, 0 ≤ i ≤ 2 → 0 ≤ j ≤ 2 → ¬ ring_neighbour 2 (i - 1) (j - 1) →
       mget cis i j = mget cis j i).
Proof.
  apply (reference_matrix_ring_entries pow_cube 2 unit_distance_sites).
  - lia.
  - repeat split; repeat constructor.
Defined.

(** The two evaluations need not agree: the entries [(1, 2)] and [(2, 1)]
    of the reference matrix come from two evaluations of [twoBodyH], which
    multiply [3.0] by one dipole projection and then by the other, in the
    two orders.  On the same two sites they differ in the last place.
    (The entries [(A + 1, 0)] and [(0, A + 1)] are copies of each other.) *)
Lemma ring_mirrored_entries_round_apart :
  ∃ s cis,
    aiem pow_cube 2 true unit_distance_sites = Done s ∧
    CISMatrix 2 3 true s = Done cis ∧
    mget cis 1 2 = Done (-0x1.eb851eb851ebap-5)%float ∧
    mget cis 2 1 = Done (-0x1.eb851eb851eb8p-5)%float ∧
    mget cis 1 0 = mget cis 0 1.
Proof.
  eexists _, _. split; [vm_compute; reflexivity|].
  split; [vm_compute; reflexivity|].
  repeat split.
Qed.

(** ** Two whole runs *)

(** [execute] on two states of energies [1.0] and [2.0]: the optimizer gets
    the average [1.5], and the matrix handed to the eigensolver has the
    interference entries and a zero diagonal. *)
Lemma execute_leaves_zero_diagonal :
  ∃ info m,
    execute nInstructions identity_solver two_sites_run 9%float =
      Done (info, m) ∧
    opt_average_energy info = 1.5%float ∧
    m = [[0; 0x1.fffffffffffffp+0]; [0x1.fffffffffffffp+0; 0]]%float.
Proof. eexists _, _. split; [vm_compute; reflexivity|]. split; reflexivity. Qed.

(** The overload of [execute] at fixed parameters, on the same object, puts
    the two energies on the diagonal. *)
Lemma execute_at_records_every_energy :
  ∃ spectrum,
    execute_at identity_solver two_sites_run [] =
      Done (1.5%float,
            [[1; 0x1.fffffffffffffp+0]; [0x1.fffffffffffffp+0; 2]]%float,
            spectrum).
Proof. eexists. vm_compute. reflexivity. Qed.

(** ** Preprocessing never ends in a report *)

Lemma no_report_not_fatal {A : Type} (o : outcome A) : no_report o → not_fatal o.
Proof. by destruct o. Qed.

Lemma not_fatal_bind {A B : Type} (m : outcome A) (f : A → outcome B) :
  not_fatal m → (∀ a, not_fatal (f a)) → not_fatal (m ≫= f).
Proof. destruct m; simpl; auto. Qed.

Lemma not_fatal_foldM {A St : Type} (f : A → St → outcome St) (l : list A)
    (s : St) :
  (∀ a t, not_fatal (f a t)) → not_fatal (foldM f l s).
Proof.
  intros Hf. revert s. induction l as [|a l IH]; intros s; simpl; [done|].
  apply not_fatal_bind; auto.
Qed.

Lemma not_fatal_after_colon (line : string) : not_fatal (after_colon line).
Proof. unfold after_colon, substr. by destruct (_ <=? _). Qed.

Section NeverFatal.
Context {D : Type} `{Scalar D}.
Context (pow : D → D → D) (acos : D → D) (strtod : string → option (D * bool)).
Context (SelfAdjointEigenSolver : matrix D → list D * matrix D).
Context (ANGSTROM2BOHR DEBYE2AU : D).

Lemma not_fatal_stod (s : string) : not_fatal (stod strtod s).
Proof.
  unfold stod. destruct s; [done|]. by destruct (strtod _) as [[? []]|].
Qed.

Lemma not_fatal_read_components (m : matrix D) (A : Z) (tmp : string) :
  not_fatal (read_components strtod m A tmp).
Proof.
  unfold read_components. apply not_fatal_bind; [|by intros [? ?]].
  apply not_fatal_foldM. intros comp [xyz m'].
  apply not_fatal_bind; [apply not_fatal_stod|]. intros v.
  apply not_fatal_bind; [apply no_report_not_fatal, no_report_mset|done].
Qed.

Lemma not_fatal_read_site (A : Z) (st : ifstream * string * SiteData D) :
  not_fatal (read_site strtod A st).
Proof.
  destruct st as [[file line] d]. unfold read_site.
  repeat lazymatch goal with
  | |- not_fatal (let '(_, _) := getline ?f ?l in _) =>
      destruct (getline f l) as [? ?]
  | |- not_fatal (after_colon ?l ≫= _) =>
      apply not_fatal_bind; [apply not_fatal_after_colon|intros ?]
  | |- not_fatal (stod _ ?s ≫= _) =>
      apply not_fatal_bind; [apply not_fatal_stod|intros ?]
  | |- not_fatal (vset ?v ?i ?a ≫= _) =>
      apply not_fatal_bind; [apply no_report_not_fatal, no_report_vset|intros ?]
  | |- not_fatal (read_components _ ?m ?i ?t ≫= _) =>
      apply not_fatal_bind; [apply not_fatal_read_components|intros ?]
  end.
  done.
Qed.

(** The loader never ends in "Cannot access data file.", whatever the file
    system holds. *)
Lemma not_fatal_read_data (fs : FileSystem) (this : MC_VQE D) :
  not_fatal (read_data strtod fs this).
Proof.
  unfold read_data. apply not_fatal_bind; [by destruct (_ <? _)|]. intros _.
  rewrite not_fatal_read_header.
  apply not_fatal_bind; [|by intros [[? ?] ?]].
  apply not_fatal_foldM. intros. apply not_fatal_read_site.
Qed.

Lemma no_report_statePreparationAngles (this : MC_VQE D) (C : matrix D) :
  no_report (statePreparationAngles acos this C).
Proof.
  unfold statePreparationAngles, mcol, segment. no_report_steps.
Qed.

(** X12: preprocessing never ends in the report "Cannot access data file."
    (its only call of [xacc::error]), for any file system and any object:
    it completes, throws from [std::stod] or runs out of the bounds. *)
Lemma not_fatal_preProcessing (fs : FileSystem) (this : MC_VQE D) :
  not_fatal (preProcessing pow acos strtod SelfAdjointEigenSolver
               ANGSTROM2BOHR DEBYE2AU fs this).
Proof.
  unfold preProcessing.
  apply not_fatal_bind; [apply not_fatal_read_data|]. intros d.
  apply not_fatal_bind; [apply no_report_not_fatal, no_report_aiem|].
  intros s.
  apply not_fatal_bind; [apply no_report_not_fatal, no_report_CISMatrix|].
  intros cis.
  apply not_fatal_bind;
    [apply no_report_not_fatal, no_report_statePreparationAngles|done].
Qed.
End NeverFatal.

(** ** The number of trainable parameters, for any number of sites *)

Section ParameterCount.
Context {D : Type} `{Scalar D}.

Lemma nVariables_entanglerGate (control target paramCounter : Z)
    (c : CompositeInstruction D) :
  nVariables (entanglerGate control target paramCounter c) = nVariables c + 4.
Proof.
  unfold entanglerGate, nVariables. simpl. rewrite !length_app. simpl. lia.
Qed.

Lemma nVariables_rotations (l : list Z) (c : CompositeInstruction D)
    (paramCounter : Z) :
  nVariables
    (foldl (λ '(c, paramCounter) i,
              let x := paramLetter +:+ to_string paramCounter in
              let c := addVariable c x in
              let c := addInstruction c (Ry (to_size_t i) (PVar x)) in
              (c, paramCounter + 1))
           (c, paramCounter) l).1 =
  nVariables c + Z.of_nat (length l).
Proof.
  revert c paramCounter. induction l as [|i l IH]; intros c paramCounter.
  - simpl. lia.
  - cbn [foldl]. rewrite IH. unfold nVariables. simpl.
    rewrite length_app. simpl. lia.
Qed.

Lemma nVariables_blocks (l : list Z) (st : CompositeInstruction D * Z) :
  nVariables
    (foldl (λ '(c, paramCounter) i,
              let control := to_size_t i in
              let target := to_size_t (i + 1) in
              (entanglerGate control target paramCounter c,
               paramCounter + NPARAMSENTANGLER))
           st l).1 =
  nVariables st.1 + 4 * Z.of_nat (length l).
Proof.
  revert st. induction l as [|i l IH]; intros [c paramCounter].
  - simpl. lia.
  - cbn [foldl]. rewrite IH. cbn [fst].
    rewrite nVariables_entanglerGate. simpl length. lia.
Qed.

(** The entangler exposes one parameter per site, four per block of the two
    brick-wall layers, and four more on the ring. *)
Lemma nVariables_entanglerCircuit (this : MC_VQE D) :
  let n := nChromophores this in
  nVariables (entanglerCircuit this) =
    Z.of_nat (length (range 0 n))
    + 4 * Z.of_nat (length (range_step2 0 n))
    + 4 * Z.of_nat (length (range_step2 1 (n - 1)))
    + (if isCyclic this then 4 else 0).
Proof.
  intros n. unfold entanglerCircuit. fold n.
  pose proof (nVariables_rotations (range 0 n)
                (createComposite "mcvqeCircuit") 0) as Hrot.
  destruct (foldl _ (createComposite "mcvqeCircuit", 0) (range 0 n))
    as [c1 p1]. simpl in Hrot.
  cbn [foldl].
  pose proof (nVariables_blocks (range_step2 0 (n - 0)) (c1, p1)) as H0.
  destruct (foldl _ (c1, p1) (range_step2 0 (n - 0))) as [c2 p2].
  pose proof (nVariables_blocks (range_step2 1 (n - 1)) (c2, p2)) as H1.
  destruct (foldl _ (c2, p2) (range_step2 1 (n - 1))) as [c3 p3].
  simpl in H0, H1. replace (n - 0) with n in H0 by lia.
  change (nVariables (createComposite "mcvqeCircuit")) with 0 in Hrot.
  destruct (isCyclic this); rewrite ?nVariables_entanglerGate; lia.
Qed.
End ParameterCount.

(** * Further properties *)

(** ** The entangler, for any number of sites *)

Lemma foldl_inv {A B : Type} (P : B → Prop) (f : B → A → B) (l : list A) (b : B) :
  P b → (∀ a s, a ∈ l → P s → P (f s a)) → P (foldl f b l).
Proof.
  revert b. induction l as [|a l IH]; intros b Hb Hstep; simpl; [done|].
  apply IH.
  - apply Hstep; [left|done].
  - intros a' s Ha'. apply Hstep. by right.
Qed.

Lemma to_size_t_bounds (i : Z) : 0 ≤ i → 0 ≤ to_size_t i ≤ i.
Proof.
  intros Hi. unfold to_size_t.
  pose proof (Z.mod_pos_bound i (2 ^ 64) ltac:(lia)).
  pose proof (Z.mod_le i (2 ^ 64) ltac:(lia) ltac:(lia)). lia.
Qed.

Lemma to_size_t_small (i : Z) : 0 ≤ i < 2 ^ 64 → to_size_t i = i.
Proof. intros. unfold to_size_t. apply Z.mod_small. lia. Qed.

Section EntanglerShape.
Context {D : Type}.

(** The loops of the entangler builder keep a property of the circuit and
    the parameter counter that each of their steps keeps. *)

Lemma entanglerCircuit_inv (P : CompositeInstruction D * Z → Prop)
    (Q : CompositeInstruction D → Prop) (this : MC_VQE D) :
  let n := nChromophores this in
  P (createComposite "mcvqeCircuit", 0) →
  (∀ c pc i, i ∈ range 0 n → P (c, pc) →
     P (addInstruction (addVariable c (variable_name pc))
          (Ry (to_size_t i) (PVar (variable_name pc))), pc + 1)) →
  (∀ c pc i, i ∈ range_step2 0 n ∨ i ∈ range_step2 1 (n - 1) → P (c, pc) →
     P (entanglerGate (to_size_t i) (to_size_t (i + 1)) pc c,
        pc + NPARAMSENTANGLER)) →
  (∀ c pc, P (c, pc) →
     if isCyclic this
     then Q (entanglerGate (to_size_t (n - 1)) (to_size_t 0) pc c)
     else Q c) →
  Q (entanglerCircuit this).
Proof.
  intros n H0 Hrot Hblock Hlast. unfold entanglerCircuit. fold n.
  match goal with
  | |- context [foldl ?f (createComposite "mcvqeCircuit", 0) (range 0 n)] =>
      pose proof (foldl_inv P f (range 0 n) (createComposite "mcvqeCircuit", 0) H0)
        as H1
  end.
  destruct (foldl _ (createComposite "mcvqeCircuit", 0) (range 0 n)) as [c1 p1].
  assert (P (c1, p1)) as Hc1.
  { apply H1. intros i [c pc] Hi Hc. by apply Hrot. }
  clear H1. cbn [foldl]. replace (n - 0) with n by lia.
  match goal with
  | |- context [foldl ?f (c1, p1) (range_step2 0 n)] =>
      pose proof (foldl_inv P f (range_step2 0 n) (c1, p1) Hc1) as H2
  end.
  destruct (foldl _ (c1, p1) (range_step2 0 n)) as [c2 p2].
  assert (P (c2, p2)) as Hc2.
  { apply H2. intros i [c pc] Hi Hc. apply Hblock; [by left|done]. }
  clear H2.
  match goal with
  | |- context [foldl ?f (c2, p2) (range_step2 1 (n - 1))] =>
      pose proof (foldl_inv P f (range_step2 1 (n - 1)) (c2, p2) Hc2) as H3
  end.
  destruct (foldl _ (c2, p2) (range_step2 1 (n - 1))) as [c3 p3].
  assert (P (c3, p3)) as Hc3.
  { apply H3. intros i [c pc] Hi Hc. apply Hblock; [by right|done]. }
  specialize (Hlast c3 p3 Hc3). by destruct (isCyclic this).
Qed.

Lemma variable_names_snoc (pc : Z) :
  0 ≤ pc →
  variable_name <$> range 0 (pc + 1) =
    (variable_name <$> range 0 pc) ++ [variable_name pc].
Proof. intros. by rewrite range_snoc, fmap_app by lia. Qed.

Lemma variable_names_block (pc : Z) :
  0 ≤ pc →
  variable_name <$> range 0 (pc + 4) =
    (variable_name <$> range 0 pc) ++
      [variable_name pc; variable_name (pc + 1); variable_name (pc + 2);
       variable_name (pc + 3)].
Proof.
  intros.
  replace (pc + 4) with (pc + 1 + 1 + 1 + 1) by lia.
  rewrite !range_snoc, !fmap_app by lia. rewrite <- !app_assoc. simpl.
  replace (pc + 1 + 1) with (pc + 2) by lia.
  by replace (pc + 2 + 1) with (pc + 3) by lia.
Qed.

#[local] Instance variable_name_inj : Inj (=) (=) variable_name.
Proof.
  intros i j Hij. unfold variable_name, to_string in Hij.
  apply (inj (String.app paramLetter)) in Hij. by apply (inj pretty) in Hij.
Qed.

Lemma length_range (lo hi : Z) : Z.of_nat (length (range lo hi)) = Z.max 0 (hi - lo).
Proof. unfold range. rewrite length_seqZ. lia. Qed.

Lemma length_range_step2 (lo hi : Z) :
  Z.of_nat (length (range_step2 lo hi)) = Z.max 0 ((hi - lo + 1) `div` 2).
Proof. unfold range_step2. rewrite length_fmap, length_seqZ. lia. Qed.

(** X18: for every number of sites [n >= 1] the entangler exposes
    [n + 4 * (n - 1 + n mod 2)] trainable parameters, and four more on the
    ring: one per site, four per block, with [n - 1] blocks in the two
    brick-wall layers when [n] is even and [n] blocks when it is odd. *)
Theorem entangler_parameter_count (this : MC_VQE D) :
  1 ≤ nChromophores this →
  nVariables (entanglerCircuit this) =
    nChromophores this
    + 4 * (nChromophores this - 1 + nChromophores this `mod` 2)
    + (if isCyclic this then 4 else 0).
Proof.
  intros Hn. rewrite nVariables_entanglerCircuit. cbv zeta.
  rewrite length_range, !length_range_step2.
  set (n := nChromophores this) in *.
  replace (n - 0 + 1) with (n + 1) by lia.
  replace (n - 1 - 1 + 1) with (n - 1) by lia.
  pose proof (Z.div_mod n 2 ltac:(lia)) as Hd.
  pose proof (Z.mod_pos_bound n 2 ltac:(lia)) as Hm.
  assert ((n + 1) `div` 2 = n `div` 2 + n `mod` 2) as ->.
  { symmetry. apply Z.div_unique with (r := 1 - n `mod` 2); lia. }
  assert ((n - 1) `div` 2 = n `div` 2 - 1 + n `mod` 2) as ->.
  { symmetry. apply Z.div_unique with (r := 1 - n `mod` 2); lia. }
  destruct (isCyclic this); lia.
Qed.

(** X19: the variables of the entangler are [x0], [x1], ... in order,
    without gap or repetition, and the parameters of its instructions, read
    in circuit order, are exactly these variables: each variable drives one
    rotation, and no instruction of the entangler has a numeric
    parameter. *)
Theorem entangler_variables_in_order (this : MC_VQE D) :
  getVariables (entanglerCircuit this) =
    variable_name <$> range 0 (nVariables (entanglerCircuit this)) ∧
  NoDup (getVariables (entanglerCircuit this)) ∧
  circuit_parameters (entanglerCircuit this) =
    PVar <$> getVariables (entanglerCircuit this).
Proof.
  set (P := λ st : CompositeInstruction D * Z,
         0 ≤ st.2 ∧
         getVariables st.1 = variable_name <$> range 0 st.2 ∧
         circuit_parameters st.1 = PVar <$> getVariables st.1).
  set (Q := λ c : CompositeInstruction D,
         ∃ pc, 0 ≤ pc ∧
         getVariables c = variable_name <$> range 0 pc ∧
         circuit_parameters c = PVar <$> getVariables c).
  assert (Q (entanglerCircuit this)) as (pc & Hpc & Hv & Hp).
  { apply (entanglerCircuit_inv P Q).
    - split; [simpl; lia|]. split; reflexivity.
    - intros c pc i _ (Hpc & Hv & Hp). unfold P. cbn [fst snd] in *.
      split; [lia|]. split.
      + simpl. by rewrite Hv, variable_names_snoc.
      + unfold circuit_parameters in *. simpl.
        rewrite fmap_app, concat_app, Hp, fmap_app. simpl. done.
    - intros c pc i _ (Hpc & Hv & Hp). unfold P. cbn [fst snd] in *.
      unfold NPARAMSENTANGLER. split; [lia|]. split.
      + simpl. rewrite Hv, variable_names_block by done.
        by rewrite <- !app_assoc.
      + unfold circuit_parameters in *. simpl.
        rewrite !fmap_app, !concat_app, Hp. simpl.
        by rewrite <- !app_assoc.
    - intros c pc (Hpc & Hv & Hp). unfold Q. cbn [fst snd] in *.
      destruct (isCyclic this).
      + exists (pc + 4). split; [lia|]. split.
        * simpl. rewrite Hv, variable_names_block by done.
          by rewrite <- !app_assoc.
        * unfold circuit_parameters in *. simpl.
          rewrite !fmap_app, !concat_app, Hp. simpl.
          by rewrite <- !app_assoc.
      + by exists pc. }
  assert (nVariables (entanglerCircuit this) = pc) as ->.
  { unfold nVariables. rewrite Hv, length_fmap. unfold range.
    rewrite length_seqZ. lia. }
  split; [done|]. split; [|done].
  rewrite Hv. apply NoDup_fmap; [apply _|]. apply NoDup_seqZ.
Qed.

Lemma qubits_below_add (n : Z) (c : CompositeInstruction D) (i : Instruction D) :
  qubits_below n c → Forall (λ q, 0 ≤ q < n) (bits i) →
  qubits_below n (addInstruction c i).
Proof.
  intros Hc Hi. unfold qubits_below. simpl. apply Forall_app. split; [done|].
  by constructor.
Qed.

Lemma qubits_below_addVariable (n : Z) (c : CompositeInstruction D) (x : string) :
  qubits_below n c → qubits_below n (addVariable c x).
Proof. done. Qed.

Lemma qubits_below_entanglerGate (n control target pc : Z)
    (c : CompositeInstruction D) :
  0 ≤ control < n → 0 ≤ target < n → qubits_below n c →
  qubits_below n (entanglerGate control target pc c).
Proof.
  intros Hc Ht Hq. unfold entanglerGate.
  repeat first [apply qubits_below_add | apply qubits_below_addVariable];
    try done; simpl; repeat constructor; lia.
Qed.

(** X20: for an even number [n >= 2] of sites every instruction of the
    entangler acts on qubits of the register, [0 .. n - 1], on the chain and
    on the ring. *)
Theorem entangler_even_sites_in_register (this : MC_VQE D) :
  2 ≤ nChromophores this →
  nChromophores this `mod` 2 = 0 →
  qubits_below (nChromophores this) (entanglerCircuit this).
Proof.
  intros Hn Heven. set (n := nChromophores this) in *.
  apply (entanglerCircuit_inv (λ st, qubits_below n st.1) (qubits_below n)).
  - constructor.
  - intros c pc i Hi%elem_of_range Hc. cbn [fst] in *.
    apply qubits_below_add; [done|]. simpl.
    pose proof (to_size_t_bounds i). repeat constructor; lia.
  - fold n. intros c pc i Hi Hc. cbn [fst] in *.
    assert (0 ≤ i ∧ i + 1 < n) as [Hi0 Hi1].
    { destruct Hi as [[Hi Hm]%elem_of_range_step2|[Hi Hm]%elem_of_range_step2].
      - replace (i - 0) with i in Hm by lia.
        pose proof (Z.div_mod i 2 ltac:(lia)).
        pose proof (Z.div_mod n 2 ltac:(lia)). lia.
      - lia. }
    pose proof (to_size_t_bounds i). pose proof (to_size_t_bounds (i + 1)).
    apply qubits_below_entanglerGate; [lia..|done].
  - fold n. intros c pc Hc. cbn [fst] in *. destruct (isCyclic this); [|done].
    pose proof (to_size_t_bounds (n - 1)). pose proof (to_size_t_bounds 0).
    apply qubits_below_entanglerGate; [lia..|done].
Qed.

Lemma entanglerGate_keeps (control target pc : Z) (c : CompositeInstruction D)
    (i : Instruction D) :
  i ∈ getInstructions c →
  i ∈ getInstructions (entanglerGate control target pc c).
Proof. intros Hi. simpl. rewrite !elem_of_app. tauto. Qed.

Lemma entanglerGate_first (control target pc : Z) (c : CompositeInstruction D) :
  CNOT control target ∈ getInstructions (entanglerGate control target pc c).
Proof.
  simpl. rewrite !elem_of_app, !list_elem_of_singleton. tauto.
Qed.

(** X21: for an odd number [n] of sites the last block of the first
    brick-wall layer starts at [i = n - 1], so the entangler holds
    [CNOT (n - 1, n)]: it acts on the qubit of index [n], which a register
    of [n] qubits does not have. *)
Theorem entangler_odd_sites_leaves_register (this : MC_VQE D) :
  1 ≤ nChromophores this < 2 ^ 31 →
  nChromophores this `mod` 2 = 1 →
  CNOT (nChromophores this - 1) (nChromophores this)
    ∈ getInstructions (entanglerCircuit this) ∧
  ¬ qubits_below (nChromophores this) (entanglerCircuit this).
Proof.
  intros Hn Hodd. set (n := nChromophores this) in *.
  assert (CNOT (n - 1) n ∈ getInstructions (entanglerCircuit this)) as Hin.
  { unfold entanglerCircuit. fold n.
    destruct (foldl _ (createComposite "mcvqeCircuit", 0) (range 0 n))
      as [c1 p1].
    cbn [foldl]. replace (n - 0) with n by lia.
    assert (n - 1 ∈ range_step2 0 n) as Hlast.
    { apply elem_of_range_step2. split; [lia|].
      replace (n - 1 - 0) with (n - 1) by lia.
      pose proof (Z.div_mod n 2 ltac:(lia)) as Hd.
      replace (n - 1) with (n `div` 2 * 2) by lia. apply Z.mod_mul. lia. }
    apply list_elem_of_split in Hlast as (l1 & l2 & ->).
    rewrite foldl_app. destruct (foldl _ (c1, p1) l1) as [c2 p2].
    cbn [foldl].
    set (P := λ st : CompositeInstruction D * Z,
           CNOT (n - 1) n ∈ getInstructions st.1).
    match goal with
    | |- context [foldl ?f ?st l2] =>
        pose proof (foldl_inv P f l2 st) as H2;
        destruct (foldl f st l2) as [c3 p3]
    end.
    assert (P (c3, p3)) as Hc3.
    { apply H2.
      - unfold P. cbn [fst]. replace (n - 1 + 1) with n by lia.
        rewrite !to_size_t_small by lia. apply entanglerGate_first.
      - intros i [c pc] _ Hc. by apply entanglerGate_keeps. }
    clear H2.
    match goal with
    | |- context [foldl ?f (c3, p3) ?l] =>
        pose proof (foldl_inv P f l (c3, p3) Hc3) as H3;
        destruct (foldl f (c3, p3) l) as [c4 p4]
    end.
    assert (P (c4, p4)) as Hc4.
    { apply H3. intros i [c pc] _ Hc. by apply entanglerGate_keeps. }
    destruct (isCyclic this); [by apply entanglerGate_keeps|done]. }
  split; [done|].
  intros Hq. unfold qubits_below in Hq.
  rewrite Forall_forall in Hq. specialize (Hq _ Hin). simpl in Hq.
  apply Forall_cons in Hq as [_ Hq]. apply Forall_cons in Hq as [Hq _]. lia.
Qed.
End EntanglerShape.

(** ** The state-preparation circuit *)

Lemma down_range_nil (hi lo : Z) : hi < lo → down_range hi lo = [].
Proof. intros. unfold down_range. by rewrite seqZ_nil by lia. Qed.

Lemma down_range_cons (hi lo : Z) :
  lo ≤ hi → down_range hi lo = hi :: down_range (hi - 1) lo.
Proof.
  intros. unfold down_range.
  replace (hi - lo + 1) with ((hi - 1 - lo + 1) + 1) by lia.
  rewrite seqZ_app by lia. rewrite reverse_app.
  rewrite seqZ_cons, seqZ_nil by lia. simpl. f_equal. f_equal. lia.
Qed.

(** The rule of a loop that counts down. *)
Lemma foldM_down_range_total {St : Type} (I : Z → St → Prop)
    (f : Z → St → outcome St) (hi lo : Z) (s : St) :
  lo ≤ hi + 1 →
  I hi s →
  (∀ k t, lo ≤ k ≤ hi → I k t → ∃ t', f k t = Done t' ∧ I (k - 1) t') →
  ∃ s', foldM f (down_range hi lo) s = Done s' ∧ I (lo - 1) s'.
Proof.
  intros Hle H0 Hstep.
  assert (∀ n : nat, ∀ k t, k = lo - 1 + Z.of_nat n → k ≤ hi → I k t →
            ∃ s', foldM f (down_range k lo) t = Done s' ∧ I (lo - 1) s') as Hn.
  { induction n as [|n IH]; intros k t Hk Hkhi Ht.
    - rewrite down_range_nil by lia. exists t. split; [done|].
      by replace (lo - 1) with k by lia.
    - rewrite down_range_cons, foldM_cons by lia.
      destruct (Hstep k t) as (t' & -> & Ht'); [lia|done|].
      rewrite bind_Done_l. apply IH; [lia|lia|done]. }
  apply (Hn (Z.to_nat (hi - lo + 1))); [lia|lia|done].
Qed.

Section StatePreparationShape.
Context {D : Type} `{Scalar D}.

Lemma statePreparationCircuit_size (this : MC_VQE D) (angles : list D) :
  1 ≤ nChromophores this →
  nChromophores this ≤ Z.of_nat (length angles) →
  ∃ c,
    statePreparationCircuit this angles = Done c ∧
    2 * nInstructions c =
      2 + 10 * (nChromophores this - 1)
      + nChromophores this * (nChromophores this - 1) ∧
    getVariables c = [] ∧
    qubits_below (nChromophores this) c.
Proof.
  intros Hn Hlen. set (n := nChromophores this) in *.
  unfold statePreparationCircuit. fold n.
  destruct (vget_total angles 0) as [a0 ->]; [lia|]. rewrite bind_Done_l.
  match goal with
  | |- ∃ c, foldM ?f (range 1 n) ?c0 ≫= _ = _ ∧ _ =>
      destruct (foldM_range_total
        (λ k c, nInstructions c = 1 + 5 * (k - 1) ∧ getVariables c = [] ∧
                qubits_below n c) f 1 n c0) as (c1 & -> & Hc1 & Hv1 & Hq1)
  end; [lia| | |].
  { split; [done|]. split; [done|].
    apply qubits_below_add; [constructor|].
    simpl. pose proof (to_size_t_bounds 0). repeat constructor; lia. }
  { intros k c Hk (Hc & Hv & Hq).
    destruct (vget_total angles k) as [ak ->]; [lia|].
    rewrite !bind_Done_l. eexists. split; [done|].
    pose proof (to_size_t_bounds k). pose proof (to_size_t_bounds (k - 1)).
    split; [|split].
    - unfold nInstructions in *. simpl. rewrite !length_app. simpl. lia.
    - done.
    - repeat apply qubits_below_add; try done;
        simpl; repeat constructor; lia. }
  rewrite bind_Done_l.
  match goal with
  | |- ∃ c, foldM ?f (down_range (n - 2) 0) c1 = _ ∧ _ =>
      destruct (foldM_down_range_total
        (λ i c, 2 * nInstructions c =
                  2 + 10 * (n - 1) + (n - 2 - i) * (n - 1 - i) ∧
                getVariables c = [] ∧ qubits_below n c)
        f (n - 2) 0 c1) as (c2 & -> & Hc2 & Hv2 & Hq2)
  end; [lia| | |].
  { split; [lia|done]. }
  { intros i c Hi (Hc & Hv & Hq).
    match goal with
    | |- ∃ t', foldM ?g (down_range (n - 1) (i + 1)) c = _ ∧ _ =>
        destruct (foldM_down_range_total
          (λ j c', nInstructions c' = nInstructions c + (n - 1 - j) ∧
                   getVariables c' = [] ∧ qubits_below n c')
          g (n - 1) (i + 1) c) as (c' & -> & Hc' & Hv' & Hq')
    end; [lia| | |].
    - split; [lia|done].
    - intros j c' Hj (Hc' & Hv' & Hq'). eexists. split; [done|].
      pose proof (to_size_t_bounds j). pose proof (to_size_t_bounds i).
      split; [|split].
      + unfold nInstructions in *. simpl. rewrite length_app. simpl. lia.
      + done.
      + apply qubits_below_add; [done|]. simpl. repeat constructor; lia.
    - exists c'. split; [done|]. split; [|done].
      replace (i + 1 - 1) with i in Hc' by lia. nia. }
  exists c2. split; [done|]. split; [|done].
  replace (0 - 1) with (-1) in Hc2 by lia. nia.
Qed.
(** X17: given an angle for each of the [n >= 1] sites, the state-preparation
    builder completes with a circuit of [1 + 5 (n - 1) + n (n - 1) / 2]
    instructions (the pump, five per Fy gate, and the wall of CNOTs), stated
    here doubled to avoid the division; the circuit declares no variable and
    acts on the qubits [0 .. n - 1] only. *)
Theorem statePreparationCircuit_shape (this : MC_VQE D) (angles : list D) :
  1 ≤ nChromophores this →
  nChromophores this ≤ Z.of_nat (length angles) →
  ∃ c,
    statePreparationCircuit this angles = Done c ∧
    2 * nInstructions c =
      2 + 10 * (nChromophores this - 1)
      + nChromophores this * (nChromophores this - 1) ∧
    getVariables c = [] ∧
    qubits_below (nChromophores this) c.
Proof. apply statePreparationCircuit_size. Qed.
End StatePreparationShape.

(** ** A call of the objective *)

Lemma mapM'_snoc {A B : Type} (f : A → outcome B) (l : list A) (a : A)
    (bs : list B) (b : B) :
  mapM' f l = Done bs → f a = Done b → mapM' f (l ++ [a]) = Done (bs ++ [b]).
Proof.
  revert bs. induction l as [|a' l IH]; intros bs Hl Ha; simpl in *.
  - simplify_eq. by rewrite Ha.
  - apply bind_Done in Hl as (b' & -> & Hl).
    apply bind_Done in Hl as (bs' & Hbs' & ?). simplify_eq.
    rewrite bind_Done_l, (IH bs' Hbs' Ha). done.
Qed.

Lemma length_mapM' {A B : Type} (f : A → outcome B) (l : list A) (bs : list B) :
  mapM' f l = Done bs → length bs = length l.
Proof.
  revert bs. induction l as [|a l IH]; intros bs Hl; simpl in *.
  - by simplify_eq.
  - apply bind_Done in Hl as (b' & _ & Hl).
    apply bind_Done in Hl as (bs' & Hbs' & ?). simplify_eq.
    simpl. f_equal. by apply IH.
Qed.

Section Objective.
Context {D : Type} `{Scalar D}.
Context (depth_of : CompositeInstruction D → Z).

(** [kernel->addVariables] and the loop of [addInstruction] append the
    entangler's variables and instructions to the kernel's. *)
Lemma appendEntangler_spec (kernel entangler : CompositeInstruction D) :
  appendEntangler kernel entangler =
    mkComposite (cname kernel)
      (getInstructions kernel ++ getInstructions entangler)
      (getVariables kernel ++ getVariables entangler).
Proof.
  unfold appendEntangler.
  assert (∀ (l : list (Instruction D)) (c : CompositeInstruction D),
            foldl addInstruction c l =
              mkComposite (cname c) (getInstructions c ++ l) (getVariables c))
    as Hfold.
  { induction l as [|i l IH]; intros c; simpl.
    - destruct c. simpl. by rewrite app_nil_r.
    - rewrite IH. simpl. by rewrite <- app_assoc. }
  by rewrite Hfold.
Qed.

Lemma length_add_state_gradient (n : Z) (k : nat) (g tg : list D) :
  length (add_state_gradient n k g tg) = length g.
Proof. unfold add_state_gradient. by rewrite length_imap. Qed.

(** The loop that adds the gradient of one state to the average. *)
Lemma accumulate_gradient (n : Z) (k : nat) (g tg : list D) :
  (k ≤ length g)%nat → (k ≤ length tg)%nat →
  foldM (λ i averageGrad,
           t ← vget tg i;
           a ← vget averageGrad i;
           vset averageGrad i (a + t / of_int n)%dbl)
        (range 0 (Z.of_nat k)) g =
    Done (add_state_gradient n k g tg).
Proof.
  intros Hg Htg.
  match goal with
  | |- foldM ?f _ _ = _ =>
      destruct (foldM_range_total
        (λ j ag, ag = add_state_gradient n (Z.to_nat j) g tg)
        f 0 (Z.of_nat k) g) as (ag & -> & ->)
  end; [lia| | |by rewrite Nat2Z.id].
  { unfold add_state_gradient. apply list_eq. intros i.
    rewrite list_lookup_imap. by destruct (g !! i). }
  intros j ag Hj ->.
  destruct (lookup_lt_is_Some_2 tg (Z.to_nat j)) as [t Ht]; [lia|].
  destruct (lookup_lt_is_Some_2 g (Z.to_nat j)) as [a Ha]; [lia|].
  assert (vget tg j = Done t) as -> by (apply vget_Done; split; [lia|done]).
  rewrite bind_Done_l.
  assert (vget (add_state_gradient n (Z.to_nat j) g tg) j = Done a) as ->.
  { apply vget_Done. split; [lia|]. unfold add_state_gradient.
    rewrite list_lookup_imap, Ha. simpl. by rewrite decide_False by lia. }
  rewrite bind_Done_l. eexists. split.
  { apply vset_Done. split; [|done].
    rewrite length_add_state_gradient. lia. }
  unfold add_state_gradient. apply list_eq. intros i.
  rewrite !list_lookup_imap.
  destruct (decide (i = Z.to_nat j)) as [->|Hne].
  - rewrite list_lookup_insert_eq by (rewrite length_imap; lia).
    rewrite Ha. simpl. rewrite decide_True by lia. by rewrite Ht.
  - rewrite list_lookup_insert_ne by done. rewrite list_lookup_imap.
    destruct (g !! i); simpl; [|done].
    replace (Z.to_nat (j + 1)) with (S (Z.to_nat j)) by lia.
    destruct (decide (i < Z.to_nat j)%nat), (decide (i < S (Z.to_nat j))%nat);
      try done; lia.
Qed.

Lemma averaged_gradient_fold (this : MC_VQE D) (x dx : list D)
    (kernels : list (CompositeInstruction D)) :
  averaged_gradient this x dx kernels =
    foldl (state_gradient_step this x dx) (vzero (Z.of_nat (length x))) kernels.
Proof.
  unfold averaged_gradient, state_gradient_step.
  destruct (gradientStrategy this); [done|].
  by induction kernels.
Qed.

Lemma ready_state_kernel_total (this : MC_VQE D) (entangler : CompositeInstruction D)
    (state : Z) :
  ready this → 0 ≤ state < nStates this →
  ∃ kernel, state_kernel this entangler state = Done kernel.
Proof.
  intros Hready Hs.
  destruct (ready_state_kernel this state Hready Hs) as (angles & k & Ha & Hk).
  unfold state_kernel. rewrite Ha, bind_Done_l, Hk, bind_Done_l. eauto.
Qed.

(** One state of the loop of the objective. *)
Lemma objective_state_step_spec (this : MC_VQE D)
    (entangler : CompositeInstruction D) (x dx : list D) (state : Z)
    (e : D) (g : list D) (st : ObjectiveState D) (acc : Accelerator D)
    (kernel : CompositeInstruction D) :
  accelerator this = Some acc →
  state_kernel this entangler state = Done kernel →
  gradient_fits this x dx →
  length g = length x →
  0 ≤ state < Z.of_nat (length (diagonal st)) →
  objective_state_step depth_of this entangler x dx state (e, g, st) =
    Done ((e + vqe_execute acc (observable this) kernel x)%dbl,
          state_gradient_step this x dx g kernel,
          mkObjectiveState (oldAverageEnergy st) (entangledHamiltonian st)
            (<[Z.to_nat state := vqe_execute acc (observable this) kernel x]>
               (diagonal st))
            (Some (depth_of kernel)) (Some (nInstructions kernel))).
Proof.
  intros Hacc Hk Hfit Hg Hs. unfold objective_state_step.
  unfold state_kernel in Hk.
  apply bind_Done in Hk as (angles & Ha & Hk).
  apply bind_Done in Hk as (k0 & Hk0 & Hk). simplify_eq.
  rewrite Ha, bind_Done_l, Hk0, bind_Done_l.
  unfold vqeWrapper. rewrite Hacc, bind_Done_l.
  unfold gradient_fits, state_gradient_step in *.
  destruct (gradientStrategy this) as [strategy|].
  - destruct Hfit as [Hdx Hgrad].
    rewrite accumulate_gradient by (rewrite ?Hg; auto).
    rewrite bind_Done_l.
    match goal with
    | |- vset ?v ?i ?a ≫= _ = _ =>
        assert (vset v i a = Done (<[Z.to_nat i := a]> v)) as ->
          by (by apply vset_Done)
    end.
    by rewrite bind_Done_l.
  - rewrite bind_Done_l.
    match goal with
    | |- vset ?v ?i ?a ≫= _ = _ =>
        assert (vset v i a = Done (<[Z.to_nat i := a]> v)) as ->
          by (by apply vset_Done)
    end.
    by rewrite bind_Done_l.
Qed.

(** The loop over the states. *)
Lemma objective_states_spec (this : MC_VQE D)
    (entangler : CompositeInstruction D) (x dx : list D)
    (st : ObjectiveState D) (acc : Accelerator D) :
  ready this →
  accelerator this = Some acc →
  gradient_fits this x dx →
  Z.of_nat (length (diagonal st)) = nStates this →
  ∃ kernels,
    mapM' (state_kernel this entangler) (range 0 (nStates this)) = Done kernels ∧
    foldM (objective_state_step depth_of this entangler x dx)
          (range 0 (nStates this)) (d0, vzero (Z.of_nat (length x)), st) =
      Done (foldl dadd d0
              ((λ kernel, vqe_execute acc (observable this) kernel x) <$> kernels),
            averaged_gradient this x dx kernels,
            mkObjectiveState (oldAverageEnergy st) (entangledHamiltonian st)
              ((λ kernel, vqe_execute acc (observable this) kernel x) <$> kernels)
              (last_kernel_info depth_of kernels (depth st))
              (last_kernel_info nInstructions kernels (nGates st))).
Proof.
  intros Hready Hacc Hfit Hd.
  set (energy := λ kernel, vqe_execute acc (observable this) kernel x).
  assert (0 ≤ nStates this) as Hn by (destruct Hready as (_ & ? & _); lia).
  destruct (foldM_range_total
    (λ k (a : D * list D * ObjectiveState D),
       ∃ kernels,
         mapM' (state_kernel this entangler) (range 0 k) = Done kernels ∧
         a = (foldl dadd d0 (energy <$> kernels),
              foldl (state_gradient_step this x dx)
                    (vzero (Z.of_nat (length x))) kernels,
              mkObjectiveState (oldAverageEnergy st) (entangledHamiltonian st)
                ((energy <$> kernels) ++ drop (Z.to_nat k) (diagonal st))
                (last_kernel_info depth_of kernels (depth st))
                (last_kernel_info nInstructions kernels (nGates st))))
    (objective_state_step depth_of this entangler x dx)
    0 (nStates this) (d0, vzero (Z.of_nat (length x)), st))
    as (a & Hrun & kernels & Hks & ->); [done| | |].
  - exists []. split; [done|]. simpl. by destruct st.
  - intros k a Hk (kernels & Hks & ->).
    destruct (ready_state_kernel_total this entangler k Hready) as [kernel Hkernel];
      [lia|].
    pose proof (length_mapM' _ _ _ Hks) as Hlen.
    assert (length kernels = Z.to_nat k) as Hlen'.
    { rewrite Hlen. unfold range. rewrite length_seqZ. lia. }
    assert (length (foldl (state_gradient_step this x dx)
                      (vzero (Z.of_nat (length x))) kernels) = length x) as Hg.
    { clear Hks Hlen Hlen'. induction kernels as [|k0 ks IH] using rev_ind.
      - simpl. unfold vzero. rewrite length_replicate. lia.
      - rewrite foldl_app. simpl. unfold state_gradient_step at 1.
        destruct (gradientStrategy this); [|done].
        by rewrite length_add_state_gradient. }
    erewrite objective_state_step_spec; [|done|done|done|done|].
    2:{ cbn [diagonal]. rewrite length_app, length_fmap, length_drop. lia. }
    eexists. split; [done|]. exists (kernels ++ [kernel]).
    split; [by rewrite range_snoc by lia; apply mapM'_snoc|].
    rewrite fmap_app, !foldl_app.
    cbn [foldl fmap list_fmap oldAverageEnergy entangledHamiltonian diagonal].
    unfold last_kernel_info. rewrite !last_snoc.
    fold (energy kernel). do 2 f_equal.
    destruct (lookup_lt_is_Some_2 (diagonal st) (Z.to_nat k)) as [dk Hdk];
      [lia|].
    replace (Z.to_nat k) with (length (energy <$> kernels) + 0)%nat at 1
      by (rewrite length_fmap; lia).
    rewrite insert_app_r.
    rewrite (drop_S _ _ _ Hdk). simpl.
    replace (Z.to_nat (k + 1)) with (S (Z.to_nat k)) by lia.
    by rewrite <- app_assoc.
  - exists kernels. split; [done|]. rewrite Hrun. f_equal. f_equal.
    + f_equal. by rewrite averaged_gradient_fold.
    + f_equal. rewrite drop_ge by lia. by rewrite app_nil_r.
Qed.

Lemma state_energies (this : MC_VQE D) (entangler : CompositeInstruction D)
    (x : list D) (acc : Accelerator D) (l : list Z)
    (kernels : list (CompositeInstruction D)) :
  accelerator this = Some acc →
  mapM' (state_kernel this entangler) l = Done kernels →
  mapM' (state_energy this entangler x) l =
    Done ((λ kernel, vqe_execute acc (observable this) kernel x) <$> kernels).
Proof.
  intros Hacc. revert kernels.
  induction l as [|a l IH]; intros kernels Hks; cbn [mapM'] in *.
  - by simplify_eq.
  - apply bind_Done in Hks as (k & Hk & Hks).
    apply bind_Done in Hks as (ks & Hks & ?). simplify_eq.
    assert (state_energy this entangler x a =
              Done (vqe_execute acc (observable this) k x)) as ->.
    { unfold state_energy, vqeWrapper. by rewrite Hk, bind_Done_l, Hacc. }
    by rewrite bind_Done_l, (IH ks Hks).
Qed.

(** A call of the objective, from the circuits of the states. *)
Lemma objective_spec (this : MC_VQE D) (entangler : CompositeInstruction D)
    (st : ObjectiveState D) (x dx : list D) (acc : Accelerator D) :
  ready this →
  accelerator this = Some acc →
  gradient_fits this x dx →
  Z.of_nat (length (diagonal st)) = nStates this →
  mdims (entangledHamiltonian st) (nStates this) (nStates this) →
  ∃ kernels st',
    mapM' (state_kernel this entangler) (range 0 (nStates this)) = Done kernels ∧
    objective depth_of this entangler st x dx =
      Done ((foldl dadd d0
               ((λ kernel, vqe_execute acc (observable this) kernel x)
                  <$> kernels)
             / of_int (nStates this))%dbl,
            match averaged_gradient this x dx kernels with
            | [] => dx
            | _ => averaged_gradient this x dx kernels
            end,
            st') ∧
    diagonal st' =
      (λ kernel, vqe_execute acc (observable this) kernel x) <$> kernels ∧
    depth st' = last_kernel_info depth_of kernels (depth st) ∧
    nGates st' = last_kernel_info nInstructions kernels (nGates st) ∧
    mdims (entangledHamiltonian st') (nStates this) (nStates this).
Proof.
  intros Hready Hacc Hfit Hd Hm.
  destruct (objective_states_spec this entangler x dx st acc)
    as (kernels & Hks & Hloop); [done..|].
  exists kernels. unfold objective. rewrite Hloop, bind_Done_l.
  cbn [oldAverageEnergy entangledHamiltonian diagonal depth nGates].
  destruct (dltb _ _).
  - destruct (set_diagonal_total (entangledHamiltonian st)
      ((λ kernel, vqe_execute acc (observable this) kernel x) <$> kernels)
      (nStates this)) as (m' & -> & Hm'); [|done|].
    { rewrite length_fmap, (length_mapM' _ _ _ Hks). unfold range.
      rewrite length_seqZ. destruct Hready as (_ & ? & _). lia. }
    rewrite !bind_Done_l. eexists. split; [done|]. split; [reflexivity|].
    done.
  - rewrite bind_Done_l. eexists. split; [done|]. split; [reflexivity|].
    done.
Qed.
End Objective.

Lemma mapM'_lookup {A B : Type} (f : A → outcome B) (l : list A) (bs : list B)
    (i : nat) (a : A) :
  mapM' f l = Done bs → l !! i = Some a →
  ∃ b, f a = Done b ∧ bs !! i = Some b.
Proof.
  revert bs i. induction l as [|a' l IH]; intros bs i Hl Hi; [done|].
  cbn [mapM'] in Hl.
  apply bind_Done in Hl as (b' & Hb' & Hl).
  apply bind_Done in Hl as (bs' & Hbs' & ?). simplify_eq.
  destruct i as [|i]; simpl in Hi.
  - simplify_eq. by exists b'.
  - by apply (IH bs' i).
Qed.

Section ObjectiveResults.
Context {D : Type} `{Scalar D}.
Context (depth_of : CompositeInstruction D → Z).

(** X22: on a ready object, with a gradient buffer that fits, a call of the
    objective completes; the value it returns is the sum of the energies of
    the states, added in order from [0.0], divided by the number of states,
    and [diagonal] holds these energies after the call, whether or not the
    call improved the stored average. *)
Theorem objective_returns_average (this : MC_VQE D)
    (entangler : CompositeInstruction D) (st : ObjectiveState D)
    (x dx : list D) :
  ready this →
  gradient_fits this x dx →
  Z.of_nat (length (diagonal st)) = nStates this →
  mdims (entangledHamiltonian st) (nStates this) (nStates this) →
  ∃ energies dx' st',
    mapM' (state_energy this entangler x) (range 0 (nStates this)) =
      Done energies ∧
    objective depth_of this entangler st x dx =
      Done ((foldl dadd d0 energies / of_int (nStates this))%dbl, dx', st') ∧
    diagonal st' = energies.
Proof.
  intros Hready Hfit Hd Hm.
  destruct (Hready) as ([acc Hacc] & _).
  destruct (objective_spec depth_of this entangler st x dx acc)
    as (kernels & st' & Hks & Hrun & Hdiag & _); [done..|].
  eexists _, _, st'. split; [by eapply state_energies|]. done.
Qed.

(** X23: with a gradient strategy and a non-empty parameter vector, the
    gradient the objective leaves in [dx] is the average of the gradients
    of the states: starting from the zero vector of the length of [x], each
    state adds its gradient divided by the number of states, in the
    components [dx] had on entry. *)
Theorem objective_averages_gradients (this : MC_VQE D)
    (entangler : CompositeInstruction D) (st : ObjectiveState D)
    (x dx : list D) (strategy : AlgorithmGradientStrategy D) :
  gradientStrategy this = Some strategy →
  x ≠ [] →
  (length dx ≤ length x)%nat →
  (∀ kernel, (length dx ≤ length (gradient strategy kernel x dx))%nat) →
  ready this →
  Z.of_nat (length (diagonal st)) = nStates this →
  mdims (entangledHamiltonian st) (nStates this) (nStates this) →
  ∃ kernels e st',
    mapM' (state_kernel this entangler) (range 0 (nStates this)) =
      Done kernels ∧
    objective depth_of this entangler st x dx =
      Done (e,
            foldl (λ averageGrad kernel,
                     add_state_gradient (nStates this) (length dx) averageGrad
                       (gradient strategy kernel x dx))
                  (vzero (Z.of_nat (length x))) kernels,
            st').
Proof.
  intros Hg Hx Hdx Hgrad Hready Hd Hm.
  destruct (Hready) as ([acc Hacc] & _).
  destruct (objective_spec depth_of this entangler st x dx acc)
    as (kernels & st' & Hks & Hrun & _); [done|done| |done|done|].
  { unfold gradient_fits. by rewrite Hg. }
  exists kernels. eexists _, st'. split; [done|]. rewrite Hrun.
  assert (length (averaged_gradient this x dx kernels) = length x) as Hlen.
  { unfold averaged_gradient. rewrite Hg. clear Hks Hrun.
    induction kernels as [|k ks IH] using rev_ind.
    - simpl. unfold vzero. rewrite length_replicate. lia.
    - rewrite foldl_app. simpl. by rewrite length_add_state_gradient. }
  unfold averaged_gradient in *. rewrite Hg in *.
  destruct (foldl _ _ kernels); [by destruct x|done].
Qed.

(** X24: after a call of the objective on at least one state, [depth] and
    [nGates] are those of the circuit of the last state: the state
    preparation followed by the entangler, that is
    [1 + 5 (n - 1) + n (n - 1) / 2] instructions plus the entangler's
    (doubled below), with the entangler's variables as its variables. *)
Theorem objective_records_circuit_size (this : MC_VQE D)
    (entangler : CompositeInstruction D) (st : ObjectiveState D)
    (x dx : list D) :
  ready this →
  gradient_fits this x dx →
  Z.of_nat (length (diagonal st)) = nStates this →
  mdims (entangledHamiltonian st) (nStates this) (nStates this) →
  1 ≤ nStates this →
  1 ≤ nChromophores this →
  ∃ kernel e dx' st',
    state_kernel this entangler (nStates this - 1) = Done kernel ∧
    objective depth_of this entangler st x dx = Done (e, dx', st') ∧
    depth st' = Some (depth_of kernel) ∧
    nGates st' = Some (nInstructions kernel) ∧
    2 * nInstructions kernel =
      2 + 10 * (nChromophores this - 1)
      + nChromophores this * (nChromophores this - 1)
      + 2 * nInstructions entangler ∧
    getVariables kernel = getVariables entangler.
Proof.
  intros Hready Hfit Hd Hm Hs Hn.
  destruct (Hready) as ([acc Hacc] & _).
  destruct (objective_spec depth_of this entangler st x dx acc)
    as (kernels & st' & Hks & Hrun & _ & Hdepth & Hgates & _); [done..|].
  pose proof (length_mapM' _ _ _ Hks) as Hlen.
  unfold range in Hlen. rewrite length_seqZ in Hlen.
  destruct (mapM'_lookup _ _ _ (Z.to_nat (nStates this - 1))
              (nStates this - 1) Hks) as (kernel & Hkernel & Hlook).
  { unfold range. rewrite lookup_seqZ. split; lia. }
  assert (last kernels = Some kernel) as Hlast.
  { rewrite last_lookup. rewrite <- Hlook. f_equal. lia. }
  unfold last_kernel_info in *. rewrite Hlast in *.
  exists kernel. eexists _, _, st'. do 4 (split; [done|]).
  unfold state_kernel in Hkernel.
  apply bind_Done in Hkernel as (angles & Ha & Hkernel).
  apply bind_Done in Hkernel as (k0 & Hk0 & ?). simplify_eq.
  destruct (ready_column this (nStates this - 1) Hready)
    as (angles' & Ha' & _ & Hlen'); [lia|].
  rewrite Ha in Ha'. simplify_eq.
  destruct (statePreparationCircuit_size this angles' Hn Hlen')
    as (c & Hc & Hcount & Hvars & _).
  rewrite Hk0 in Hc. simplify_eq.
  rewrite appendEntangler_spec. unfold nInstructions in *. simpl.
  rewrite length_app, Hvars. split; [lia|done].
Qed.
End ObjectiveResults.

Lemma objective_returns_average_witness :
  ∃ energies dx' st',
    mapM' (state_energy (two_sites false 1)
             (entanglerCircuit (two_sites false 1)) [])
          (range 0 (nStates (two_sites false 1))) = Done energies ∧
    objective nInstructions (two_sites false 1)
      (entanglerCircuit (two_sites false 1))
      (first_call_state (two_sites false 1) 9%float) [] [] =
      Done ((foldl dadd d0 energies
             / of_int (nStates (two_sites false 1)))%dbl, dx', st') ∧
    diagonal st' = energies.
Proof.
  apply (objective_returns_average nInstructions (two_sites false 1)).
  - split; [by eexists|]. split; [simpl; lia|].
    repeat constructor; simpl; lia.
  - exact I.
  - reflexivity.
  - split; [reflexivity|]. repeat constructor.
Defined.

Lemma objective_averages_gradients_witness :
  ∃ kernels e st',
    mapM' (state_kernel two_sites_gradient (entanglerCircuit two_sites_gradient))
          (range 0 (nStates two_sites_gradient)) = Done kernels ∧
    objective nInstructions two_sites_gradient
      (entanglerCircuit two_sites_gradient)
      (first_call_state two_sites_gradient 9%float)
      [0.5; 0.25]%float [7; 7]%float =
      Done (e,
            foldl (λ averageGrad kernel,
                     add_state_gradient (nStates two_sites_gradient)
                       (length [7; 7]%float) averageGrad
                       (gradient pump_gradient kernel [0.5; 0.25]%float
                          [7; 7]%float))
                  (vzero (Z.of_nat (length [0.5; 0.25]%float))) kernels,
            st').
Proof.
  apply (objective_averages_gradients nInstructions two_sites_gradient).
  - reflexivity.
  - discriminate.
  - simpl. lia.
  - intros kernel. simpl. lia.
  - split; [by eexists|]. split; [simpl; lia|].
    repeat constructor; simpl; lia.
  - reflexivity.
  - split; [reflexivity|]. repeat constructor.
Defined.

Lemma objective_records_circuit_size_witness :
  ∃ kernel e dx' st',
    state_kernel (two_sites false 1) (entanglerCircuit (two_sites false 1))
      (nStates (two_sites false 1) - 1) = Done kernel ∧
    objective nInstructions (two_sites false 1)
      (entanglerCircuit (two_sites false 1))
      (first_call_state (two_sites false 1) 9%float) [] [] =
      Done (e, dx', st') ∧
    depth st' = Some (nInstructions kernel) ∧
    nGates st' = Some (nInstructions kernel) ∧
    2 * nInstructions kernel =
      2 + 10 * (nChromophores (two_sites false 1) - 1)
      + nChromophores (two_sites false 1)
        * (nChromophores (two_sites false 1) - 1)
      + 2 * nInstructions (entanglerCircuit (two_sites false 1)) ∧
    getVariables kernel = getVariables (entanglerCircuit (two_sites false 1)).
Proof.
  apply (objective_records_circuit_size nInstructions (two_sites false 1)).
  - split; [by eexists|]. split; [simpl; lia|].
    repeat constructor; simpl; lia.
  - exact I.
  - reflexivity.
  - split; [reflexivity|]. repeat constructor.
  - simpl. lia.
  - simpl. lia.
Defined.

(** The gradient the objective leaves for [two_sites_gradient]: the average
    [(1 + 2) / 2] of the pump angles, in both components. *)
Lemma two_sites_gradient_average :
  ∃ e st',
    objective nInstructions two_sites_gradient
      (entanglerCircuit two_sites_gradient)
      (first_call_state two_sites_gradient 9%float)
      [0.5; 0.25]%float [7; 7]%float =
    Done (e, [1.5; 1.5]%float, st').
Proof. eexists _, _. vm_compute. reflexivity. Qed.

(** ** The two overloads of [execute] *)

Section ExecuteAt.
Context {D : Type} `{Scalar D}.
Context (depth_of : CompositeInstruction D → Z).
Context (SelfAdjointEigenSolver : matrix D → list D * matrix D).

(** The interference stage as a whole: it writes the entries off the
    diagonal, each pair once, and nothing else. *)
Lemma interference_spec (this : MC_VQE D) (entangler : CompositeInstruction D)
    (x : list D) (m : matrix D) :
  ready this →
  mdims m (nStates this) (nStates this) →
  ∃ m',
    interference this entangler x m = Done m' ∧
    mdims m' (nStates this) (nStates this) ∧
    ∀ i j, mget m' i j =
           if decide (0 ≤ Z.min i j ∧ Z.min i j < Z.max i j
                      ∧ Z.max i j < nStates this)
           then spec_interference_entry this entangler x (Z.min i j) (Z.max i j)
           else mget m i j.
Proof.
  intros Hready Hm. unfold interference.
  destruct (decide (nStates this = 0)) as [Hz|Hnz].
  { rewrite range_nil by lia. exists m. split; [done|]. split; [done|].
    intros i j. rewrite decide_False; [done|]. lia. }
  assert (1 ≤ nStates this) by (destruct Hready as (_ & ? & _); lia).
  destruct (foldM_range_total
    (λ A, interference_inv this entangler x m (A - 1) (nStates this))
    (λ stateA m,
       foldM (interference_pair this entangler x stateA)
             (range (stateA + 1) (nStates this)) m)
    0 (nStates this - 1) m) as (m' & Hrun & Hinv); [lia| | |].
  - split; [done|]. intros i j. rewrite decide_False; [done|].
    unfold pair_handled. lia.
  - intros A m1 HA [Hd1 Hget1].
    destruct (interference_inner this entangler x m m1 A)
      as (m2 & Hm2 & Hd2 & Hget2); [done|lia| |].
    + split; [done|]. intros i j. rewrite Hget1.
      unfold pair_handled. repeat case_decide; try done; lia.
    + exists m2. split; [done|]. split; [done|].
      intros i j. rewrite Hget2.
      unfold pair_handled. repeat case_decide; try done; lia.
  - exists m'. split; [done|]. destruct Hinv as [Hd Hget]. split; [done|].
    intros i j. rewrite Hget.
    unfold pair_handled. repeat case_decide; try done; lia.
Qed.

(** The loop over the states of [execute(buffer, x)]. *)
Lemma execute_at_states (this : MC_VQE D) (entangler : CompositeInstruction D)
    (x : list D) :
  ready this →
  ∃ energies m,
    mapM' (state_energy this entangler x) (range 0 (nStates this)) =
      Done energies ∧
    foldM (λ state '(averageEnergy, m),
             angles ← mcol (CISGateAngles this) state;
             kernel ← statePreparationCircuit this angles;
             let kernel := appendEntangler kernel entangler in
             energy ← vqeWrapper this (observable this) kernel x;
             m ← mset m state state energy;
             Done ((averageEnergy + energy / of_int (nStates this))%dbl, m))
          (range 0 (nStates this))
          (of_int 0, mzero (nStates this) (nStates this)) =
      Done (foldl (λ a e, (a + e / of_int (nStates this))%dbl) (of_int 0)
                  energies, m) ∧
    mdims m (nStates this) (nStates this) ∧
    ∀ i j, mget m i j =
           if decide (i = j ∧ 0 ≤ i < nStates this) then vget energies i
           else mget (mzero (nStates this) (nStates this)) i j.
Proof.
  intros Hready.
  assert (0 ≤ nStates this) as Hn by (destruct Hready as (_ & ? & _); lia).
  destruct (Hready) as ([acc Hacc] & _).
  match goal with
  | |- ∃ energies m, _ ∧ foldM ?f _ ?s0 = _ ∧ _ =>
      destruct (foldM_range_total
        (λ k (a : D * matrix D),
           ∃ energies,
             mapM' (state_energy this entangler x) (range 0 k) = Done energies ∧
             a.1 = foldl (λ a e, (a + e / of_int (nStates this))%dbl)
                         (of_int 0) energies ∧
             mdims a.2 (nStates this) (nStates this) ∧
             ∀ i j, mget a.2 i j =
                    if decide (i = j ∧ 0 ≤ i < k) then vget energies i
                    else mget (mzero (nStates this) (nStates this)) i j)
        f 0 (nStates this) s0)
        as ([avg m] & Hrun & energies & Hes & Havg & Hm & Hget)
  end; [done| | |].
  - exists []. split; [done|]. split; [done|].
    split; [by apply mzero_dims|].
    intros i j. rewrite decide_False; [done|]. lia.
  - intros k [avg m] Hk (energies & Hes & Havg & Hm & Hget).
    cbn [fst snd] in *. cbv beta.
    destruct (ready_state_kernel this k Hready Hk) as (angles & k0 & Ha & Hk0).
    rewrite Ha, bind_Done_l, Hk0, bind_Done_l.
    unfold vqeWrapper at 1. rewrite Hacc, bind_Done_l.
    set (energy := vqe_execute acc (observable this)
                     (appendEntangler k0 entangler) x).
    destruct (mset_total m _ _ k k energy Hm) as [m' Hm']; [lia..|].
    rewrite Hm', bind_Done_l. eexists. split; [done|].
    exists (energies ++ [energy]). cbn [fst snd].
    assert (state_energy this entangler x k = Done energy) as Hen.
    { unfold state_energy, state_kernel, vqeWrapper.
      by rewrite Ha, bind_Done_l, Hk0, !bind_Done_l, Hacc. }
    pose proof (length_mapM' _ _ _ Hes) as Hlen.
    unfold range in Hlen. rewrite length_seqZ in Hlen.
    split; [by rewrite range_snoc by lia; apply mapM'_snoc|].
    split; [by rewrite foldl_app, Havg|].
    split; [by eapply mset_dims|].
    intros i j. rewrite (mget_mset _ _ _ _ _ i j Hm'), Hget.
    destruct (decide (i = k ∧ j = k)) as [[-> ->]|Hne].
    + rewrite decide_True by lia. symmetry. apply vget_Done.
      split; [lia|]. rewrite lookup_app_r by lia.
      by replace (Z.to_nat k - length energies)%nat with 0%nat by lia.
    + destruct (decide (i = j ∧ 0 ≤ i < k)) as [[-> Hi]|Hne'].
      * rewrite decide_True by lia.
        unfold vget. destruct (j <? 0); [done|].
        by rewrite lookup_app_l by lia.
      * rewrite decide_False; [done|lia].
  - exists energies, m. cbn [fst snd] in *. subst avg. done.
Qed.

(** X28: [execute(buffer, x)] on a ready object completes.  The average it
    reports is the sum, from [0.0], of the energies of the states each
    divided by the number of states; the diagonal of the entangled
    Hamiltonian holds every energy (this overload has no best-so-far
    policy); off the diagonal it holds the interference entries, mirrored,
    or zero when the interference stage is switched off; the spectrum is
    returned with the interference stage only. *)
Theorem execute_at_postcondition (this : MC_VQE D) (x : list D) :
  ready this →
  ∃ energies m,
    mapM' (state_energy this (entanglerCircuit this) x)
          (range 0 (nStates this)) = Done energies ∧
    execute_at SelfAdjointEigenSolver this x =
      Done (foldl (λ a e, (a + e / of_int (nStates this))%dbl) (of_int 0)
                  energies,
            m,
            if doInterference this then Some (SelfAdjointEigenSolver m).1
            else None) ∧
    mdims m (nStates this) (nStates this) ∧
    (∀ i, 0 ≤ i < nStates this → mget m i i = vget energies i) ∧
    (∀ a b, 0 ≤ a → a < b → b < nStates this →
       mget m a b =
         (if doInterference this
          then spec_interference_entry this (entanglerCircuit this) x a b
          else Done d0) ∧
       mget m b a = mget m a b).
Proof.
  intros Hready.
  assert (0 ≤ nStates this) as Hn by (destruct Hready as (_ & ? & _); lia).
  destruct (execute_at_states this (entanglerCircuit this) x Hready)
    as (energies & m & Hes & Hloop & Hm & Hget).
  exists energies. unfold execute_at.
  destruct (Z.ltb_spec (nStates this) 0); [lia|]. rewrite bind_Done_l.
  cbv zeta in Hloop |- *. rewrite Hloop, bind_Done_l.
  destruct (doInterference this).
  - destruct (interference_spec this (entanglerCircuit this) x m Hready Hm)
      as (m' & -> & Hm' & Hget').
    rewrite bind_Done_l. exists m'. split; [done|]. split; [done|].
    split; [done|]. split.
    + intros i Hi. rewrite Hget', decide_False by lia.
      rewrite Hget, decide_True by lia. done.
    + intros a b Ha Hab Hb. rewrite !Hget'.
      rewrite Z.min_l, Z.max_r, Z.min_r, Z.max_l by lia.
      by rewrite !decide_True by lia.
  - exists m. split; [done|]. split; [done|]. split; [done|]. split.
    + intros i Hi. rewrite Hget, decide_True by lia. done.
    + intros a b Ha Hab Hb. rewrite !Hget, !decide_False by lia.
      rewrite !mget_mzero by lia. done.
Qed.

(** Outcomes of code that has no error path. *)
Lemma no_report_Undefined_or_Done {A : Type} (o : outcome A) :
  no_report o → o = Undefined ∨ ∃ a, o = Done a.
Proof. destruct o; simpl; intros; try done; eauto. Qed.

(** X29: the loops over the states read column [state] of the angle matrix
    for every [state < nStates].  When the object has more states than the
    matrix has columns (the option ["n-states"] is stored unchecked, after
    the matrix has been sized for [nChromophores + 1] states) both
    [execute(buffer, x)] and the objective run out of the bounds, at the
    latest at the first missing column. *)
Theorem more_states_than_columns (this : MC_VQE D) (x : list D) :
  Z.of_nat (length (CISGateAngles this)) < nStates this →
  execute_at SelfAdjointEigenSolver this x = Undefined ∧
  ∀ entangler st dx,
    objective depth_of this entangler st x dx = Undefined.
Proof.
  intros Hcols.
  set (c := Z.of_nat (length (CISGateAngles this))) in *.
  assert (mcol (CISGateAngles this) c = Undefined) as Hcol.
  { unfold mcol, vget. destruct (c <? 0); [done|].
    rewrite (proj2 (lookup_ge_None _ _)); [done|]. lia. }
  assert (range 0 (nStates this) =
            range 0 c ++ c :: range (c + 1) (nStates this)) as Hrange.
  { unfold range. replace (nStates this - 0) with (c + (nStates this - c)) by lia.
    rewrite seqZ_app by lia. f_equal; [f_equal; lia|].
    rewrite seqZ_cons by lia. f_equal. f_equal; lia. }
  split.
  - unfold execute_at.
    destruct (Z.ltb_spec (nStates this) 0); [lia|]. rewrite bind_Done_l.
    cbv zeta. rewrite Hrange, foldM_app.
    match goal with
    | |- (foldM ?f ?l ?s ≫= _) ≫= _ = _ =>
        destruct (no_report_Undefined_or_Done (foldM f l s)) as [->|[[a m] ->]]
    end; [|done|].
    { apply no_report_foldM. intros state [avg m].
      unfold mcol, statePreparationCircuit, vqeWrapper.
      destruct (accelerator this); no_report_steps. }
    rewrite bind_Done_l, foldM_cons, Hcol. done.
  - intros entangler st dx. unfold objective. cbv zeta.
    rewrite Hrange, foldM_app.
    match goal with
    | |- (foldM ?f ?l ?s ≫= _) ≫= _ = _ =>
        destruct (no_report_Undefined_or_Done (foldM f l s))
          as [->|[[[e g] t] ->]]
    end; [|done|].
    { apply no_report_foldM. intros state [[e g] t].
      unfold objective_state_step, mcol, statePreparationCircuit, vqeWrapper.
      destruct (accelerator this), (gradientStrategy this); no_report_steps. }
    rewrite bind_Done_l, foldM_cons.
    assert (objective_state_step depth_of this entangler x dx c (e, g, t)
              = Undefined) as ->; [|done].
    unfold objective_state_step. by rewrite Hcol.
Qed.
End ExecuteAt.

(** ** The interference stage, in the words of the specification *)

Section InterferenceWords.
Context {D : Type} `{Scalar D}.

Lemma vdivs_vadd (a b : list D) (s : D) :
  vdivs (vadd a b) s = zip_with (λ p q, ((p + q) / s)%dbl) a b.
Proof.
  unfold vdivs, vadd. revert b.
  induction a as [|p a IH]; intros [|q b]; csimpl; try done.
  by rewrite IH.
Qed.

Lemma vdivs_vsub (a b : list D) (s : D) :
  vdivs (vsub a b) s = zip_with (λ p q, ((p - q) / s)%dbl) a b.
Proof.
  unfold vdivs, vsub. revert b.
  induction a as [|p a IH]; intros [|q b]; csimpl; try done.
  by rewrite IH.
Qed.

(** The value the loops store for a pair, spelled out. *)
Lemma interference_entry_words (this : MC_VQE D)
    (entangler : CompositeInstruction D) (x : list D) (a b : Z) (v : D)
    (backend : Accelerator D) :
  accelerator this = Some backend →
  spec_interference_entry this entangler x a b = Done v →
  ∃ angles_a angles_b plusCircuit minusCircuit,
    CISGateAngles this !! Z.to_nat a = Some angles_a ∧
    CISGateAngles this !! Z.to_nat b = Some angles_b ∧
    statePreparationCircuit this (spec_plus_angles angles_a angles_b)
      = Done plusCircuit ∧
    statePreparationCircuit this (spec_minus_angles angles_a angles_b)
      = Done minusCircuit ∧
    v = ((vqe_execute backend (observable this)
            (spec_appended plusCircuit entangler) x
          - vqe_execute backend (observable this)
              (spec_appended minusCircuit entangler) x)
         / dsqrt (of_int 2))%dbl.
Proof.
  intros Hacc Hv. unfold spec_interference_entry, mcol, vqeWrapper in Hv.
  rewrite Hacc in Hv.
  apply bind_Done in Hv as (angles_a & Ha & Hv).
  apply bind_Done in Hv as (angles_b & Hb & Hv).
  apply bind_Done in Hv as (plus & Hplus & Hv).
  apply bind_Done in Hv as (minus & Hminus & Hv).
  rewrite !bind_Done_l in Hv. simplify_eq.
  apply vget_Done in Ha as [_ Ha]. apply vget_Done in Hb as [_ Hb].
  exists angles_a, angles_b, plus, minus.
  unfold spec_plus_angles, spec_minus_angles, spec_appended.
  rewrite <- vdivs_vadd, <- vdivs_vsub, <- !appendEntangler_spec. done.
Qed.

(** C4: the interference stage completes on a ready object.  Afterwards,
    for every pair [a < b] of reference states, both entries [(a, b)] and
    [(b, a)] of the entangled Hamiltonian hold [(plusTerm - minusTerm)/sqrt 2],
    where [plusTerm] and [minusTerm] are the values the backend returns,
    for the Hamiltonian at the parameters [x], on the circuits built from
    [(angles_a + angles_b)/sqrt 2] and [(angles_a - angles_b)/sqrt 2] with
    the entangler appended.  The diagonal is as the optimization left it,
    and so the matrix is symmetric. *)
Theorem interference_postcondition (this : MC_VQE D)
    (entangler : CompositeInstruction D) (x : list D) (m : matrix D) :
  ready this →
  mdims m (nStates this) (nStates this) →
  ∃ backend m',
    accelerator this = Some backend ∧
    interference this entangler x m = Done m' ∧
    (∀ a b, 0 ≤ a → a < b → b < nStates this →
       ∃ angles_a angles_b plusCircuit minusCircuit,
         CISGateAngles this !! Z.to_nat a = Some angles_a ∧
         CISGateAngles this !! Z.to_nat b = Some angles_b ∧
         statePreparationCircuit this (spec_plus_angles angles_a angles_b)
           = Done plusCircuit ∧
         statePreparationCircuit this (spec_minus_angles angles_a angles_b)
           = Done minusCircuit ∧
         let plusTerm :=
           vqe_execute backend (observable this)
             (spec_appended plusCircuit entangler) x in
         let minusTerm :=
           vqe_execute backend (observable this)
             (spec_appended minusCircuit entangler) x in
         mget m' a b = Done ((plusTerm - minusTerm) / dsqrt (of_int 2))%dbl ∧
         mget m' b a = Done ((plusTerm - minusTerm) / dsqrt (of_int 2))%dbl) ∧
    (∀ i, mget m' i i = mget m i i) ∧
    (∀ i j, 0 ≤ i < nStates this → 0 ≤ j < nStates this →
       mget m' i j = mget m' j i).
Proof.
  intros Hready Hm.
  destruct (Hready) as ([backend Hacc] & _).
  destruct (interference_spec this entangler x m Hready Hm)
    as (m' & Hrun & _ & Hget).
  exists backend, m'. split; [done|]. split; [done|].
  assert (∀ a b, 0 ≤ a → a < b → b < nStates this →
            ∃ v, spec_interference_entry this entangler x a b = Done v ∧
                 mget m' a b = Done v ∧ mget m' b a = Done v) as Hpairs.
  { intros a b Ha Hab Hb.
    destruct (interference_pair_spec this entangler x a b m)
      as (v & _ & Hv & _); [done|lia|lia|done|].
    exists v. split; [done|]. rewrite !Hget.
    rewrite Z.min_l, Z.max_r, Z.min_r, Z.max_l by lia.
    by rewrite !decide_True by lia. }
  split; [|split].
  - intros a b Ha Hab Hb.
    destruct (Hpairs a b Ha Hab Hb) as (v & Hv & Hab' & Hba').
    destruct (interference_entry_words this entangler x a b v backend
                Hacc Hv)
      as (angles_a & angles_b & plus & minus & ? & ? & ? & ? & ->).
    exists angles_a, angles_b, plus, minus. done.
  - intros i. rewrite Hget, decide_False; [done|]. lia.
  - intros i j Hi Hj.
    destruct (Z.lt_total i j) as [Hlt|[->|Hlt]]; [|done|].
    + destruct (Hpairs i j) as (v & _ & -> & ->); [lia..|done].
    + destruct (Hpairs j i) as (v & _ & -> & ->); [lia..|done].
Qed.
End InterferenceWords.

(** C4 on two states. *)
Lemma interference_postcondition_witness :
  ∃ backend m',
    accelerator (two_sites true 1) = Some backend ∧
    interference (two_sites true 1) (entanglerCircuit (two_sites true 1))
                 [] (mzero 2 2) = Done m' ∧
    (∀ a b, 0 ≤ a → a < b → b < nStates (two_sites true 1) →
       ∃ angles_a angles_b plusCircuit minusCircuit,
         CISGateAngles (two_sites true 1) !! Z.to_nat a = Some angles_a ∧
         CISGateAngles (two_sites true 1) !! Z.to_nat b = Some angles_b ∧
         statePreparationCircuit (two_sites true 1)
           (spec_plus_angles angles_a angles_b) = Done plusCircuit ∧
         statePreparationCircuit (two_sites true 1)
           (spec_minus_angles angles_a angles_b) = Done minusCircuit ∧
         let plusTerm :=
           vqe_execute backend (observable (two_sites true 1))
             (spec_appended plusCircuit
                (entanglerCircuit (two_sites true 1))) [] in
         let minusTerm :=
           vqe_execute backend (observable (two_sites true 1))
             (spec_appended minusCircuit
                (entanglerCircuit (two_sites true 1))) [] in
         mget m' a b = Done ((plusTerm - minusTerm) / dsqrt (of_int 2))%dbl ∧
         mget m' b a = Done ((plusTerm - minusTerm) / dsqrt (of_int 2))%dbl) ∧
    (∀ i, mget m' i i = mget (mzero 2 2) i i) ∧
    (∀ i j, 0 ≤ i < nStates (two_sites true 1) →
            0 ≤ j < nStates (two_sites true 1) →
            mget m' i j = mget m' j i).
Proof.
  apply (interference_postcondition (two_sites true 1)).
  - split; [by eexists|]. split; [simpl; lia|].
    repeat constructor; simpl; lia.
  - split; [reflexivity|]. repeat constructor.
Defined.

Section ExecuteRun.
Context {D : Type} `{Scalar D}.
Context (depth_of : CompositeInstruction D → Z).
Context (SelfAdjointEigenSolver : matrix D → list D * matrix D).

(** An optimizer run over the objective completes, whatever the optimizer
    does with the values it gets, and these values are the averages of the
    state energies and the averaged gradients: what the objective has
    captured from the earlier calls has no part in them. *)
Lemma run_optimizer_total (this : MC_VQE D) (entangler : CompositeInstruction D)
    (r : OptRun D) (st : ObjectiveState D) :
  ready this →
  run_fits this r →
  Z.of_nat (length (diagonal st)) = nStates this →
  mdims (entangledHamiltonian st) (nStates this) (nStates this) →
  ∃ value params st',
    run_optimizer depth_of this entangler r st = Done (value, params, st') ∧
    run_answered this entangler r = Done (value, params) ∧
    mdims (entangledHamiltonian st') (nStates this) (nStates this).
Proof.
  intros Hready. revert st.
  induction r as [value x|x dx next IH]; intros st Hfits Hd Hm.
  - exists value, x, st. done.
  - destruct Hfits as [Hfit Hnext].
    destruct (Hready) as ([acc Hacc] & Hn & _).
    destruct (objective_spec depth_of this entangler st x dx acc)
      as (kernels & st1 & Hks & Hrun & Hdiag & _ & _ & Hm1); [done..|].
    cbn [run_optimizer run_answered].
    rewrite Hrun, Hks, (state_energies this entangler x acc _ kernels Hacc Hks).
    rewrite !bind_Done_l. cbv zeta.
    match goal with
    | |- ∃ value params st',
           run_optimizer _ _ _ (next ?e ?dx') st1 = _ ∧ _ =>
        destruct (IH e dx' st1) as (value & params & st' & Hrest & Hends & Hm')
    end; [done| |done|].
    { rewrite Hdiag, length_fmap, (length_mapM' _ _ _ Hks). unfold range.
      rewrite length_seqZ. lia. }
    by exists value, params, st'.
Qed.

(** X27: [execute(buffer)] on a ready object with an optimizer completes,
    whatever the optimizer does with the values it is given.  It reports
    the value and the parameters the optimizer ends with when each of its
    evaluations is answered with the average of the state energies at the
    point it asks for and with the averaged gradient; when the interference
    stage is on, the entries off the diagonal of the matrix it diagonalizes
    are the interference entries computed at these final parameters,
    mirrored, and the spectrum is reported; otherwise no spectrum is. *)
Theorem execute_postcondition (this : MC_VQE D) (opt : Optimizer D)
    (junk : D) :
  ready this →
  optimizer this = Some opt →
  run_fits this (optimize opt (nVariables (entanglerCircuit this))) →
  ∃ info m,
    execute depth_of SelfAdjointEigenSolver this junk = Done (info, m) ∧
    run_answered this (entanglerCircuit this)
      (optimize opt (nVariables (entanglerCircuit this)))
      = Done (opt_average_energy info, opt_params info) ∧
    mdims m (nStates this) (nStates this) ∧
    opt_spectrum info =
      (if doInterference this then Some (SelfAdjointEigenSolver m).1
       else None) ∧
    (doInterference this = true →
     ∀ a b, 0 ≤ a → a < b → b < nStates this →
       mget m a b =
         spec_interference_entry this (entanglerCircuit this)
           (opt_params info) a b ∧
       mget m b a = mget m a b).
Proof.
  intros Hready Hopt Hfits. unfold execute.
  assert (0 ≤ nStates this) as Hn by (destruct Hready as (_ & ? & _); lia).
  destruct (Z.ltb_spec (nStates this) 0); [lia|]. rewrite bind_Done_l.
  cbv zeta. rewrite Hopt, bind_Done_l.
  destruct (run_optimizer_total this (entanglerCircuit this)
              (optimize opt (nVariables (entanglerCircuit this)))
              (first_call_state this junk))
    as (value & params & st' & -> & Hends & Hm); [done|done| | |].
  { simpl. rewrite length_replicate. lia. }
  { simpl. by apply mzero_dims. }
  rewrite bind_Done_l.
  destruct (doInterference this).
  - destruct (interference_spec this (entanglerCircuit this) params
                (entangledHamiltonian st') Hready Hm)
      as (m' & -> & Hm' & Hget).
    rewrite bind_Done_l. eexists _, m'. split; [done|]. simpl.
    split; [done|]. split; [done|]. split; [done|].
    intros _ a b Ha Hab Hb. rewrite !Hget.
    rewrite Z.min_l, Z.max_r, Z.min_r, Z.max_l by lia.
    by rewrite !decide_True by lia.
  - eexists _, _. split; [done|]. simpl.
    split; [done|]. split; [done|]. split; [done|]. done.
Qed.
End ExecuteRun.

Lemma execute_postcondition_witness :
  ∃ info m,
    execute nInstructions identity_solver two_sites_run 9%float =
      Done (info, m) ∧
    run_answered two_sites_run (entanglerCircuit two_sites_run)
      (optimize evaluate_once (nVariables (entanglerCircuit two_sites_run)))
      = Done (opt_average_energy info, opt_params info) ∧
    mdims m (nStates two_sites_run) (nStates two_sites_run) ∧
    opt_spectrum info =
      (if doInterference two_sites_run then Some (identity_solver m).1
       else None) ∧
    (doInterference two_sites_run = true →
     ∀ a b, 0 ≤ a → a < b → b < nStates two_sites_run →
       mget m a b =
         spec_interference_entry two_sites_run
           (entanglerCircuit two_sites_run) (opt_params info) a b ∧
       mget m b a = mget m a b).
Proof.
  apply (execute_postcondition nInstructions identity_solver two_sites_run
           evaluate_once 9%float).
  - split; [by eexists|]. split; [simpl; lia|].
    repeat constructor; simpl; lia.
  - reflexivity.
  - simpl. done.
Defined.

(** ** The loader *)

(** ** Strings *)

Lemma string_app_nil (s : string) : "" +:+ s = s.
Proof. reflexivity. Qed.

Lemma string_app_cons (c : ascii) (s1 s2 : string) :
  String c s1 +:+ s2 = String c (s1 +:+ s2).
Proof. reflexivity. Qed.

Lemma string_app_empty_r (s : string) : s +:+ "" = s.
Proof.
  induction s as [|c s IH]; [done|]. by rewrite string_app_cons, IH.
Qed.

Lemma string_app_assoc (s1 s2 s3 : string) :
  (s1 +:+ s2) +:+ s3 = s1 +:+ (s2 +:+ s3).
Proof.
  induction s1 as [|c s1 IH]; [done|]. by rewrite !string_app_cons, IH.
Qed.

Lemma string_length_app (s1 s2 : string) :
  String.length (s1 +:+ s2) = (String.length s1 + String.length s2)%nat.
Proof.
  induction s1 as [|c s1 IH]; [done|].
  rewrite string_app_cons. simpl. by rewrite IH.
Qed.

Lemma find_colon_from_none (s : string) (i : Z) :
  has_char ":" s = false → find_colon_from s i = npos.
Proof.
  revert i. induction s as [|c s IH]; intros i Hs; simpl in *; [done|].
  apply orb_false_iff in Hs as [-> Hs]. by apply IH.
Qed.

Lemma find_colon_from_first (label rest : string) (i : Z) :
  has_char ":" label = false →
  find_colon_from (label +:+ ":" +:+ rest) i = i + Z.of_nat (String.length label).
Proof.
  revert i. induction label as [|c s IH]; intros i Hs.
  - rewrite string_app_nil. simpl. lia.
  - rewrite string_app_cons. simpl in *.
    apply orb_false_iff in Hs as [-> Hs]. rewrite IH by done. lia.
Qed.

Lemma drop_string_app (label rest : string) :
  drop_string (String.length label) (label +:+ rest) = rest.
Proof.
  induction label as [|c s IH]; [by destruct rest|].
  by rewrite string_app_cons.
Qed.

Lemma find_colon_from_bound (s : string) (i : Z) :
  find_colon_from s i = npos ∨
  i ≤ find_colon_from s i < i + Z.of_nat (String.length s).
Proof.
  revert i. induction s as [|c s IH]; intros i; simpl; [by left|].
  destruct (Ascii.eqb c ":"); [right; lia|].
  destruct (IH (i + 1)) as [->|?]; [by left|right; lia].
Qed.

(** X6: [line.substr(line.find(":") + 1)] never throws
    [std::out_of_range], whatever the line: the position is [0] when there
    is no colon ([npos + 1] wraps around) and at most the length of the line
    otherwise. *)
Theorem after_colon_never_throws (line : string) :
  ∃ s, after_colon line = Done s.
Proof.
  unfold after_colon, substr.
  destruct (Z.leb_spec (to_size_t (find_colon line + 1))
              (Z.of_nat (String.length line))) as [|Hlt]; [by eexists|].
  exfalso. unfold find_colon in Hlt.
  destruct (find_colon_from_bound line 0) as [Hn|Hb].
  - rewrite Hn in Hlt. unfold npos, to_size_t in Hlt.
    replace (2 ^ 64 - 1 + 1) with (1 * 2 ^ 64) in Hlt by lia.
    rewrite Z.mod_mul in Hlt by lia. lia.
  - unfold to_size_t in Hlt.
    pose proof (Z.mod_le (find_colon_from line 0 + 1) (2 ^ 64)
                  ltac:(lia) ltac:(lia)). lia.
Qed.

Lemma substr_Done (s : string) (pos : Z) :
  pos ≤ Z.of_nat (String.length s) →
  substr s pos = Done (drop_string (Z.to_nat pos) s).
Proof. intros. unfold substr. by destruct (Z.leb_spec pos (Z.of_nat (String.length s))); [|lia]. Qed.

Lemma after_colon_value (label value : string) :
  has_char ":" label = false →
  Z.of_nat (String.length label) + 1 < 2 ^ 64 →
  after_colon (label +:+ ":" +:+ value) = Done value.
Proof.
  intros Hlabel Hlen. unfold after_colon, find_colon.
  rewrite find_colon_from_first by done.
  unfold to_size_t. rewrite Z.mod_small by lia.
  rewrite substr_Done.
  2:{ rewrite !string_length_app. simpl. lia. }
  f_equal.
  replace (Z.to_nat (0 + Z.of_nat (String.length label) + 1))
    with (String.length (label +:+ ":")).
  2:{ rewrite string_length_app. simpl. lia. }
  rewrite <- (string_app_assoc label ":" value).
  apply drop_string_app.
Qed.

Lemma after_colon_whole (line : string) :
  has_char ":" line = false → after_colon line = Done line.
Proof.
  intros Hline. unfold after_colon, find_colon.
  rewrite find_colon_from_none by done. unfold npos, to_size_t.
  replace (2 ^ 64 - 1 + 1) with (1 * 2 ^ 64) by lia.
  rewrite Z.mod_mul by lia. by rewrite substr_Done by lia.
Qed.

(** X5: for a label without colon, the text handed to [std::stod] for the
    line [label:value] is [value]; for a line without any colon it is the
    whole line, read from position [npos + 1 = 0]. *)
Theorem after_colon_spec (label value : string) :
  has_char ":" label = false →
  Z.of_nat (String.length label) + 1 < 2 ^ 64 →
  after_colon (label +:+ ":" +:+ value) = Done value ∧
  after_colon label = Done label.
Proof.
  intros Hlabel Hlen. split.
  - by apply after_colon_value.
  - by apply after_colon_whole.
Qed.

Lemma after_colon_spec_witness :
  after_colon ("Ground state energy" +:+ ":" +:+ "-1.5") = Done "-1.5" ∧
  after_colon "Ground state energy" = Done "Ground state energy".
Proof.
  apply (after_colon_spec "Ground state energy" "-1.5").
  - reflexivity.
  - simpl. lia.
Defined.

(** ** Comma-separated components *)

Lemma comma_tokens_token (t rest cur : string) (extracted : bool) :
  has_char "," t = false →
  comma_tokens (t +:+ rest) cur extracted =
    comma_tokens rest (cur +:+ t)
      (extracted || negb (String.eqb t "")).
Proof.
  revert cur extracted. induction t as [|c t IH]; intros cur e Ht.
  - by rewrite string_app_nil, string_app_empty_r, orb_false_r.
  - rewrite string_app_cons. simpl in *.
    apply orb_false_iff in Ht as [-> Ht]. rewrite IH by done.
    rewrite string_app_assoc, string_app_cons, string_app_nil.
    by rewrite orb_true_r.
Qed.

Lemma comma_tokens_concat (ts : list string) :
  Forall (λ t, has_char "," t = false) ts →
  last ts ≠ Some "" →
  comma_tokens (String.concat "," ts) "" false = ts.
Proof.
  induction ts as [|t ts IH]; intros Hts Hlast; [done|].
  apply Forall_cons in Hts as [Ht Hts].
  destruct ts as [|t' ts].
  - simpl String.concat. rewrite <- (string_app_empty_r t) at 1.
    rewrite comma_tokens_token by done. simpl.
    destruct (String.eqb_spec t ""); [by subst|done].
  - change (String.concat "," (t :: t' :: ts))
      with (t +:+ "," +:+ String.concat "," (t' :: ts)).
    rewrite comma_tokens_token by done. rewrite string_app_cons.
    simpl comma_tokens at 1. rewrite !string_app_nil.
    f_equal. apply IH; [done|].
    by rewrite last_cons_cons in Hlast.
Qed.

(** X7: the loop [while (std::getline(stream, comp, ','))] reads back the
    components that were joined with commas, empty ones included, provided
    no component holds a comma and the last one is not empty (an empty last
    component is not read at all). *)
Theorem comma_tokens_join (ts : list string) :
  Forall (λ t, has_char "," t = false) ts →
  last ts ≠ Some "" →
  comma_tokens (String.concat "," ts) "" false = ts.
Proof. apply comma_tokens_concat. Qed.

Lemma comma_tokens_join_witness :
  comma_tokens (String.concat "," ["1.5"; ""; "-2"]) "" false =
    ["1.5"; ""; "-2"].
Proof.
  apply (comma_tokens_join ["1.5"; ""; "-2"]).
  - repeat constructor.
  - simpl. discriminate.
Defined.

Section Components.
Context {D : Type} `{Scalar D}.
Context (strtod : string → option (D * bool)).

Lemma stod_converts (t : string) (v : D) :
  converts strtod t v → stod strtod t = Done v.
Proof. intros [Ht Hv]. unfold stod. destruct t; [done|]. by rewrite Hv. Qed.

Lemma mset_Done (m : matrix D) (r c i j : Z) (x : D) (col : list D) :
  mdims m r c → 0 ≤ i < r → 0 ≤ j → m !! Z.to_nat j = Some col →
  mset m i j x = Done (<[Z.to_nat j := <[Z.to_nat i := x]> col]> m).
Proof.
  intros Hm Hi Hj Hcol. unfold mset.
  assert (vget m j = Done col) as Hget by (apply vget_Done; done).
  rewrite Hget, bind_Done_l.
  pose proof (mcol_length _ _ _ _ _ Hm Hget) as Hlen.
  assert (vset col i x = Done (<[Z.to_nat i := x]> col)) as ->
    by (apply vset_Done; split; [lia|done]).
  rewrite bind_Done_l. apply vset_Done. split; [|done].
  apply lookup_lt_Some in Hcol. lia.
Qed.

Lemma mdims_insert_col (m : matrix D) (r c : Z) (j i : nat) (x : D)
    (col : list D) :
  mdims m r c → m !! j = Some col →
  mdims (<[j := <[i := x]> col]> m) r c.
Proof.
  intros [Hc Hall] Hcol. split; [by rewrite length_insert|].
  apply Forall_insert; [done|]. rewrite length_insert.
  by apply (proj1 (Forall_lookup _ _) Hall j col).
Qed.

(** The loop over the components of a line, from the column [k] on. *)
Lemma read_components_loop (ts : list string) (vs : list D) (m : matrix D)
    (r c A k : Z) :
  Forall2 (converts strtod) ts vs →
  mdims m r c → 0 ≤ A < r → 0 ≤ k → k + Z.of_nat (length vs) ≤ c →
  foldM (λ comp '(xyz, m),
           v ← stod strtod comp;
           m ← mset m A xyz v;
           Done (xyz + 1, m))
        ts (k, m) =
    Done (k + Z.of_nat (length vs),
          imap (λ j col, if decide (Z.to_nat k ≤ j)%nat
                         then match vs !! (j - Z.to_nat k)%nat with
                              | Some v => <[Z.to_nat A := v]> col
                              | None => col
                              end
                         else col)
               m).
Proof.
  intros Hts. revert m k.
  induction Hts as [|t v ts vs Htv Hts IH]; intros m k Hm HA Hk Hc.
  - simpl. f_equal. f_equal; [lia|]. symmetry. apply list_eq. intros j.
    rewrite list_lookup_imap. destruct (m !! j); simpl; [|done].
    by destruct (decide _).
  - rewrite foldM_cons. rewrite (stod_converts _ _ Htv), bind_Done_l.
    simpl length in *.
    destruct (lookup_lt_is_Some_2 m (Z.to_nat k)) as [col Hcol].
    { destruct Hm as [Hm _]. lia. }
    rewrite (mset_Done m r c A k v col) by done. rewrite !bind_Done_l.
    rewrite IH; [|by apply mdims_insert_col|done|lia|lia].
    f_equal. f_equal; [lia|]. apply list_eq. intros j.
    rewrite !list_lookup_imap.
    destruct (decide (j = Z.to_nat k)) as [->|Hne].
    + rewrite list_lookup_insert_eq by (by eapply lookup_lt_Some).
      rewrite Hcol. simpl.
      rewrite decide_False by lia. rewrite decide_True by lia.
      by rewrite Nat.sub_diag.
    + rewrite list_lookup_insert_ne by done.
      destruct (m !! j) as [cj|]; simpl; [|done].
      destruct (decide (Z.to_nat (k + 1) ≤ j)%nat) as [Hle|Hgt].
      * rewrite decide_True by lia.
        replace (j - Z.to_nat k)%nat with (S (j - Z.to_nat (k + 1)))%nat by lia.
        done.
      * rewrite decide_False by lia. done.
Qed.

Lemma read_components_set_row (m : matrix D) (r c A : Z) (tmp : string)
    (vs : list D) :
  mdims m r c → 0 ≤ A < r →
  Forall2 (converts strtod) (comma_tokens tmp "" false) vs →
  Z.of_nat (length vs) ≤ c →
  read_components strtod m A tmp = Done (set_row m A vs).
Proof.
  intros Hm HA Hts Hc. unfold read_components.
  rewrite (read_components_loop _ vs m r c A 0) by (done || lia).
  rewrite bind_Done_l. f_equal.
  unfold set_row. apply imap_ext. intros j col _. simpl.
  by rewrite Nat.sub_0_r.
Qed.

(** X8: a line of [k] components that [std::stod] converts (a conversion
    is performed and reports no range error), for a matrix
    with at least [k] columns, is stored in the columns [0 .. k - 1] of row
    [A]; every other coefficient of the matrix, the further columns of row
    [A] included, is left as it was. *)
Theorem read_components_row (m : matrix D) (r c A : Z) (tmp : string)
    (vs : list D) :
  mdims m r c → 0 ≤ A < r →
  Forall2 (converts strtod) (comma_tokens tmp "" false) vs →
  Z.of_nat (length vs) ≤ c →
  read_components strtod m A tmp = Done (set_row m A vs) ∧
  mdims (set_row m A vs) r c ∧
  ∀ i j, mget (set_row m A vs) i j =
         if decide (i = A ∧ 0 ≤ j < Z.of_nat (length vs)) then vget vs j
         else mget m i j.
Proof.
  intros Hm HA Hts Hc.
  split; [by eapply read_components_set_row|].
  assert (mdims (set_row m A vs) r c) as Hm'.
  { destruct Hm as [Hcols Hall]. split.
    - unfold set_row. by rewrite length_imap.
    - apply Forall_forall. intros col Hcol.
      apply list_elem_of_lookup in Hcol as [j Hj].
      unfold set_row in Hj. rewrite list_lookup_imap in Hj.
      destruct (m !! j) as [cj|] eqn:Hcj; simpl in Hj; [|done].
      pose proof (proj1 (Forall_lookup _ _) Hall j cj Hcj) as Hlen.
      simplify_eq. destruct (vs !! j); [by rewrite length_insert|done]. }
  split; [done|].
  intros i j. unfold mget.
  destruct (decide (0 ≤ j)) as [Hj|Hj].
  2:{ rewrite !vget_neg by lia. rewrite decide_False by lia. done. }
  destruct (m !! Z.to_nat j) as [cj|] eqn:Hcj.
  2:{ assert (vget m j = Undefined) as ->.
      { unfold vget. destruct (j <? 0); [done|]. by rewrite Hcj. }
      assert (vget (set_row m A vs) j = Undefined) as ->.
      { unfold vget. destruct (j <? 0); [done|].
        unfold set_row. rewrite list_lookup_imap, Hcj. done. }
      rewrite decide_False; [done|].
      apply lookup_ge_None in Hcj. destruct Hm as [? _]. lia. }
  assert (vget m j = Done cj) as -> by (by apply vget_Done).
  pose proof (proj1 (Forall_lookup _ _) (proj2 Hm) _ _ Hcj) as Hlen.
  simpl in Hlen.
  destruct (vs !! Z.to_nat j) as [v|] eqn:Hv.
  - assert (vget (set_row m A vs) j = Done (<[Z.to_nat A := v]> cj)) as ->.
    { apply vget_Done. split; [done|]. unfold set_row.
      rewrite list_lookup_imap, Hcj. simpl. by rewrite Hv. }
    rewrite !bind_Done_l.
    assert (vset cj A v = Done (<[Z.to_nat A := v]> cj)) as Hset
      by (apply vset_Done; split; [lia|done]).
    rewrite (vget_vset _ _ _ _ i Hset).
    pose proof (lookup_lt_Some _ _ _ Hv).
    destruct (decide (i = A)) as [->|Hne].
    + rewrite decide_True by lia. symmetry. by apply vget_Done.
    + rewrite decide_False by lia. done.
  - assert (vget (set_row m A vs) j = Done cj) as ->.
    { apply vget_Done. split; [done|]. unfold set_row.
      rewrite list_lookup_imap, Hcj. simpl. by rewrite Hv. }
    apply lookup_ge_None in Hv. rewrite decide_False by lia. done.
Qed.

(** X9: a line of components that [std::stod] converts (none empty, none
    out of the range of a double), more of them than the matrix has columns
    (a fourth component, for the 3-column matrices of the loader), runs out
    of the bounds: the loop has no check on [xyz]. *)
Theorem read_components_overflow (m : matrix D) (r c A : Z) (tmp : string)
    (vs : list D) :
  mdims m r c → 0 ≤ A < r →
  Forall2 (converts strtod) (comma_tokens tmp "" false) vs →
  c < Z.of_nat (length vs) →
  read_components strtod m A tmp = Undefined.
Proof.
  intros Hm HA Hts Hc. unfold read_components.
  assert (0 ≤ c) as Hc0 by (destruct Hm as [<- _]; lia).
  rewrite <- (take_drop (Z.to_nat c) (comma_tokens tmp "" false)).
  rewrite foldM_app.
  rewrite (read_components_loop _ (take (Z.to_nat c) vs) m r c A 0);
    [|by apply Forall2_take|done|done|lia|rewrite length_take; lia].
  rewrite bind_Done_l.
  pose proof (Forall2_drop _ _ _ (Z.to_nat c) Hts) as Hrest.
  destruct (drop (Z.to_nat c) vs) as [|v vs'] eqn:Hvs.
  { apply (f_equal length) in Hvs. rewrite length_drop in Hvs. simpl in Hvs.
    lia. }
  inversion Hrest as [|t v' ts' vs'' Htv Hrest' Heq1 Heq2]. subst.
  rewrite foldM_cons. rewrite (stod_converts _ _ Htv), bind_Done_l.
  rewrite length_take.
  assert (∀ m', Z.of_nat (length m') = c →
            mset m' A (0 + Z.of_nat (Z.to_nat c `min` length vs)) v
              = Undefined) as Hout.
  { intros m' Hm'. unfold mset, vget.
    destruct (_ <? 0); [done|].
    rewrite (proj2 (lookup_ge_None _ _)); [done|]. lia. }
  rewrite Hout; [done|]. rewrite length_imap. by destruct Hm.
Qed.

(** X30: a component that [std::strtod] converts with a range error (a
    literal beyond the range of a [double], such as [1e999]) makes the loop
    throw [std::out_of_range], once the components before it have been
    stored: [std::stod] checks [errno], and nothing in the loader catches
    what it throws. *)
Theorem read_components_out_of_range (m : matrix D) (r c A : Z)
    (tmp : string) (ts : list string) (vs : list D) (t : string) (v : D)
    (rest : list string) :
  mdims m r c → 0 ≤ A < r →
  comma_tokens tmp "" false = ts ++ t :: rest →
  Forall2 (converts strtod) ts vs →
  Z.of_nat (length vs) ≤ c →
  t ≠ "" → strtod t = Some (v, true) →
  read_components strtod m A tmp = Thrown out_of_range.
Proof.
  intros Hm HA Htokens Hts Hc Ht Hv. unfold read_components.
  rewrite Htokens, foldM_app.
  rewrite (read_components_loop ts vs m r c A 0) by (done || lia).
  rewrite bind_Done_l, foldM_cons. unfold stod.
  destruct t; [done|]. by rewrite Hv.
Qed.
End Components.

Lemma read_components_row_witness :
  read_components strtod_digits (mzero 2 3) 1 "4,5,6" =
    Done (set_row (mzero 2 3) 1 [4; 5; 6]%float) ∧
  mdims (set_row (mzero 2 3) 1 [4; 5; 6]%float) 2 3 ∧
  ∀ i j, mget (set_row (mzero 2 3) 1 [4; 5; 6]%float) i j =
         if decide (i = 1 ∧ 0 ≤ j < Z.of_nat (length [4; 5; 6]%float))
         then vget [4; 5; 6]%float j
         else mget (mzero 2 3) i j.
Proof.
  apply (read_components_row strtod_digits (mzero 2 3) 2 3 1 "4,5,6").
  - split; [reflexivity|]. repeat constructor.
  - lia.
  - repeat constructor; discriminate.
  - simpl. lia.
Defined.

Lemma read_components_out_of_range_witness :
  read_components strtod_digits (mzero 2 3) 1 ("4," +:+ beyond_double +:+ ",6")
    = Thrown out_of_range.
Proof.
  apply (read_components_out_of_range strtod_digits (mzero 2 3) 2 3 1
           ("4," +:+ beyond_double +:+ ",6") ["4"] [4%float] beyond_double
           infinity ["6"]).
  - split; [reflexivity|]. repeat constructor.
  - lia.
  - vm_compute. reflexivity.
  - repeat constructor; discriminate.
  - simpl. lia.
  - discriminate.
  - vm_compute. reflexivity.
Defined.

Lemma read_components_overflow_witness :
  read_components strtod_digits (mzero 2 3) 1 "4,5,6,7" = Undefined.
Proof.
  apply (read_components_overflow strtod_digits (mzero 2 3) 2 3 1 "4,5,6,7"
           [4; 5; 6; 7]%float).
  - split; [reflexivity|]. repeat constructor.
  - lia.
  - repeat constructor; discriminate.
  - simpl. lia.
Defined.

Section ReadFile.
Context {D : Type} `{Scalar D}.
Context (strtod : string → option (D * bool)).

Lemma pad_insert (n : nat) (l : list D) (v : D) :
  (length l < n)%nat → <[length l := v]> (pad n l) = pad n (l ++ [v]).
Proof.
  intros Hl. unfold pad.
  replace (length l) with (length l + 0)%nat at 1 by lia.
  rewrite insert_app_r. rewrite length_app. simpl.
  destruct (n - length l)%nat as [|k] eqn:Hk; [lia|].
  simpl. rewrite <- app_assoc. simpl. do 3 f_equal. lia.
Qed.

Lemma length_pad (n : nat) (l : list D) :
  (length l ≤ n)%nat → length (pad n l) = n.
Proof. intros. unfold pad. rewrite length_app, length_replicate. lia. Qed.

Lemma vector_tokens (t : string * string * string) (v : D * D * D) :
  vector_converts strtod t v →
  Forall2 (converts strtod)
    (comma_tokens (String.concat "," (components t)) "" false) (components v).
Proof.
  intros [Hcomma Hconv]. rewrite comma_tokens_concat; [done|done|].
  simpl. intros [=Hlast].
  apply Forall2_cons in Hconv as [_ Hconv].
  apply Forall2_cons in Hconv as [_ Hconv].
  apply Forall2_cons in Hconv as [[Hne _] _]. done.
Qed.

Lemma set_row_pad (n : nat) (f : Site D → D * D * D) (sites : list (Site D))
    (s : Site D) :
  (length sites < n)%nat →
  set_row (pad n <$> rows_of f sites) (Z.of_nat (length sites))
          (components (f s)) =
    pad n <$> rows_of f (sites ++ [s]).
Proof.
  intros Hlt. unfold set_row, rows_of. simpl. rewrite Nat2Z.id.
  rewrite !fmap_app. simpl.
  repeat f_equal.
  - rewrite <- (length_fmap (λ s0, (f s0).1.1) sites) at 1.
    apply pad_insert. by rewrite length_fmap.
  - rewrite <- (length_fmap (λ s0, (f s0).1.2) sites) at 1.
    apply pad_insert. by rewrite length_fmap.
  - rewrite <- (length_fmap (λ s0, (f s0).2) sites) at 1.
    apply pad_insert. by rewrite length_fmap.
Qed.

Lemma mdims_rows_so_far (n : nat) (f : Site D → D * D * D)
    (sites : list (Site D)) :
  (length sites ≤ n)%nat →
  mdims (pad n <$> rows_of f sites) (Z.of_nat n) 3.
Proof.
  intros Hle. split; [done|].
  repeat constructor; rewrite length_pad; rewrite ?length_fmap; lia.
Qed.

(** One site: the eight lines are consumed and its values are stored in
    row [A]. *)
Lemma read_site_spec (lab : Labels) (n : nat) (done : list (Site D))
    (t : Site string) (s : Site D) (rest : list string) (line : string) :
  labels_ok lab →
  site_converts strtod t s →
  (length done < n)%nat →
  read_site strtod (Z.of_nat (length done))
    (mkStream (site_lines lab t ++ rest) false false false, line,
     data_so_far n done) =
    Done (mkStream rest false false false, closing t,
          data_so_far n (done ++ [s])).
Proof.
  intros (Hgs & Hes & Hcom & Hdgs & Hdes & Hdt)
         (Cgs & Ces & Ccom & Cdgs & Cdes & Cdt) Hlt.
  unfold read_site, site_lines. cbn [app getline good pending failbit badbit
                                      eofbit orb negb].
  rewrite (after_colon_value _ _ (proj1 Hgs) (proj2 Hgs)), bind_Done_l.
  rewrite (stod_converts _ _ _ Cgs), bind_Done_l.
  cbn [energiesGS energiesES dipoleGS dipoleES dipoleT com data_so_far].
  assert (∀ (f : Site D → D),
            vset (pad n (f <$> done)) (Z.of_nat (length done)) (f s) =
              Done (pad n (f <$> (done ++ [s])))) as Hvset.
  { intros f. apply vset_Done. split.
    - rewrite length_pad by (rewrite length_fmap; lia). lia.
    - rewrite Nat2Z.id, fmap_app. simpl.
      rewrite <- (length_fmap f done) at 1. symmetry. apply pad_insert.
      by rewrite length_fmap. }
  rewrite (Hvset site_energyGS), bind_Done_l.
  rewrite (after_colon_value _ _ (proj1 Hes) (proj2 Hes)), bind_Done_l.
  rewrite (stod_converts _ _ _ Ces), bind_Done_l.
  rewrite (Hvset site_energyES), bind_Done_l.
  rewrite (after_colon_value _ _ (proj1 Hcom) (proj2 Hcom)), bind_Done_l.
  rewrite (read_components_set_row strtod _ (Z.of_nat n) 3 _ _
             (components (site_com s)));
    [|apply mdims_rows_so_far; lia|lia|by apply vector_tokens|simpl; lia].
  rewrite bind_Done_l.
  rewrite (after_colon_value _ _ (proj1 Hdgs) (proj2 Hdgs)), bind_Done_l.
  rewrite (read_components_set_row strtod _ (Z.of_nat n) 3 _ _
             (components (site_dipoleGS s)));
    [|apply mdims_rows_so_far; lia|lia|by apply vector_tokens|simpl; lia].
  rewrite bind_Done_l.
  rewrite (after_colon_value _ _ (proj1 Hdes) (proj2 Hdes)), bind_Done_l.
  rewrite (read_components_set_row strtod _ (Z.of_nat n) 3 _ _
             (components (site_dipoleES s)));
    [|apply mdims_rows_so_far; lia|lia|by apply vector_tokens|simpl; lia].
  rewrite bind_Done_l.
  rewrite (after_colon_value _ _ (proj1 Hdt) (proj2 Hdt)), bind_Done_l.
  rewrite (read_components_set_row strtod _ (Z.of_nat n) 3 _ _
             (components (site_dipoleT s)));
    [|apply mdims_rows_so_far; lia|lia|by apply vector_tokens|simpl; lia].
  rewrite bind_Done_l.
  rewrite !set_row_pad by done. done.
Qed.

(** The loop over the sites, from the site that follows those read so
    far. *)
Lemma read_sites_loop (lab : Labels) (n : nat) (texts : list (Site string))
    (sites done : list (Site D)) (rest : list string) (line : string) :
  labels_ok lab →
  Forall2 (site_converts strtod) texts sites →
  (length done + length sites ≤ n)%nat →
  ∃ line',
    foldM (read_site strtod)
          (range (Z.of_nat (length done))
                 (Z.of_nat (length done) + Z.of_nat (length sites)))
          (mkStream (data_file lab texts ++ rest) false false false, line,
           data_so_far n done) =
      Done (mkStream rest false false false, line',
            data_so_far n (done ++ sites)).
Proof.
  intros Hlab Hconv. revert done line.
  induction Hconv as [|t s texts sites Hts Hconv IH]; intros done line Hn.
  - simpl. rewrite range_nil by lia. rewrite app_nil_r. by exists line.
  - simpl length in *. rewrite range_cons by lia. rewrite foldM_cons.
    unfold data_file. rewrite fmap_cons. cbn [concat].
    rewrite <- app_assoc.
    rewrite (read_site_spec lab n done t s) by (done || lia).
    rewrite bind_Done_l.
    destruct (IH (done ++ [s]) (closing t)) as [line' Hrun].
    { rewrite length_app. simpl. lia. }
    exists line'. rewrite length_app in Hrun. simpl length in Hrun.
    replace (Z.of_nat (length done) + 1)
      with (Z.of_nat (length done + 1)) by lia.
    replace (Z.of_nat (length done) + Z.of_nat (S (length sites)))
      with (Z.of_nat (length done + 1) + Z.of_nat (length sites)) by lia.
    unfold data_file in Hrun. rewrite Hrun. by rewrite <- app_assoc.
Qed.

Lemma data_so_far_all (sites : list (Site D)) :
  data_so_far (length sites) sites = site_data sites.
Proof.
  unfold data_so_far, site_data, rows_of, pad. simpl.
  rewrite !length_fmap, Nat.sub_diag. simpl. by rewrite !app_nil_r.
Qed.

Lemma data_so_far_none (n : Z) :
  0 ≤ n →
  mkSiteData (vzero n) (vzero n) (mzero n 3) (mzero n 3) (mzero n 3)
             (mzero n 3) =
    data_so_far (Z.to_nat n) [].
Proof.
  intros. unfold data_so_far, rows_of, pad, mzero, vzero. simpl.
  by rewrite Nat.sub_0_r.
Qed.

Lemma read_data_sites (fs : FileSystem) (this : MC_VQE D)
    (lab : Labels) (texts : list (Site string)) (sites : list (Site D))
    (rest : list string) :
  labels_ok lab →
  Forall2 (site_converts strtod) texts sites →
  fs (dataPath this) = Some (data_file lab texts ++ rest) →
  nChromophores this = Z.of_nat (length sites) →
  read_data strtod fs this = Done (site_data sites).
Proof.
  intros Hlab Hconv Hfs Hn. unfold read_data, ifstream_open.
  rewrite Hn, Hfs.
  destruct (Z.ltb_spec (Z.of_nat (length sites)) 0); [lia|].
  rewrite bind_Done_l. cbn [bad badbit].
  rewrite data_so_far_none by lia. rewrite Nat2Z.id.
  destruct (read_sites_loop lab (length sites) texts sites [] rest ""
              Hlab Hconv) as [line' Hrun]; [simpl; lia|].
  cbn [length app] in Hrun. change (Z.of_nat 0) with 0 in Hrun.
  rewrite Z.add_0_l in Hrun.
  rewrite Hrun, bind_Done_l. by rewrite data_so_far_all.
Qed.

Lemma pad_zero (n : nat) (l : list D) :
  (length l < n)%nat → pad n (l ++ [d0]) = pad n l.
Proof.
  intros Hl. unfold pad. rewrite length_app. simpl.
  destruct (n - length l)%nat as [|k] eqn:Hk; [lia|].
  rewrite <- app_assoc. simpl. do 3 f_equal. lia.
Qed.

(** X10: a file that holds, for each of the [nChromophores] sites, the
    eight lines of the layout (a title, the two energies and the four
    vectors after their labels, a closing line), with texts that
    [std::stod] converts (each to its value, with no range error), is read
    into exactly these values, site by site; what follows the last site is
    not read. *)
Theorem read_data_well_formed_file (fs : FileSystem) (this : MC_VQE D)
    (lab : Labels) (texts : list (Site string)) (sites : list (Site D))
    (rest : list string) :
  labels_ok lab →
  Forall2 (site_converts strtod) texts sites →
  fs (dataPath this) = Some (data_file lab texts ++ rest) →
  nChromophores this = Z.of_nat (length sites) →
  read_data strtod fs this = Done (site_data sites).
Proof. apply read_data_sites. Qed.

(** A site of which the file holds the title and the two energies only:
    the end of the file is read as empty lines, and an empty line has no
    component. *)
Lemma read_site_energies_only (lab : Labels) (n : nat) (done : list (Site D))
    (title_line gs_text es_text : string) (gs es : D) (line : string) :
  labels_ok lab →
  converts strtod gs_text gs → converts strtod es_text es →
  (length done < n)%nat →
  read_site strtod (Z.of_nat (length done))
    (mkStream [title_line;
               label_energyGS lab +:+ ":" +:+ gs_text;
               label_energyES lab +:+ ":" +:+ es_text] false false false,
     line, data_so_far n done) =
    Done (mkStream [] true false true, "",
          data_so_far n
            (done ++ [mkSite title_line gs es (d0, d0, d0) (d0, d0, d0)
                             (d0, d0, d0) (d0, d0, d0) ""])).
Proof.
  intros (Hgs & Hes & _) Cgs Ces Hlt.
  unfold read_site. cbn [app getline good pending failbit badbit
                         eofbit orb negb].
  rewrite (after_colon_value _ _ (proj1 Hgs) (proj2 Hgs)), bind_Done_l.
  rewrite (stod_converts _ _ _ Cgs), bind_Done_l.
  cbn [energiesGS energiesES dipoleGS dipoleES dipoleT com data_so_far].
  assert (∀ (f : Site D → D) (s : Site D),
            vset (pad n (f <$> done)) (Z.of_nat (length done)) (f s) =
              Done (pad n (f <$> (done ++ [s])))) as Hvset.
  { intros f s. apply vset_Done. split.
    - rewrite length_pad by (rewrite length_fmap; lia). lia.
    - rewrite Nat2Z.id, fmap_app. simpl.
      rewrite <- (length_fmap f done) at 1. symmetry. apply pad_insert.
      by rewrite length_fmap. }
  pose proof (Hvset site_energyGS
                (mkSite title_line gs es (d0, d0, d0) (d0, d0, d0)
                        (d0, d0, d0) (d0, d0, d0) "")) as Hvgs.
  pose proof (Hvset site_energyES
                (mkSite title_line gs es (d0, d0, d0) (d0, d0, d0)
                        (d0, d0, d0) (d0, d0, d0) "")) as Hves.
  cbn [site_energyGS site_energyES] in Hvgs, Hves.
  rewrite Hvgs, bind_Done_l.
  rewrite (after_colon_value _ _ (proj1 Hes) (proj2 Hes)), bind_Done_l.
  rewrite (stod_converts _ _ _ Ces), bind_Done_l.
  rewrite Hves, bind_Done_l.
  assert (∀ m A, read_components strtod m A "" = Done m) as Hempty by done.
  rewrite (after_colon_whole "") by done.
  repeat first [rewrite bind_Done_l | rewrite Hempty].
  do 2 f_equal.
  unfold data_so_far, rows_of. rewrite !fmap_app.
  cbn [fmap list_fmap site_com site_dipoleGS site_dipoleES site_dipoleT
       site_energyGS site_energyES fst snd].
  rewrite !pad_zero by (by rewrite length_fmap). done.
Qed.

(** X11: a file that ends, after a newline, with the energies of its last
    site, all its texts being ones that [std::stod] converts with no range
    error, is accepted without any report: the four vectors of that site
    are read as zero, since the end of the file is read as empty lines and
    an empty line has no component. *)
Theorem read_data_file_ends_early (fs : FileSystem) (this : MC_VQE D)
    (lab : Labels) (texts : list (Site string)) (sites : list (Site D))
    (title_line gs_text es_text : string) (gs es : D) :
  labels_ok lab →
  Forall2 (site_converts strtod) texts sites →
  converts strtod gs_text gs → converts strtod es_text es →
  fs (dataPath this) =
    Some (data_file lab texts ++
          [title_line;
           label_energyGS lab +:+ ":" +:+ gs_text;
           label_energyES lab +:+ ":" +:+ es_text]) →
  nChromophores this = Z.of_nat (length sites) + 1 →
  read_data strtod fs this =
    Done (site_data
            (sites ++ [mkSite title_line gs es (d0, d0, d0) (d0, d0, d0)
                              (d0, d0, d0) (d0, d0, d0) ""])).
Proof.
  intros Hlab Hconv Cgs Ces Hfs Hn. unfold read_data, ifstream_open.
  rewrite Hn, Hfs.
  destruct (Z.ltb_spec (Z.of_nat (length sites) + 1) 0); [lia|].
  rewrite bind_Done_l. cbn [bad badbit].
  rewrite data_so_far_none by lia.
  replace (Z.to_nat (Z.of_nat (length sites) + 1))
    with (S (length sites)) by lia.
  rewrite range_snoc, foldM_app by lia.
  destruct (read_sites_loop lab (S (length sites)) texts sites []
              [title_line;
               label_energyGS lab +:+ ":" +:+ gs_text;
               label_energyES lab +:+ ":" +:+ es_text] ""
              Hlab Hconv) as [line' Hrun]; [simpl; lia|].
  cbn [length app] in Hrun. change (Z.of_nat 0) with 0 in Hrun.
  rewrite Z.add_0_l in Hrun. rewrite Hrun, bind_Done_l.
  cbn [foldM].
  rewrite (read_site_energies_only lab (S (length sites)) sites
             title_line gs_text es_text gs es)
    by (done || lia).
  rewrite !bind_Done_l. f_equal.
  rewrite <- data_so_far_all. f_equal. rewrite length_app. simpl. lia.
Qed.
End ReadFile.

(** ** Initialization *)

Section RingPreprocessing.
Context {D : Type} `{Scalar D}.
Context (pow : D → D → D) (acos : D → D) (strtod : string → option (D * bool)).
Context (SelfAdjointEigenSolver : matrix D → list D * matrix D).
Context (ANGSTROM2BOHR DEBYE2AU : D).
Context (getService : string → option (AlgorithmGradientStrategy D)).

Lemma mdims_mmuls (a : matrix D) (x : D) (r c : Z) :
  mdims a r c → mdims (mmuls a x) r c.
Proof.
  apply mdims_fmap. intros u Hu. unfold vmuls. by rewrite length_fmap.
Qed.

Lemma site_data_dims_scale_units (n : Z) (d : SiteData D) :
  site_data_dims n d →
  site_data_dims n (scale_units ANGSTROM2BOHR DEBYE2AU d).
Proof.
  intros (? & ? & ? & ? & ? & ?). unfold scale_units, site_data_dims.
  simpl. split; [done|]. split; [done|].
  split; [by apply mdims_mmuls|]. split; [by apply mdims_mmuls|].
  split; [done|by apply mdims_mmuls].
Qed.

Lemma site_data_dims_site_data (sites : list (Site D)) :
  site_data_dims (Z.of_nat (length sites)) (site_data sites).
Proof.
  unfold site_data_dims, site_data, rows_of, mdims. simpl.
  rewrite !length_fmap.
  repeat (split; [done || (repeat constructor; by rewrite length_fmap)|]).
  repeat constructor; by rewrite length_fmap.
Qed.

(** On a ring of at least two sites the Hamiltonian builder completes. *)
Lemma aiem_ring_total (n : Z) (d : SiteData D) :
  2 ≤ n → site_data_dims n d →
  ∃ s, aiem pow n true d = Done s ∧ aiem_dims n s.
Proof.
  intros Hn (Hgs & Hes & HdGS & HdES & HdT & Hcom). unfold aiem.
  set (dipoleSum := mdivs (madd (dipoleGS d) (dipoleES d)) (of_int 2)).
  set (dipoleDiff := mdivs (msub (dipoleGS d) (dipoleES d)) (of_int 2)).
  set (s0 := mkAIEM _ _ _ _ _ _ _ _).
  assert (aiem_dims n s0) as Hs0.
  { pose proof (mzero_dims (D:=D) n n ltac:(lia) ltac:(lia)) as Hz.
    split; [simpl; rewrite length_vzero; lia|].
    split; [simpl; unfold vdivs, vsub;
            rewrite length_fmap, length_zip_with; lia|].
    simpl. done. }
  destruct (aiem_sites_total pow n 3 dipoleSum dipoleDiff (dipoleT d) (com d)
              Hn) with (s0 := s0) as (s & -> & Hs & _);
    [by apply mdims_mdivs, mdims_madd|by apply mdims_mdivs, mdims_msub|
     done..|].
  rewrite bind_Done_l. eexists. split; [done|]. done.
Qed.

Lemma CISMatrix_ring_total (n : Z) (s : AIEM D) :
  2 ≤ n → aiem_dims n s →
  ∃ cis, CISMatrix n (n + 1) true s = Done cis ∧ mdims cis (n + 1) (n + 1).
Proof.
  intros Hn Hs. unfold CISMatrix.
  destruct (Z.ltb_spec (n + 1) 0); [lia|]. rewrite bind_Done_l.
  set (E_ref := (E s + vsum (Z_A s) + half * msum (ZZ_AB s))%dbl).
  pose proof (mzero_dims (D:=D) (n + 1) (n + 1) ltac:(lia) ltac:(lia)) as Hd0.
  destruct (mset_total (mzero (n + 1) (n + 1)) _ _ 0 0 E_ref Hd0)
    as [m1 Hm1]; [lia..|].
  pose proof (mset_dims _ _ _ _ _ _ _ Hm1 Hd0) as Hd1.
  rewrite Hm1, bind_Done_l.
  destruct (cis_diagonal_total n s Hn Hs E_ref m1 Hd1) as (m2 & -> & Hd2 & _).
  rewrite bind_Done_l.
  destruct (cis_reference_total n s Hn Hs m2 Hd2) as (m3 & -> & Hd3 & _).
  rewrite bind_Done_l.
  destruct (cis_singles_total n s Hn Hs m3 Hd3) as (cis & -> & Hd & _).
  by exists cis.
Qed.

(** The angle encoder keeps the shape of the angle matrix. *)
Lemma statePreparationAngles_dims (this : MC_VQE D) (C G : matrix D) :
  statePreparationAngles acos this C = Done G →
  0 ≤ nChromophores this ∧ 0 ≤ nStates this ∧
  mdims G (nChromophores this) (nStates this).
Proof.
  unfold statePreparationAngles. intros Hrun.
  destruct (Z.ltb_spec (nChromophores this) 0); [done|].
  destruct (Z.ltb_spec (nStates this) 0); [done|].
  simpl in Hrun. split; [done|]. split; [done|].
  revert Hrun.
  apply (foldM_inv (λ G, mdims G (nChromophores this) (nStates this)));
    [by apply mzero_dims|].
  intros state G1 G2 _ HG1 Hstep.
  apply bind_Done in Hstep as (G3 & Hinner & Hstep).
  assert (mdims G3 (nChromophores this) (nStates this)) as HG3.
  { revert Hinner.
    apply (foldM_inv (λ G, mdims G (nChromophores this) (nStates this)));
      [done|].
    intros angle Ga Gb _ HGa Hset.
    apply bind_Done in Hset as (col & _ & Hset).
    apply bind_Done in Hset as (seg & _ & Hset).
    apply bind_Done in Hset as (c & _ & Hset).
    by eapply mset_dims. }
  apply bind_Done in Hstep as (final & _ & Hstep).
  destruct (dltb _ _).
  - apply bind_Done in Hstep as (g & _ & Hstep). by eapply mset_dims.
  - by simplify_eq.
Qed.

Lemma statePreparationAngles_total (this : MC_VQE D) (C : matrix D)
    (ncols : Z) :
  1 ≤ nChromophores this →
  0 ≤ nStates this ≤ ncols →
  mdims C (nChromophores this + 1) ncols →
  ∃ G, statePreparationAngles acos this C = Done G.
Proof.
  intros Hn Hs HC. unfold statePreparationAngles.
  destruct (Z.ltb_spec (nChromophores this) 0); [lia|].
  destruct (Z.ltb_spec (nStates this) 0); [lia|].
  simpl orb. cbv iota. rewrite bind_Done_l.
  set (n := nChromophores this) in *.
  match goal with
  | |- ∃ G, foldM ?f _ _ = _ =>
      destruct (foldM_range_total (λ _ G, mdims G n (nStates this)) f
                  0 (nStates this) (mzero n (nStates this)))
        as (G & HG & _); [lia|apply mzero_dims; lia| |by exists G]
  end.
  intros S G1 HS Hd1. cbv beta.
  destruct (vget_total C S) as [column Hcol]; [destruct HC; lia|].
  destruct (angles_inner acos this C G1 ncols S column)
    as (G2 & HG2 & Hd2 & Hraw & _); [done..|lia|done|].
  fold n in HG2, Hd2, Hraw. cbv zeta in HG2. rewrite HG2, bind_Done_l.
  destruct (last_coefficient C n ncols S column) as (final & _ & Hfinal);
    [lia|done|done|].
  rewrite Hfinal, bind_Done_l.
  destruct (dltb final (of_int 0)).
  - destruct (Hraw (n - 1)) as (cl & _ & Hgl); [lia|].
    rewrite Hgl, bind_Done_l.
    destruct (mset_total G2 _ _ (n - 1) S
                (raw_angle acos column (n - 1) cl * of_int (-1))%dbl Hd2)
      as [G3 HG3]; [lia..|].
    exists G3. split; [done|]. by eapply mset_dims.
  - by exists G2.
Qed.

(** What preprocessing changes of the object: the observable, the
    eigenvectors and the angles. *)
Lemma preProcessing_Done (fs : FileSystem) (this this' : MC_VQE D) :
  preProcessing pow acos strtod SelfAdjointEigenSolver ANGSTROM2BOHR DEBYE2AU
                fs this = Done this' →
  ∃ obs eigenstates angles,
    this' = set_preprocessed this obs eigenstates angles ∧
    0 ≤ nChromophores this ∧ 0 ≤ nStates this ∧
    mdims angles (nChromophores this) (nStates this).
Proof.
  unfold preProcessing. intros Hrun.
  apply bind_Done in Hrun as (d & _ & Hrun).
  apply bind_Done in Hrun as (s & _ & Hrun).
  apply bind_Done in Hrun as (cis & _ & Hrun).
  apply bind_Done in Hrun as (angles & Hangles & Hrun). simplify_eq.
  apply statePreparationAngles_dims in Hangles as (? & ? & ?).
  by eexists _, _, _.
Qed.

Lemma preProcessing_ring_total (fs : FileSystem) (this : MC_VQE D)
    (lab : Labels) (texts : list (Site string)) (sites : list (Site D))
    (rest : list string) :
  isCyclic this = true →
  2 ≤ nChromophores this →
  nChromophores this = Z.of_nat (length sites) →
  nStates this = nChromophores this + 1 →
  labels_ok lab →
  Forall2 (site_converts strtod) texts sites →
  fs (dataPath this) = Some (data_file lab texts ++ rest) →
  (∀ m, mdims m (nChromophores this + 1) (nChromophores this + 1) →
        mdims (SelfAdjointEigenSolver m).2
              (nChromophores this + 1) (nChromophores this + 1)) →
  ∃ this',
    preProcessing pow acos strtod SelfAdjointEigenSolver ANGSTROM2BOHR DEBYE2AU
                  fs this = Done this'.
Proof.
  intros Hc Hn Hsites Hs Hlab Hconv Hfs Hsolver. unfold preProcessing.
  rewrite (read_data_sites strtod fs this lab texts sites rest)
    by done.
  rewrite bind_Done_l, Hc.
  destruct (aiem_ring_total (nChromophores this)
              (scale_units ANGSTROM2BOHR DEBYE2AU (site_data sites)))
    as (s & -> & Hdims); [done| |].
  { apply site_data_dims_scale_units. rewrite Hsites.
    apply site_data_dims_site_data. }
  rewrite bind_Done_l, Hs.
  destruct (CISMatrix_ring_total (nChromophores this) s) as (cis & -> & Hcis);
    [done..|].
  rewrite bind_Done_l.
  destruct (statePreparationAngles_total this (SelfAdjointEigenSolver cis).2
              (nChromophores this + 1)) as [G ->]; [lia|lia|by apply Hsolver|].
  rewrite bind_Done_l. by eexists.
Qed.

(** X1: [initialize] returns [false] exactly when the options lack one of
    the keys that [requiredParameters] lists; with the four of them present
    it goes on to preprocessing and never returns [false]. *)
Theorem initialize_checks_required_parameters (fs : FileSystem)
    (this : MC_VQE D) (parameters : HeterogeneousMap D) :
  (∃ printed,
     initialize pow acos strtod SelfAdjointEigenSolver ANGSTROM2BOHR DEBYE2AU
                getService fs this parameters = Done (InitFalse printed)) ↔
  ∃ key, key ∈ requiredParameters ∧ keyExists parameters key = false.
Proof.
  unfold initialize, requiredParameters. split.
  - intros [printed Hrun].
    destruct (p_accelerator parameters) eqn:Hacc; last first.
    { exists "accelerator". split; [rewrite !elem_of_cons; tauto|].
      unfold keyExists. simpl. by rewrite Hacc. }
    destruct (p_optimizer parameters) eqn:Hopt; last first.
    { exists "optimizer". split; [rewrite !elem_of_cons; tauto|].
      unfold keyExists. simpl. by rewrite Hopt. }
    destruct (p_nChromophores parameters) eqn:Hn; last first.
    { exists "nChromophores". split; [rewrite !elem_of_cons; tauto|].
      unfold keyExists. simpl. by rewrite Hn. }
    destruct (p_data_path parameters) eqn:Hpath; last first.
    { exists "data-path". split; [rewrite !elem_of_cons; tauto|].
      unfold keyExists. simpl. by rewrite Hpath. }
    exfalso.
    apply bind_Done in Hrun as (? & _ & Hrun).
    apply bind_Done in Hrun as (this1 & _ & Hrun).
    apply bind_Done in Hrun as (strategy & _ & Hrun). done.
  - intros (key & Hkey & Hmissing).
    rewrite !elem_of_cons, elem_of_nil in Hkey.
    unfold keyExists in Hmissing.
    destruct (p_accelerator parameters); [|by eexists].
    destruct (p_optimizer parameters); [|by eexists].
    destruct (p_nChromophores parameters); [|by eexists].
    destruct (p_data_path parameters); [|by eexists].
    destruct Hkey as [->|[->|[->|[->|[]]]]]; by vm_compute in Hmissing.
Qed.

(** X2: what [initialize] has set when it returns [true].  The required
    options are stored; ["cyclic"] defaults to [false], whereas
    ["log-level"], ["tnqvm-log"] and ["interference"] keep the values the
    object had when they are absent; the number of states is the option
    ["n-states"], unchecked, or [nChromophores + 1]; the angle matrix has
    [nChromophores] rows and [nChromophores + 1] columns whatever
    ["n-states"] is; the gradient strategy is the service of the given
    name. *)
Theorem initialize_postcondition (fs : FileSystem) (this this' : MC_VQE D)
    (parameters : HeterogeneousMap D) :
  initialize pow acos strtod SelfAdjointEigenSolver ANGSTROM2BOHR DEBYE2AU
             getService fs this parameters = Done (InitTrue this') →
  ∃ n,
    p_nChromophores parameters = Some n ∧ 0 ≤ n ∧
    nChromophores this' = n ∧
    accelerator this' = p_accelerator parameters ∧
    optimizer this' = p_optimizer parameters ∧
    Some (dataPath this') = p_data_path parameters ∧
    isCyclic this' = default false (p_cyclic parameters) ∧
    logLevel this' = default (logLevel this) (p_log_level parameters) ∧
    tnqvmLog this' = default (tnqvmLog this) (p_tnqvm_log parameters) ∧
    doInterference this' =
      default (doInterference this) (p_interference parameters) ∧
    nStates this' = default (n + 1) (p_n_states parameters) ∧
    mdims (CISGateAngles this') n (n + 1) ∧
    gradientStrategy this' =
      match p_gradient_strategy parameters with
      | Some name => getService name
      | None => gradientStrategy this
      end.
Proof.
  unfold initialize. intros Hrun.
  destruct (p_accelerator parameters) as [acc|]; [|done].
  destruct (p_optimizer parameters) as [opt|]; [|done].
  destruct (p_nChromophores parameters) as [n|]; [|done].
  destruct (p_data_path parameters) as [path|]; [|done].
  apply bind_Done in Hrun as (? & _ & Hrun).
  apply bind_Done in Hrun as (this1 & Hpre & Hrun).
  apply bind_Done in Hrun as (strategy & Hstrategy & Hrun).
  apply preProcessing_Done in Hpre
    as (obs & eig & angles & -> & Hn & _ & Hangles).
  simpl in Hn, Hangles. simplify_eq. simpl.
  exists n. repeat (split; [done|]).
  destruct (p_gradient_strategy parameters) as [name|].
  - destruct (getService name); by simplify_eq.
  - by simplify_eq.
Qed.

(** X3: an object that [initialize] has set up is ready for [execute]
    (a backend, and a column of angles for every state, with an angle for
    every site), as long as it has at least one site and the number of
    states asked for is at most [nChromophores + 1]. *)
Theorem initialize_makes_ready (fs : FileSystem) (this this' : MC_VQE D)
    (parameters : HeterogeneousMap D) :
  initialize pow acos strtod SelfAdjointEigenSolver ANGSTROM2BOHR DEBYE2AU
             getService fs this parameters = Done (InitTrue this') →
  1 ≤ nChromophores this' →
  0 ≤ nStates this' ≤ nChromophores this' + 1 →
  ready this'.
Proof.
  unfold initialize. intros Hrun Hn Hs.
  destruct (p_accelerator parameters) as [acc|]; [|done].
  destruct (p_optimizer parameters) as [opt|]; [|done].
  destruct (p_nChromophores parameters) as [n|]; [|done].
  destruct (p_data_path parameters) as [path|]; [|done].
  apply bind_Done in Hrun as (? & _ & Hrun).
  apply bind_Done in Hrun as (this1 & Hpre & Hrun).
  apply bind_Done in Hrun as (strategy & Hstrategy & Hrun).
  apply preProcessing_Done in Hpre
    as (obs & eig & angles & -> & _ & _ & Hangles).
  simpl in Hangles. simplify_eq. simpl in *.
  destruct Hangles as [Hcols Hall].
  split; [by eexists|]. simpl. split; [lia|].
  eapply Forall_impl; [done|]. simpl. lia.
Qed.

(** X4: on a ring of at least two sites, with the required options, a
    data file in the layout of the loader whose numbers [std::stod]
    converts with no range error, an eigensolver that returns
    eigenvector matrices of the size of its argument and a gradient strategy
    that exists if one is named, [initialize] returns [true]: the loader,
    the Hamiltonian builder, the reference matrix and the angle encoder all
    complete. *)
Theorem initialize_ring_succeeds (fs : FileSystem) (this : MC_VQE D)
    (parameters : HeterogeneousMap D) (acc : Accelerator D)
    (opt : Optimizer D) (path : string) (lab : Labels)
    (texts : list (Site string)) (sites : list (Site D))
    (rest : list string) :
  p_accelerator parameters = Some acc →
  p_optimizer parameters = Some opt →
  p_nChromophores parameters = Some (Z.of_nat (length sites)) →
  p_data_path parameters = Some path →
  p_cyclic parameters = Some true →
  (2 ≤ length sites)%nat →
  labels_ok lab →
  Forall2 (site_converts strtod) texts sites →
  fs path = Some (data_file lab texts ++ rest) →
  (∀ m, mdims m (Z.of_nat (length sites) + 1) (Z.of_nat (length sites) + 1) →
        mdims (SelfAdjointEigenSolver m).2
              (Z.of_nat (length sites) + 1) (Z.of_nat (length sites) + 1)) →
  (∀ name, p_gradient_strategy parameters = Some name →
           is_Some (getService name)) →
  ∃ this',
    initialize pow acos strtod SelfAdjointEigenSolver ANGSTROM2BOHR DEBYE2AU
               getService fs this parameters = Done (InitTrue this').
Proof.
  intros Hacc Hopt Hn Hpath Hc Hsites Hlab Hconv Hfs Hsolver Hservice.
  unfold initialize. rewrite Hacc, Hopt, Hn, Hpath, Hc.
  destruct (Z.ltb_spec (Z.of_nat (length sites) + 1) 0); [lia|].
  rewrite bind_Done_l.
  match goal with
  | |- ∃ this', preProcessing _ _ _ _ _ _ fs ?this0 ≫= _ = _ =>
      destruct (preProcessing_ring_total fs this0 lab texts sites rest)
        as [this1 ->]; try done; simpl; try lia
  end.
  destruct (p_gradient_strategy parameters) as [name|].
  - destruct (Hservice name) as [g ->]; [done|]. by eexists.
  - by eexists.
Qed.
End RingPreprocessing.

(** ** The ring *)

(** X13: on a ring of [n >= 2] sites the neighbour list has one entry per
    site, and the entry of site [A] holds its two neighbours on the ring,
    [(A - 1) mod n] and [(A + 1) mod n], in some order (for [n = 2] the
    other site, twice). *)
Theorem pairs_ring_neighbours (n : Z) :
  2 ≤ n →
  Z.of_nat (length (pairs n true)) = n ∧
  ∀ A, 0 ≤ A < n →
    ∃ nbrs, vget (pairs n true) A = Done nbrs ∧
            nbrs ≡ₚ [(A - 1) `mod` n; (A + 1) `mod` n].
Proof.
  intros Hn. split; [rewrite length_pairs; lia|].
  intros A HA. rewrite pairs_lookup by done. rewrite andb_true_r.
  eexists. split; [done|].
  destruct (Z.eqb_spec A 0) as [->|H0].
  { replace ((0 - 1) `mod` n) with (n - 1).
    2:{ apply Z.mod_unique with (q := -1); lia. }
    rewrite (Z.mod_small (0 + 1)) by lia. apply Permutation_swap. }
  destruct (Z.eqb_spec A (n - 1)) as [->|Hl].
  { rewrite (Z.mod_small (n - 1 - 1)) by lia.
    replace (n - 1 + 1) with (1 * n) by lia. by rewrite Z.mod_mul by lia. }
  by rewrite !Z.mod_small by lia.
Qed.

Lemma pairs_ring_neighbours_witness :
  Z.of_nat (length (pairs 3 true)) = 3 ∧
  ∀ A, 0 ≤ A < 3 →
    ∃ nbrs, vget (pairs 3 true) A = Done nbrs ∧
            nbrs ≡ₚ [(A - 1) `mod` 3; (A + 1) `mod` 3].
Proof. apply (pairs_ring_neighbours 3). lia. Defined.

Section RingCouplings.
Context {D : Type} `{Scalar D}.
Context (pow : D → D → D).

(** X15: on a ring of [n >= 2] sites with data of the right shape the
    Hamiltonian builder completes, in doubles as in exact arithmetic, with
    vectors of [n] and matrices of [n x n] coefficients; [XX_AB(A, B)] holds
    the coupling of the transition dipoles of [A] and [B] for the
    neighbours on the ring and zero everywhere else. *)
Theorem aiem_ring_couplings (n : Z) (d : SiteData D) :
  2 ≤ n → site_data_dims n d →
  ∃ s,
    aiem pow n true d = Done s ∧
    aiem_dims n s ∧
    ∀ i j, mget (XX_AB s) i j =
           if decide (ring_neighbour n i j)
           then xx_entry pow (dipoleT d) (com d) i j
           else mget (mzero n n) i j.
Proof.
  intros Hn (Hgs & Hes & HdGS & HdES & HdT & Hcom). unfold aiem.
  set (dipoleSum := mdivs (madd (dipoleGS d) (dipoleES d)) (of_int 2)).
  set (dipoleDiff := mdivs (msub (dipoleGS d) (dipoleES d)) (of_int 2)).
  set (s0 := mkAIEM _ _ _ _ _ _ _ _).
  assert (aiem_dims n s0) as Hs0.
  { pose proof (mzero_dims (D:=D) n n ltac:(lia) ltac:(lia)) as Hz.
    split; [simpl; rewrite length_vzero; lia|].
    split; [simpl; unfold vdivs, vsub;
            rewrite length_fmap, length_zip_with; lia|].
    simpl. done. }
  destruct (aiem_sites_total pow n 3 dipoleSum dipoleDiff (dipoleT d) (com d)
              Hn) with (s0 := s0) as (s & -> & Hs & Hxx);
    [by apply mdims_mdivs, mdims_madd|by apply mdims_mdivs, mdims_msub|
     done..|].
  rewrite bind_Done_l. eexists. split; [done|]. split; [done|].
  exact Hxx.
Qed.
End RingCouplings.

Lemma aiem_ring_couplings_witness :
  ∃ s,
    aiem pow_cube 2 true unit_distance_sites = Done s ∧
    aiem_dims 2 s ∧
    ∀ i j, mget (XX_AB s) i j =
           if decide (ring_neighbour 2 i j)
           then xx_entry pow_cube (dipoleT unit_distance_sites)
                  (com unit_distance_sites) i j
           else mget (mzero 2 2) i j.
Proof.
  apply (aiem_ring_couplings pow_cube 2 unit_distance_sites).
  - lia.
  - repeat split; repeat constructor.
Defined.

(** ** The couplings the builder stores, whatever the geometry *)

Section StoredCouplings.
Context {D : Type} `{Scalar D}.
Context (pow : D → D → D).

Lemma dot_scalar_product (u v : list D) : dot u v = scalar_product u v.
Proof.
  unfold dot, vsum, scalar_product.
  destruct u as [|a u], v as [|b v]; try done. csimpl.
  generalize (a * b)%dbl. revert v.
  induction u as [|p u IH]; intros [|q v] s; csimpl; done.
Qed.

(** [twoBodyH] computes the coupling, with no test of the distance. *)
Lemma twoBodyH_spec_coupling (mu_A mu_B r : list D) :
  twoBodyH pow mu_A mu_B r = spec_coupling pow mu_A mu_B r.
Proof.
  unfold twoBodyH, spec_coupling, vdivs.
  by rewrite !dot_scalar_product, norm_euclidean.
Qed.

Context (dipoleSum dipoleDiff dT cm : matrix D).

(** A pair of the builder that completes has stored the coupling of the
    pair in [XX_AB], and has written no other entry of it. *)
Lemma aiem_pair_stores (A B : Z) (s s' : AIEM D) :
  aiem_pair pow dipoleSum dipoleDiff dT cm A B s = Done s' →
  ∃ v, xx_entry pow dT cm A B = Done v ∧
       ∀ i j, mget (XX_AB s') i j =
              if decide (i = A ∧ j = B) then Done v else mget (XX_AB s) i j.
Proof.
  unfold aiem_pair. intros Hrun.
  apply bind_Done in Hrun as (sumA & _ & Hrun).
  apply bind_Done in Hrun as (sumB & _ & Hrun).
  apply bind_Done in Hrun as (comA & HcomA & Hrun).
  apply bind_Done in Hrun as (comB & HcomB & Hrun).
  apply bind_Done in Hrun as (tA & HtA & Hrun).
  apply bind_Done in Hrun as (X1 & _ & Hrun).
  apply bind_Done in Hrun as (X2 & _ & Hrun).
  apply bind_Done in Hrun as (diffB & _ & Hrun).
  apply bind_Done in Hrun as (Z1 & _ & Hrun).
  apply bind_Done in Hrun as (Z2 & _ & Hrun).
  apply bind_Done in Hrun as (tB & HtB & Hrun).
  apply bind_Done in Hrun as (diffA & _ & Hrun).
  apply bind_Done in Hrun as (XX & HXX & Hrun).
  apply bind_Done in Hrun as (XZ & _ & Hrun).
  apply bind_Done in Hrun as (ZX & _ & Hrun).
  apply bind_Done in Hrun as (ZZ & _ & Hrun).
  apply bind_Done in Hrun as (xx & _ & Hrun).
  apply bind_Done in Hrun as (xz & _ & Hrun).
  apply bind_Done in Hrun as (zx & _ & Hrun).
  apply bind_Done in Hrun as (zz & _ & Hrun).
  simplify_eq. cbn [XX_AB].
  exists (twoBodyH pow tA tB (vsub comA comB)). split.
  - unfold xx_entry. by rewrite HtA, HtB, HcomA, HcomB, !bind_Done_l.
  - intros i j. apply (mget_mset _ _ _ _ _ _ _ HXX).
Qed.

(** The loop over the sites coupled to [A]. *)
Lemma aiem_pairs_store (A : Z) (nbrs : list Z) (s s' : AIEM D) :
  foldM (aiem_pair pow dipoleSum dipoleDiff dT cm A) nbrs s = Done s' →
  (∀ B, B ∈ nbrs → ∃ v, xx_entry pow dT cm A B = Done v) ∧
  (∀ i j, mget (XX_AB s') i j =
          if decide (i = A ∧ j ∈ nbrs) then xx_entry pow dT cm A j
          else mget (XX_AB s) i j).
Proof.
  revert s. induction nbrs as [|b nbrs IH]; intros s Hrun.
  - simpl in Hrun. simplify_eq. split; [by intros B ?%elem_of_nil|].
    intros i j. rewrite decide_False; [done|]. by intros [_ ?%elem_of_nil].
  - rewrite foldM_cons in Hrun.
    apply bind_Done in Hrun as (s1 & Hpair & Hrest).
    destruct (aiem_pair_stores A b s s1 Hpair) as (v & Hv & Hget).
    destruct (IH s1 Hrest) as [Hin Hall]. split.
    + intros B [->|HB]%elem_of_cons; [by exists v|by apply Hin].
    + intros i j. rewrite Hall, Hget.
      destruct (decide (i = A ∧ j ∈ nbrs)) as [[-> Hj]|Hn1].
      { rewrite decide_True; [done|]. split; [done|by right]. }
      destruct (decide (i = A ∧ j = b)) as [[-> ->]|Hn2].
      { rewrite decide_True; [done|]. split; [done|by left]. }
      rewrite decide_False; [done|].
      intros [-> [->|Hj]%elem_of_cons]; naive_solver.
Qed.

(** A site of the builder. *)
Lemma aiem_site_stores (nbrs : list (list Z)) (A : Z) (s s' : AIEM D) :
  aiem_site pow dipoleSum dipoleDiff dT cm nbrs A s = Done s' →
  ∃ nbrsA,
    vget nbrs A = Done nbrsA ∧
    (∀ B, B ∈ nbrsA → ∃ v, xx_entry pow dT cm A B = Done v) ∧
    (∀ i j, mget (XX_AB s') i j =
            if decide (i = A ∧ j ∈ nbrsA) then xx_entry pow dT cm A j
            else mget (XX_AB s) i j).
Proof.
  unfold aiem_site. intros Hrun.
  apply bind_Done in Hrun as (nbrsA & Hnbrs & Hrun).
  apply bind_Done in Hrun as (s1 & Hloop & Hrun).
  apply bind_Done in Hrun as (z & _ & Hrun).
  apply bind_Done in Hrun as (x & _ & Hrun).
  simplify_eq. cbn [XX_AB].
  exists nbrsA. split; [done|]. by apply aiem_pairs_store.
Qed.

(** The loop over the sites: the entry of every coupled pair is the
    coupling of the pair. *)
Lemma aiem_sites_store (n : Z) (nbrs : list (list Z)) (s0 s : AIEM D) :
  0 ≤ n →
  foldM (aiem_site pow dipoleSum dipoleDiff dT cm nbrs) (range 0 n) s0 = Done s →
  ∀ A, 0 ≤ A < n → ∀ B nbrsA,
    vget nbrs A = Done nbrsA → B ∈ nbrsA →
    ∃ v, xx_entry pow dT cm A B = Done v ∧ mget (XX_AB s) A B = Done v.
Proof.
  intros Hn Hrun.
  apply (foldM_range_inv
    (λ K s, ∀ A, 0 ≤ A < K → ∀ B nbrsA,
       vget nbrs A = Done nbrsA → B ∈ nbrsA →
       ∃ v, xx_entry pow dT cm A B = Done v ∧ mget (XX_AB s) A B = Done v)
    (aiem_site pow dipoleSum dipoleDiff dT cm nbrs) 0 n s0 s);
    [done|intros; lia| |done].
  intros K t t' HK Hinv Hstep A HA B nbrsA Hnbrs HB.
  destruct (aiem_site_stores nbrs K t t' Hstep)
    as (nbrsK & HnbrsK & Hin & Hall).
  rewrite Hall. destruct (decide (A = K)) as [->|Hne].
  - rewrite Hnbrs in HnbrsK. simplify_eq.
    rewrite decide_True by done.
    destruct (Hin B HB) as [v Hv]. exists v. by rewrite Hv.
  - rewrite decide_False by naive_solver.
    apply (Hinv A ltac:(lia) B nbrsA); done.
Qed.
End StoredCouplings.

Section BuilderStores.
Context {D : Type} `{Scalar D}.
Context (pow : D → D → D).

(** C7, amended: the Hamiltonian builder and the construction of the
    reference matrix have no error path.  Whatever the data, the number of
    sites and the topology, coinciding sites included, they report no fatal
    error and throw nothing: they complete, or index out of the bounds; on
    a ring of at least two sites with data of the right shape the builder
    completes.  Wherever it completes, the entry [XX_AB(A, B)] of every
    pair that the neighbour list couples holds the coupling of the
    transition dipoles of the two sites as it is computed, the quotient by
    [pow d 3] with [d] the distance of the centers of mass, untested. *)
Theorem builder_reports_no_error (n nStates : Z) (cyclic : bool)
    (d : SiteData D) :
  no_report (aiem pow n cyclic d) ∧
  (∀ s, no_report (CISMatrix n nStates cyclic s)) ∧
  (cyclic = true → 2 ≤ n → site_data_dims n d →
   ∃ s, aiem pow n cyclic d = Done s) ∧
  (∀ s, aiem pow n cyclic d = Done s →
     ∀ A B nbrs, vget (pairs n cyclic) A = Done nbrs → B ∈ nbrs →
       ∃ tA tB comA comB,
         mrow (dipoleT d) A = Done tA ∧ mrow (dipoleT d) B = Done tB ∧
         mrow (com d) A = Done comA ∧ mrow (com d) B = Done comB ∧
         mget (XX_AB s) A B =
           Done (spec_coupling pow tA tB (zip_with dsub comA comB))).
Proof.
  split; [apply no_report_aiem|].
  split; [intros; apply no_report_CISMatrix|].
  split.
  { intros -> Hn Hd.
    destruct (aiem_ring_total pow n d Hn Hd) as (s & Hs & _).
    by exists s. }
  intros s Hrun A B nbrs Hnbrs HB.
  assert (0 ≤ A < n) as HA.
  { apply vget_Done in Hnbrs as [? Hl]. apply lookup_lt_Some in Hl.
    pose proof (length_pairs n cyclic). lia. }
  unfold aiem in Hrun.
  apply bind_Done in Hrun as (s1 & Hloop & Hrun). simplify_eq. cbn [XX_AB].
  destruct (aiem_sites_store pow _ _ (dipoleT d) (com d) n _ _ s1
              ltac:(lia) Hloop A HA B nbrs Hnbrs HB) as (v & Hv & Hget).
  unfold xx_entry in Hv.
  apply bind_Done in Hv as (tA & HtA & Hv).
  apply bind_Done in Hv as (tB & HtB & Hv).
  apply bind_Done in Hv as (comA & HcomA & Hv).
  apply bind_Done in Hv as (comB & HcomB & Hv).
  simplify_eq. exists tA, tB, comA, comB.
  by rewrite Hget, twoBodyH_spec_coupling.
Qed.
End BuilderStores.

(** ** The further statements on concrete inputs *)

Lemma entangler_parameter_count_witness :
  nVariables (entanglerCircuit (three_sites true)) =
    nChromophores (three_sites true)
    + 4 * (nChromophores (three_sites true) - 1
           + nChromophores (three_sites true) `mod` 2)
    + (if isCyclic (three_sites true) then 4 else 0).
Proof. apply (entangler_parameter_count (three_sites true)). simpl. lia. Defined.

Lemma entangler_even_sites_in_register_witness :
  qubits_below (nChromophores (four_sites true))
               (entanglerCircuit (four_sites true)).
Proof.
  apply (entangler_even_sites_in_register (four_sites true)).
  - simpl. lia.
  - reflexivity.
Defined.

Lemma entangler_odd_sites_leaves_register_witness :
  CNOT (nChromophores (three_sites false) - 1) (nChromophores (three_sites false))
    ∈ getInstructions (entanglerCircuit (three_sites false)) ∧
  ¬ qubits_below (nChromophores (three_sites false))
                 (entanglerCircuit (three_sites false)).
Proof.
  apply (entangler_odd_sites_leaves_register (three_sites false)).
  - simpl. lia.
  - reflexivity.
Defined.

Lemma statePreparationCircuit_shape_witness :
  ∃ c,
    statePreparationCircuit (four_sites false) [1; 0.5; 0.25; 2]%float = Done c ∧
    2 * nInstructions c =
      2 + 10 * (nChromophores (four_sites false) - 1)
      + nChromophores (four_sites false)
        * (nChromophores (four_sites false) - 1) ∧
    getVariables c = [] ∧
    qubits_below (nChromophores (four_sites false)) c.
Proof.
  apply (statePreparationCircuit_shape (four_sites false)
           [1; 0.5; 0.25; 2]%float).
  - simpl. lia.
  - simpl. lia.
Defined.

Lemma execute_at_postcondition_witness :
  ∃ energies m,
    mapM' (state_energy (two_sites true 1)
             (entanglerCircuit (two_sites true 1)) [])
          (range 0 (nStates (two_sites true 1))) = Done energies ∧
    execute_at identity_solver (two_sites true 1) [] =
      Done (foldl (λ a e, (a + e / of_int (nStates (two_sites true 1)))%dbl)
                  (of_int 0) energies,
            m,
            if doInterference (two_sites true 1)
            then Some (identity_solver m).1 else None) ∧
    mdims m (nStates (two_sites true 1)) (nStates (two_sites true 1)) ∧
    (∀ i, 0 ≤ i < nStates (two_sites true 1) →
          mget m i i = vget energies i) ∧
    (∀ a b, 0 ≤ a → a < b → b < nStates (two_sites true 1) →
       mget m a b =
         (if doInterference (two_sites true 1)
          then spec_interference_entry (two_sites true 1)
                 (entanglerCircuit (two_sites true 1)) [] a b
          else Done d0) ∧
       mget m b a = mget m a b).
Proof.
  apply (execute_at_postcondition identity_solver (two_sites true 1) []).
  split; [by eexists|]. split; [simpl; lia|].
  repeat constructor; simpl; lia.
Defined.

Lemma more_states_than_columns_witness :
  execute_at identity_solver three_states_of_two [] = Undefined ∧
  ∀ entangler st dx,
    objective nInstructions three_states_of_two entangler st [] dx = Undefined.
Proof.
  apply (more_states_than_columns nInstructions identity_solver
           three_states_of_two []).
  simpl. lia.
Defined.

Lemma read_data_well_formed_file_witness :
  read_data strtod_digits one_file (two_sites true 1) =
    Done (site_data two_sites_values).
Proof.
  apply (read_data_well_formed_file strtod_digits one_file (two_sites true 1)
           two_sites_labels two_sites_texts two_sites_values []).
  - repeat split; simpl; lia.
  - repeat constructor; try discriminate; reflexivity.
  - reflexivity.
  - reflexivity.
Defined.

Lemma read_data_file_ends_early_witness :
  read_data strtod_digits short_file (two_sites true 1) =
    Done (site_data
            (take 1 two_sites_values ++
             [mkSite "1" 1%float 3%float (d0, d0, d0) (d0, d0, d0)
                     (d0, d0, d0) (d0, d0, d0) ""])).
Proof.
  apply (read_data_file_ends_early strtod_digits short_file (two_sites true 1)
           two_sites_labels (take 1 two_sites_texts) (take 1 two_sites_values)
           "1" "1" "3" 1%float 3%float).
  - repeat split; simpl; lia.
  - repeat constructor; try discriminate; reflexivity.
  - split; [discriminate|reflexivity].
  - split; [discriminate|reflexivity].
  - reflexivity.
  - reflexivity.
Defined.

Lemma initialize_postcondition_witness :
  ∃ this',
    initialize pow_cube acos_unreached strtod_digits identity_solver
               1%float 1%float no_service one_file (two_sites false 1)
               (two_sites_options true) = Done (InitTrue this') ∧
    ∃ n,
      p_nChromophores (two_sites_options true) = Some n ∧ 0 ≤ n ∧
      nChromophores this' = n ∧
      accelerator this' = p_accelerator (two_sites_options true) ∧
      optimizer this' = p_optimizer (two_sites_options true) ∧
      Some (dataPath this') = p_data_path (two_sites_options true) ∧
      isCyclic this' = default false (p_cyclic (two_sites_options true)) ∧
      logLevel this' =
        default (logLevel (two_sites false 1))
                (p_log_level (two_sites_options true)) ∧
      tnqvmLog this' =
        default (tnqvmLog (two_sites false 1))
                (p_tnqvm_log (two_sites_options true)) ∧
      doInterference this' =
        default (doInterference (two_sites false 1))
                (p_interference (two_sites_options true)) ∧
      nStates this' = default (n + 1) (p_n_states (two_sites_options true)) ∧
      mdims (CISGateAngles this') n (n + 1) ∧
      gradientStrategy this' =
        match p_gradient_strategy (two_sites_options true) with
        | Some name => no_service name
        | None => gradientStrategy (two_sites false 1)
        end.
Proof.
  eexists. split; [vm_compute; reflexivity|].
  apply (initialize_postcondition pow_cube acos_unreached strtod_digits
           identity_solver 1%float 1%float no_service one_file
           (two_sites false 1) _ (two_sites_options true)).
  vm_compute. reflexivity.
Defined.

Lemma initialize_makes_ready_witness :
  ∃ this',
    initialize pow_cube acos_unreached strtod_digits identity_solver
               1%float 1%float no_service one_file (two_sites false 1)
               (two_sites_options true) = Done (InitTrue this') ∧
    ready this'.
Proof.
  eexists. split; [vm_compute; reflexivity|].
  apply (initialize_makes_ready pow_cube acos_unreached strtod_digits
           identity_solver 1%float 1%float no_service one_file
           (two_sites false 1) _ (two_sites_options true)).
  - vm_compute. reflexivity.
  - simpl. lia.
  - simpl. lia.
Defined.

Lemma initialize_ring_succeeds_witness :
  ∃ this',
    initialize pow_cube acos_unreached strtod_digits identity_solver
               1%float 1%float no_service one_file (two_sites false 1)
               (two_sites_options true) = Done (InitTrue this').
Proof.
  apply (initialize_ring_succeeds pow_cube acos_unreached strtod_digits
           identity_solver 1%float 1%float no_service one_file
           (two_sites false 1) (two_sites_options true) pump_backend
           {| optimize := λ _, OptResult 0%float [] |} "data.txt"
           two_sites_labels two_sites_texts two_sites_values []).
  - reflexivity.
  - reflexivity.
  - reflexivity.
  - reflexivity.
  - reflexivity.
  - simpl. lia.
  - repeat split; simpl; lia.
  - repeat constructor; try discriminate; reflexivity.
  - reflexivity.
  - intros m Hm. exact Hm.
  - intros name Hname. discriminate Hname.
Defined.

Lemma run_without_negative_average_witness :
  ∃ value params st',
    run_optimizer nInstructions two_sites_run (entanglerCircuit two_sites_run)
      (optimize evaluate_once (nVariables (entanglerCircuit two_sites_run)))
      (first_call_state two_sites_run 9%float) = Done (value, params, st') ∧
    entangledHamiltonian st' =
      entangledHamiltonian (first_call_state two_sites_run 9%float) ∧
    oldAverageEnergy st' = of_int 0.
Proof.
  eexists _, _, _. split; [vm_compute; reflexivity|].
  eapply (run_without_negative_average nInstructions two_sites_run
            (entanglerCircuit two_sites_run)
            (optimize evaluate_once (nVariables (entanglerCircuit two_sites_run)))
            (first_call_state two_sites_run 9%float)).
  - reflexivity.
  - vm_compute. repeat constructor.
  - vm_compute. reflexivity.
Defined.

Lemma run_keeps_best_average_witness :
  ∃ value params st',
    run_optimizer nInstructions two_sites_negative
      (entanglerCircuit two_sites_negative)
      (optimize evaluate_twice 0)
      (first_call_state two_sites_negative 9%float)
      = Done (value, params, st') ∧
    ((oldAverageEnergy st'
        <? oldAverageEnergy (first_call_state two_sites_negative 9%float))%dbl
       = true ∨
     oldAverageEnergy st'
       = oldAverageEnergy (first_call_state two_sites_negative 9%float)) ∧
    Forall (λ e, (e <? oldAverageEnergy st')%dbl = false)
           (objective_values nInstructions two_sites_negative
              (entanglerCircuit two_sites_negative)
              (optimize evaluate_twice 0)
              (first_call_state two_sites_negative 9%float)).
Proof.
  eexists _, _, _. split; [vm_compute; reflexivity|].
  eapply (run_keeps_best_average nInstructions binary64_ltb_irrefl
            binary64_ltb_trans two_sites_negative
            (entanglerCircuit two_sites_negative) (optimize evaluate_twice 0)
            (first_call_state two_sites_negative 9%float)).
  vm_compute. reflexivity.
Defined.
